(** * Scavenger Mine coordinator (python_miner.py): a shallow embedding

    The Python coordinator reads challenges from a CSV file, lets workers
    ask a local hashing daemon for digests of freshly built preimages,
    tests each digest against the challenge's difficulty mask and posts a
    qualifying nonce to the remote service with a bounded retry.

    Modelling conventions.
    - A Python [str] is a [string]; a character is its code point, so the
      model covers strings whose code points are below 256.
    - A Python [int] is a [Z]; the bit operators are [Z.land] and [Z.lnot]
      (two's complement on unbounded integers, as in Python).
    - A [dict] with string keys is a [gmap string _].
    - A function that can raise returns an [outcome]; [try]/[except] is
      [try_except].
    - The worker is a state-passing program over a [world]; everything the
      worker obtains from outside (published challenge, random bits, clock,
      daemon replies, HTTP replies, what the console does with a line) is
      read from a scripted [env], the k-th call of an operation getting
      the k-th scripted answer.
    - One worker is run on its own: the other threads of the pool and the
      orchestrator are not part of the model, so the stop event changes
      only when this worker sets it.
    - A [print] is a step that can raise, as it does when the console
      cannot encode the line or the stream is broken; a line is named by
      the statement that prints it.  The local counter [tries] of
      [Worker.run], which is written and never read, is left out.
    - In the worker the socket handling of [_send_pre_and_recv_hash] is
      behind [send_recv]: what counts there is whether the call returns a
      line or [None].  The socket itself is modelled in [Client].
    - The two [while] loops take fuel; statements about them say how much
      fuel is enough, or hold for any fuel. *)

From Stdlib Require Import ZArith NArith Ascii String Bool Lia.
From stdpp Require Import base option list strings gmap.

#[local] Open Scope Z_scope.

(* ===================================================================== *)
(** * Exceptions *)
(* ===================================================================== *)

Inductive exn : Type :=
| ValueError
| KeyError (key : string)
| StopIteration
| OSError
| SystemExit (code : Z).

(** The result of running a piece of Python: a value, a raised exception,
    or (for the fuel-bounded loops only) fuel exhaustion. *)
Inductive outcome (A : Type) : Type :=
| Return (a : A)
| Raise (e : exn)
| OutOfFuel.

Arguments Return {A} a.
Arguments Raise {A} e.
Arguments OutOfFuel {A}.

Definition obind {A B : Type} (o : outcome A) (k : A -> outcome B) : outcome B :=
  match o with
  | Return a => k a
  | Raise e => Raise e
  | OutOfFuel => OutOfFuel
  end.

(** [SystemExit] derives from [BaseException], not from [Exception]. *)
Definition is_Exception (e : exn) : bool :=
  match e with
  | SystemExit _ => false
  | _ => true
  end.

(** [try: body  except Exception: handler]. *)
Definition try_except {A : Type} (body : outcome A) (handler : exn -> outcome A)
  : outcome A :=
  match body with
  | Raise e => if is_Exception e then handler e else Raise e
  | r => r
  end.

(* ===================================================================== *)
(** * Python string and integer primitives *)
(* ===================================================================== *)

Module Py.

Definition ord (c : ascii) : Z := Z.of_N (N_of_ascii c).

(** [Py_ISSPACE]: tab, LF, VT, FF, CR and space. *)
Definition c_isspace (c : ascii) : bool :=
  ((9 <=? ord c) && (ord c <=? 13)) || (ord c =? 32).

(** [str.isspace] on one character below 256: the C white space, the
    separators FS, GS, RS, US, NEL and the no-break space. *)
Definition unicode_isspace (c : ascii) : bool :=
  c_isspace c || ((28 <=? ord c) && (ord c <=? 31))
  || (ord c =? 133) || (ord c =? 160).

(** [_PyLong_DigitValue]: 0..9 for decimal digits, 10..35 for letters of
    either case, 37 for every other character. *)
Definition digit_value (c : ascii) : Z :=
  let n := ord c in
  if (48 <=? n) && (n <=? 57) then n - 48
  else if (97 <=? n) && (n <=? 122) then n - 87
  else if (65 <=? n) && (n <=? 90) then n - 55
  else 37.

Definition is_underscore (c : ascii) : bool := ord c =? 95.

Fixpoint is_ascii (s : string) : bool :=
  match s with
  | EmptyString => true
  | String c r => (ord c <? 128) && is_ascii r
  end.

(** [_PyUnicode_TransformDecimalAndSpaceToASCII] on a string that is not
    pure ASCII: white space becomes a space, a character that is neither
    white space nor a decimal digit becomes a question mark and ends the
    string (below 256 the only decimal digits are the ASCII ones). *)
Fixpoint transform_decimal_and_space (s : string) : string :=
  match s with
  | EmptyString => EmptyString
  | String c r =>
      if ord c <? 127 then String c (transform_decimal_and_space r)
      else if unicode_isspace c then String " "%char (transform_decimal_and_space r)
      else String "?"%char EmptyString
  end.

Fixpoint skip_space (s : string) : string :=
  match s with
  | String c r => if c_isspace c then skip_space r else s
  | EmptyString => s
  end.

(** [long_from_binary_base]: the run of digits below [base] and single
    underscores; two underscores in a row or a trailing underscore are a
    syntax error.  Returns the value read and the unread rest. *)
Fixpoint long_from_binary_base (base : Z) (prev_us : bool) (acc : Z) (s : string)
  : option (Z * string) :=
  match s with
  | String c r =>
      if digit_value c <? base
      then long_from_binary_base base false (base * acc + digit_value c) r
      else if is_underscore c
           then (if prev_us then None else long_from_binary_base base true acc r)
           else (if prev_us then None else Some (acc, s))
  | EmptyString => if prev_us then None else Some (acc, s)
  end.

Definition is_x (c : ascii) : bool := (ord c =? 120) || (ord c =? 88).

(** [PyLong_FromString] for base 16. *)
Definition long_from_string16 (s0 : string) : option Z :=
  let s1 := skip_space s0 in
  let '(sign, s2) :=
    match s1 with
    | String c r =>
        if ord c =? 43 then (1, r)
        else if ord c =? 45 then (-1, r)
        else (1, s1)
    | EmptyString => (1, s1)
    end in
  let s3 :=
    match s2 with
    | String c0 (String c1 r) =>
        if (ord c0 =? 48) && is_x c1
        then match r with
             | String c2 r' => if is_underscore c2 then r' else r
             | EmptyString => r
             end
        else s2
    | _ => s2
    end in
  match s3 with
  | String c _ => if is_underscore c then None else
      match long_from_binary_base 16 false 0 s3 with
      | None => None
      | Some (z, rest) =>
          if (String.length rest =? String.length s3)%nat then None
          else match skip_space rest with
               | EmptyString => Some (sign * z)
               | String _ _ => None
               end
      end
  | EmptyString => None
  end.

(** [int(s, 16)] for a [str] argument. *)
Definition int16 (s : string) : outcome Z :=
  let asciidig := if is_ascii s then s else transform_decimal_and_space s in
  match long_from_string16 asciidig with
  | Some z => Return z
  | None => Raise ValueError
  end.

(** [s[0:n]]. *)
Definition slice_to (n : nat) (s : string) : string := substring 0 n s.

(** [s.lstrip()], [s.rstrip()] and [s.strip()] with no argument. *)
Fixpoint lstrip (s : string) : string :=
  match s with
  | String c r => if unicode_isspace c then lstrip r else s
  | EmptyString => s
  end.

Fixpoint rstrip (s : string) : string :=
  match s with
  | EmptyString => EmptyString
  | String c r =>
      match rstrip r with
      | EmptyString => if unicode_isspace c then EmptyString else String c EmptyString
      | r' => String c r'
      end
  end.

Definition strip (s : string) : string := rstrip (lstrip s).

(** [s.rstrip('/')]. *)
Fixpoint rstrip_slash (s : string) : string :=
  match s with
  | EmptyString => EmptyString
  | String c r =>
      match rstrip_slash r with
      | EmptyString => if ord c =? 47 then EmptyString else String c EmptyString
      | r' => String c r'
      end
  end.

(** Truth value of a [str]: non-empty. *)
Definition truthy (s : string) : bool :=
  match s with
  | EmptyString => false
  | String _ _ => true
  end.

(** [sep.join(parts)] for the empty separator. *)
Definition join_empty (parts : list string) : string :=
  foldr String.append EmptyString parts.

(** One lowercase hexadecimal digit, for a value below 16. *)
Definition hex_char (d : N) : ascii :=
  if (d <? 10)%N then ascii_of_N (48 + d) else ascii_of_N (87 + d).

(** ["{:016x}".format(n)] for [n] below [2^64]: sixteen lowercase digits,
    most significant first. *)
Fixpoint hex_fixed (width : nat) (n : N) : string :=
  match width with
  | O => EmptyString
  | S w => String (hex_char ((n / 16 ^ N.of_nat w) mod 16)%N) (hex_fixed w n)
  end.

Definition format_016x (n : N) : string := hex_fixed 16 n.

End Py.

(* ===================================================================== *)
(** * Pure helpers of the miner *)
(* ===================================================================== *)

(** [hash_meets_difficulty(hash_hex, difficulty_hex)].  The [try] block
    yields the two numbers, the [except] branch the early [return False]. *)
Definition hash_meets_difficulty (hash_hex difficulty_hex : string) : outcome bool :=
  if negb (Py.truthy hash_hex) || (String.length hash_hex <? 8)%nat
  then Return false
  else
    obind
      (try_except
         (obind (Py.int16 (Py.slice_to 8 hash_hex)) (fun left4 =>
          obind (Py.int16 difficulty_hex) (fun mask =>
          Return (inr (left4, mask)))))
         (fun _ => Return (inl false)))
      (fun parsed =>
         match parsed with
         | inl early => Return early
         | inr (left4, mask) =>
             Return (Z.land left4 (Z.land (Z.lnot mask) 0xFFFFFFFF) =? 0)
         end).

(** [d[key]] on a dictionary: [KeyError] when the key is missing. *)
Definition getitem (d : gmap string string) (key : string) : outcome string :=
  match d !! key with
  | Some v => Return v
  | None => Raise (KeyError key)
  end.

(** [build_preimage(nonce_hex, address, challenge)]. *)
Definition build_preimage (nonce_hex address : string) (challenge : gmap string string)
  : outcome string :=
  obind (getitem challenge "challenge_id") (fun challenge_id =>
  obind (getitem challenge "difficulty") (fun difficulty =>
  obind (getitem challenge "no_pre_mine") (fun no_pre_mine =>
  obind (getitem challenge "latest_submission") (fun latest_submission =>
  let parts :=
    [ nonce_hex;
      address;
      challenge_id;
      difficulty;
      no_pre_mine;
      latest_submission;
      default EmptyString (challenge !! "no_pre_mine_hour") ] in
  Return (Py.join_empty parts))))).

(** The line a worker sends to the daemon for one nonce:
    [rom] is [challenge.get("no_pre_mine")] with the empty string as
    default, and the line is [f"{rom}|{pre}"]. *)
Definition pre_with_rom (nonce_hex address : string) (challenge : gmap string string)
  : outcome string :=
  obind (build_preimage nonce_hex address challenge) (fun pre =>
  let rom := default EmptyString (challenge !! "no_pre_mine") in
  Return (rom +:+ "|" +:+ pre)).

(* ===================================================================== *)
(** * Reading the challenge list *)
(* ===================================================================== *)

Definition DEFAULT_LATEST_SUBMISSION : string := "2099-12-31T23:59:59.000Z".

(** [row[i].strip() if len(row) > i else dflt]. *)
Definition cell (row : list string) (i : nat) (dflt : string) : string :=
  if (i <? length row)%nat then Py.strip (default EmptyString (row !! i)) else dflt.

(** The dictionary built from one CSV row. *)
Definition challenge_of_row (row : list string) : gmap string string :=
  <["challenge_id" := cell row 0 EmptyString]>
  (<["difficulty" := cell row 1 EmptyString]>
  (<["no_pre_mine" := cell row 2 EmptyString]>
  (<["no_pre_mine_hour" := cell row 3 EmptyString]>
  (<["latest_submission" := cell row 4 DEFAULT_LATEST_SUBMISSION]> ∅)))).

(** The required fields are present: each of the three strings is
    non-empty. *)
Definition required_fields (challenge : gmap string string) : bool :=
  Py.truthy (default EmptyString (challenge !! "challenge_id"))
  && Py.truthy (default EmptyString (challenge !! "difficulty"))
  && Py.truthy (default EmptyString (challenge !! "no_pre_mine")).

(** The [for row in reader] loop; [challenges] is the list built so far. *)
Fixpoint read_rows (rows : list (list string)) (challenges : list (gmap string string))
  : list (gmap string string) :=
  match rows with
  | [] => challenges
  | row :: rest =>
      if (length row <? 5)%nat then read_rows rest challenges
      else
        let challenge := challenge_of_row row in
        if required_fields challenge
        then read_rows rest (challenges ++ [challenge])
        else read_rows rest challenges
  end.

(** What iterating [csv.reader(f)] gives: the rows it yields, in order,
    and then either the end of the file or an exception (a
    [UnicodeDecodeError] of the file object, a [csv.Error] of the reader). *)
Record reading : Type := {
  yielded : list (list string);
  failure : option exn
}.

(** [read_challenges_from_csv(csv_file)] on a file that [csv.reader] reads
    to its end, with a console that takes the line printed after the loop.
    The argument is what opening the file and the reader give: [None]
    when the file cannot be opened, otherwise the rows in order, the
    header row first.  [read_challenges_from_reader] below is the same
    function with a reader that can fail on the way and with the console. *)
Definition read_challenges_from_csv (file : option (list (list string)))
  : outcome (list (gmap string string)) :=
  try_except
    (match file with
     | None => Raise OSError
     | Some [] => Raise StopIteration
     | Some (header :: rows) => Return (read_rows rows [])
     end)
    (fun _ => Raise (SystemExit 1)).

(* ===================================================================== *)
(** * The worker *)
(* ===================================================================== *)

Definition NONCE_BATCH : nat := 1024.

(** One entry of [ErrorLogger.errors]. *)
Record error_entry : Type := {
  err_timestamp : string;
  err_address : string;
  err_challenge_id : string;
  err_nonce : string;
  err_error : string
}.

(** What [requests.post] does: a response with its status code and body,
    or an exception carrying a message.  [body] is what [post_solution]
    returns of the response: [r.json()], or [r.text] when the body is
    not JSON. *)
Inductive http_reply : Type :=
| Response (status_code : Z) (body : string)
| RequestException (message : string).

(** The lines printed, each named by the statement that prints it and
    holding the values formatted into it; the prefix with the worker's
    number is left out.  In the order of the source: l.188 and l.190 of
    [read_challenges_from_csv], then l.254, l.304, l.313, l.320, l.325
    and l.330 of [Worker.run]. *)
Inductive message : Type :=
| MsgLoaded (count : nat)
| MsgReadError (e : exn)
| MsgStarted
| MsgFound (nonce hash_hex challenge_id : string)
| MsgSubmitReturned (sc : option Z) (resp : string)
| MsgSubmitRetry (attempts : nat)
| MsgSubmitError (attempts : nat) (e : exn)
| MsgFailedToSubmit.

(** The observable steps of a worker, in the order they happen.  Sleeps
    are in milliseconds; [EvPrint] is a line that did reach the console. *)
Inductive event : Type :=
| EvSleep (ms : Z)
| EvExchange (payload : string) (reply : option string)
| EvHashCounted
| EvDifficulty (hash_hex difficulty : string) (met : bool)
| EvPost (url : string) (reply : http_reply)
| EvSetStop
| EvPrint (line : message).

(** The process-wide state one worker sees: the stop event, the [Stats]
    counters, the error log, the trace of steps so far, and how many times
    each outside operation has been called. *)
Record world : Type := {
  stop_event : bool;
  hashes : nat;
  solutions : nat;
  errors : list error_entry;
  trace : list event;
  getter_calls : nat;
  random_calls : nat;
  clock_calls : nat;
  oracle_calls : nat;
  post_calls : nat;
  print_calls : nat
}.

(** The scripted outside world.  Times are integer microseconds since the
    epoch; the rounding of Python floats is not modelled.  [print_raises k
    line] is what call number [k] of [print] does with [line]: [None] when
    the line is written, otherwise the exception raised
    ([UnicodeEncodeError], a [ValueError], when the console cannot encode
    the text; [OSError] when the stream is broken). *)
Record env : Type := {
  challenge_getter : nat -> option (gmap string string);
  getrandbits64 : nat -> N;
  time_time : nat -> Z;
  send_recv : nat -> string -> option string;
  requests_post : nat -> string -> http_reply;
  fromisoformat_timestamp : string -> option Z;
  now_iso : nat -> string;
  print_raises : nat -> message -> option exn
}.

(** The fields of a [Worker] the run loop reads. *)
Record worker : Type := {
  base_url : string;
  address : string;
  submit_on_find : bool
}.

(** A stateful computation that may raise. *)
Definition prog (A : Type) : Type := world -> outcome A * world.

Definition ret {A : Type} (a : A) : prog A := fun w => (Return a, w).

Definition bind {A B : Type} (c : prog A) (k : A -> prog B) : prog B :=
  fun w =>
    match c w with
    | (Return a, w') => k a w'
    | (Raise e, w') => (Raise e, w')
    | (OutOfFuel, w') => (OutOfFuel, w')
    end.

Definition lift {A : Type} (o : outcome A) : prog A := fun w => (o, w).

Definition out_of_fuel {A : Type} : prog A := fun w => (OutOfFuel, w).

(** [try: body  except Exception: handler] around stateful code. *)
Definition try_prog {A : Type} (body : prog A) (handler : exn -> prog A) : prog A :=
  fun w =>
    match body w with
    | (Raise e, w') => if is_Exception e then handler e w' else (Raise e, w')
    | r => r
    end.

Declare Scope prog_scope.
Delimit Scope prog_scope with prog.
Notation "'let*' x ':=' c 'in' k" := (bind c (fun x => k))
  (at level 10, x pattern, c at level 100, k at level 200) : prog_scope.
Notation "'do' c 'then' k" := (bind c (fun _ => k))
  (at level 10, c at level 100, k at level 200) : prog_scope.
#[local] Open Scope prog_scope.

(** ** Updates of one component of the world *)

Definition record (e : event) (w : world) : world :=
  {| stop_event := stop_event w; hashes := hashes w; solutions := solutions w;
     errors := errors w; trace := trace w ++ [e];
     getter_calls := getter_calls w; random_calls := random_calls w;
     clock_calls := clock_calls w; oracle_calls := oracle_calls w;
     post_calls := post_calls w; print_calls := print_calls w |}.

Definition with_stop (w : world) : world :=
  {| stop_event := true; hashes := hashes w; solutions := solutions w;
     errors := errors w; trace := trace w;
     getter_calls := getter_calls w; random_calls := random_calls w;
     clock_calls := clock_calls w; oracle_calls := oracle_calls w;
     post_calls := post_calls w; print_calls := print_calls w |}.

Definition with_hashes (n : nat) (w : world) : world :=
  {| stop_event := stop_event w; hashes := n; solutions := solutions w;
     errors := errors w; trace := trace w;
     getter_calls := getter_calls w; random_calls := random_calls w;
     clock_calls := clock_calls w; oracle_calls := oracle_calls w;
     post_calls := post_calls w; print_calls := print_calls w |}.

Definition with_solutions (n : nat) (w : world) : world :=
  {| stop_event := stop_event w; hashes := hashes w; solutions := n;
     errors := errors w; trace := trace w;
     getter_calls := getter_calls w; random_calls := random_calls w;
     clock_calls := clock_calls w; oracle_calls := oracle_calls w;
     post_calls := post_calls w; print_calls := print_calls w |}.

Definition with_error (entry : error_entry) (w : world) : world :=
  {| stop_event := stop_event w; hashes := hashes w; solutions := solutions w;
     errors := errors w ++ [entry]; trace := trace w;
     getter_calls := getter_calls w; random_calls := random_calls w;
     clock_calls := clock_calls w; oracle_calls := oracle_calls w;
     post_calls := post_calls w; print_calls := print_calls w |}.

Definition next_getter (w : world) : world :=
  {| stop_event := stop_event w; hashes := hashes w; solutions := solutions w;
     errors := errors w; trace := trace w;
     getter_calls := S (getter_calls w); random_calls := random_calls w;
     clock_calls := clock_calls w; oracle_calls := oracle_calls w;
     post_calls := post_calls w; print_calls := print_calls w |}.

Definition next_random (w : world) : world :=
  {| stop_event := stop_event w; hashes := hashes w; solutions := solutions w;
     errors := errors w; trace := trace w;
     getter_calls := getter_calls w; random_calls := S (random_calls w);
     clock_calls := clock_calls w; oracle_calls := oracle_calls w;
     post_calls := post_calls w; print_calls := print_calls w |}.

Definition next_clock (w : world) : world :=
  {| stop_event := stop_event w; hashes := hashes w; solutions := solutions w;
     errors := errors w; trace := trace w;
     getter_calls := getter_calls w; random_calls := random_calls w;
     clock_calls := S (clock_calls w); oracle_calls := oracle_calls w;
     post_calls := post_calls w; print_calls := print_calls w |}.

Definition next_oracle (w : world) : world :=
  {| stop_event := stop_event w; hashes := hashes w; solutions := solutions w;
     errors := errors w; trace := trace w;
     getter_calls := getter_calls w; random_calls := random_calls w;
     clock_calls := clock_calls w; oracle_calls := S (oracle_calls w);
     post_calls := post_calls w; print_calls := print_calls w |}.

Definition next_post (w : world) : world :=
  {| stop_event := stop_event w; hashes := hashes w; solutions := solutions w;
     errors := errors w; trace := trace w;
     getter_calls := getter_calls w; random_calls := random_calls w;
     clock_calls := clock_calls w; oracle_calls := oracle_calls w;
     post_calls := S (post_calls w); print_calls := print_calls w |}.

Definition next_print (w : world) : world :=
  {| stop_event := stop_event w; hashes := hashes w; solutions := solutions w;
     errors := errors w; trace := trace w;
     getter_calls := getter_calls w; random_calls := random_calls w;
     clock_calls := clock_calls w; oracle_calls := oracle_calls w;
     post_calls := post_calls w; print_calls := S (print_calls w) |}.

(** ** The primitive steps *)

(** A step that only leaves its mark in the trace. *)
Definition note (e : event) : prog unit := fun w => (Return tt, record e w).

(** [time.sleep]. *)
Definition sleep (ms : Z) : prog unit := note (EvSleep ms).

(** [stop_event.is_set()] and [stop_event.set()]. *)
Definition is_set : prog bool := fun w => (Return (stop_event w), w).

Definition set_stop : prog unit := fun w => (Return tt, record EvSetStop (with_stop w)).

(** [stats.add_hashes(n)] and [stats.inc_solutions()]. *)
Definition add_hashes (n : nat) : prog unit := fun w =>
  (Return tt, record EvHashCounted (with_hashes (hashes w + n) w)).

Definition inc_solutions : prog unit := fun w =>
  (Return tt, with_solutions (solutions w + 1) w).

Section Worker.

Variable E : env.
Variable self : worker.

(** [error_logger.log_error(address, challenge_id, nonce, error)]. *)
Definition log_error (addr challenge_id nonce error : string) : prog unit := fun w =>
  (Return tt,
   with_error {| err_timestamp := now_iso E (length (errors w));
                 err_address := addr;
                 err_challenge_id := challenge_id;
                 err_nonce := nonce;
                 err_error := error |} w).

(** [self.challenge_getter()]. *)
Definition get_challenge : prog (option (gmap string string)) := fun w =>
  (Return (challenge_getter E (getter_calls w)), next_getter w).

(** [hex64_nonce()]: sixteen hex digits of 64 fresh random bits. *)
Definition hex64_nonce : prog string := fun w =>
  (Return (Py.format_016x (getrandbits64 E (random_calls w) mod 2 ^ 64)%N),
   next_random w).

(** [time.time()]. *)
Definition now : prog Z := fun w =>
  (Return (time_time E (clock_calls w)), next_clock w).

(** [self._send_pre_and_recv_hash(preimage)]: one exchange with the
    daemon; [None] when there is no connection or the exchange fails. *)
Definition send_pre_and_recv_hash (preimage : string) : prog (option string) := fun w =>
  let reply := send_recv E (oracle_calls w) preimage in
  (Return reply, next_oracle (record (EvExchange preimage reply) w)).

(** [requests.post(url, json={}, timeout=10)], an exception being a
    reply of its own. *)
Definition http_post (url : string) : prog http_reply := fun w =>
  let reply := requests_post E (post_calls w) url in
  (Return reply, next_post (record (EvPost url reply) w)).

(** [print(line)]: the line is written, or the call raises. *)
Definition print (line : message) : prog unit := fun w =>
  match print_raises E (print_calls w) line with
  | None => (Return tt, next_print (record (EvPrint line) w))
  | Some e => (Raise e, next_print w)
  end.

(** The URL of a submission. *)
Definition solution_url (url_base addr challenge_id nonce : string) : string :=
  Py.rstrip_slash url_base +:+ "/solution/" +:+ addr +:+ "/"
  +:+ challenge_id +:+ "/" +:+ nonce.

(** [post_solution(base_url, address, challenge_id, nonce)]: the status
    code and the body of the response, or after a request-level error
    [None] and the message of the error, which the source wraps in a
    dict under the key [error]. *)
Definition post_solution (url_base addr challenge_id nonce : string)
  : prog (option Z * string) :=
  let url := solution_url url_base addr challenge_id nonce in
  let* r := http_post url in
  match r with
  | Response status_code body => ret (Some status_code, body)
  | RequestException error_msg =>
      do log_error addr challenge_id nonce error_msg then
      ret (None, error_msg)
  end.

(** A statement of a [try] block whose [except Exception] branch needs
    the local variables as they are when the statement raises: [handler]
    is that branch, already given those values, and [rest] is the block
    after the statement.  What the handler itself raises is not caught. *)
Definition in_try {A B : Type} (statement : prog A) (handler : exn -> prog B)
    (rest : A -> prog B) : prog B :=
  fun w =>
    match statement w with
    | (Return a, w') => rest a w'
    | (Raise e, w') => if is_Exception e then handler e w' else (Raise e, w')
    | (OutOfFuel, w') => (OutOfFuel, w')
    end.

(** The [except Exception as e] branch of the submission loop, entered
    with the values [sc] and [attempts] have at that point: one more
    attempt is counted, a line is printed and the worker sleeps a second.
    The result is [sc] and the new [attempts]. *)
Definition submit_except (sc : option Z) (attempts : nat) (e : exn)
  : prog (option Z * option nat) :=
  do print (MsgSubmitError (attempts + 1) e) then
  do sleep 1000 then
  ret (sc, Some (attempts + 1)%nat).

(** The [try] statement in the body of the submission loop, entered with
    the values [attempts] and [sc]: the new [sc], and either [None] for
    [break] or the new value of [attempts]. *)
Definition submit_attempt (challenge_id nonce : string) (attempts : nat) (sc : option Z)
  : prog (option Z * option nat) :=
  in_try (post_solution (base_url self) (address self) challenge_id nonce)
    (submit_except sc attempts) (fun '(sc', resp) =>
  in_try (print (MsgSubmitReturned sc' resp))
    (submit_except sc' attempts) (fun _ =>
  if bool_decide (sc' = Some 201)
  then
    in_try set_stop (submit_except sc' attempts) (fun _ =>
    ret (sc', None))
  else
    in_try (print (MsgSubmitRetry (attempts + 1)))
      (submit_except sc' (attempts + 1)) (fun _ =>
    in_try (sleep 1000) (submit_except sc' (attempts + 1)) (fun _ =>
    ret (sc', Some (attempts + 1)%nat))))).

(** The [while attempts < 3] loop of the submission; [sfuel] bounds the
    number of iterations the model may unfold.  The result is the final
    value of [sc]. *)
Fixpoint submit_while (sfuel : nat) (challenge_id nonce : string)
    (attempts : nat) (sc : option Z) : prog (option Z) :=
  if (attempts <? 3)%nat then
    match sfuel with
    | O => out_of_fuel
    | S sfuel' =>
        let* step := submit_attempt challenge_id nonce attempts sc in
        match step with
        | (sc', None) => ret sc'
        | (sc', Some attempts') => submit_while sfuel' challenge_id nonce attempts' sc'
        end
    end
  else ret sc.

(** The [if self.submit_on_find:] block. *)
Definition submit (sfuel : nat) (challenge_id nonce : string) : prog unit :=
  let* sc := submit_while sfuel challenge_id nonce 0 None in
  if bool_decide (sc ≠ Some 201)
  then (do print MsgFailedToSubmit then set_stop)
  else ret tt.

Inductive signal : Type := Next | Break.

(** Truth value of [latest_ts and time.time() > latest_ts]; the clock is
    read only when [latest_ts] is a non-zero number. *)
Definition expired (latest_ts : option Z) : prog bool :=
  match latest_ts with
  | None => ret false
  | Some ts => if ts =? 0 then ret false else (let* t := now in ret (ts <? t))
  end.

(** The branch of [if hash_meets_difficulty(hash_hex, difficulty):], up
    to its [break]. *)
Definition found (sfuel : nat) (challenge_id nonce hash_hex : string) : prog signal :=
  do print (MsgFound nonce hash_hex challenge_id) then
  do inc_solutions then
  do (if submit_on_find self then submit sfuel challenge_id nonce else ret tt) then
  do sleep 500 then
  ret Break.

(** The body of [for _ in range(NONCE_BATCH)]: [Break] for [break], [Next]
    for [continue] and for the end of the body.  [EvDifficulty] records
    the verdict of the difficulty test in the trace. *)
Definition attempt (sfuel : nat) (challenge : gmap string string)
    (difficulty challenge_id : string) (latest_ts : option Z) : prog signal :=
  let* stop := is_set in
  if stop then ret Break else
  let* late := expired latest_ts in
  if late then ret Break else
  let* nonce := hex64_nonce in
  let* payload := lift (pre_with_rom nonce (address self) challenge) in
  let* hash_hex := send_pre_and_recv_hash payload in
  match hash_hex with
  | None => do sleep 10 then ret Next
  | Some h =>
      do add_hashes 1 then
      let* met := lift (hash_meets_difficulty h difficulty) in
      do note (EvDifficulty h difficulty met) then
      if met then found sfuel challenge_id nonce h else ret Next
  end.

Fixpoint for_range (n : nat) (body : prog signal) : prog unit :=
  match n with
  | O => ret tt
  | S n' =>
      let* s := body in
      match s with
      | Break => ret tt
      | Next => for_range n' body
      end
  end.

Definition endswith_Z (s : string) : bool :=
  match String.rev s with
  | String c _ => Py.ord c =? 90
  | EmptyString => false
  end.

(** [s[:-1]]. *)
Fixpoint drop_last (s : string) : string :=
  match s with
  | EmptyString => EmptyString
  | String c EmptyString => EmptyString
  | String c r => String c (drop_last r)
  end.

(** The [try] block that turns [latest_submission] into an epoch time, or
    [None] when it does not parse. *)
Definition parse_latest (latest_submission : string) : option Z :=
  let ls := if endswith_Z latest_submission
            then drop_last latest_submission +:+ "+00:00"
            else latest_submission in
  fromisoformat_timestamp E ls.

(** One pass of the body of [while not stop_event.is_set()]. *)
Definition iteration (sfuel : nat) : prog unit :=
  let* c := get_challenge in
  match c with
  | None => sleep 500
  | Some challenge =>
      if bool_decide (challenge !! "latest_submission" = None) then sleep 500
      else
        let* difficulty := lift (getitem challenge "difficulty") in
        let* challenge_id := lift (getitem challenge "challenge_id") in
        let* latest_submission := lift (getitem challenge "latest_submission") in
        let latest_ts := parse_latest latest_submission in
        for_range NONCE_BATCH (attempt sfuel challenge difficulty challenge_id latest_ts)
  end.

(** The [while not stop_event.is_set()] loop of [Worker.run]: [fuel]
    bounds its passes. *)
Fixpoint run (fuel sfuel : nat) : prog unit :=
  let* stop := is_set in
  if stop then ret tt
  else
    match fuel with
    | O => out_of_fuel
    | S fuel' => do iteration sfuel then run fuel' sfuel
    end.

(** [Worker.run] from its first statement: the line of l.254, then the
    loop. *)
Definition run_from_start (fuel sfuel : nat) : prog unit :=
  do print MsgStarted then run fuel sfuel.

(** ** The challenge list, with a reader that can fail *)

(** [next(reader)] and the [for row in reader] loop of
    [read_challenges_from_csv] on a reader that yields [yielded r] and
    then stops or raises. *)
Definition read_reader (r : reading) : outcome (list (gmap string string)) :=
  match yielded r with
  | [] => Raise (default StopIteration (failure r))
  | header :: rows =>
      match failure r with
      | None => Return (read_rows rows [])
      | Some e => Raise e
      end
  end.

(** [read_challenges_from_csv(csv_file)], [file] being what [open] and the
    reader give ([None] when the file cannot be opened). *)
Definition read_challenges_from_reader (file : option reading)
  : prog (list (gmap string string)) :=
  try_prog
    (let* challenges :=
       lift (match file with
             | None => Raise OSError
             | Some r => read_reader r
             end) in
     do print (MsgLoaded (length challenges)) then
     ret challenges)
    (fun e =>
       do print (MsgReadError e) then
       lift (Raise (SystemExit 1))).

End Worker.

(* ===================================================================== *)
(** * The connection of a worker to the daemon *)
(* ===================================================================== *)

(** [Worker._ensure_socket] and [Worker._send_pre_and_recv_hash] at the
    level of the socket.  Bytes are a [string], one character per byte.
    What the operating system and the daemon do is a [network]: call
    number [k] of [socket.create_connection] raises ([None]) or makes a
    connection, given as what the successive calls of [recv(4096)] on
    that socket return, in order, the next [recv] timing out once the
    list is used up; and call number [k] of [sendall] goes through or
    raises.  A socket the worker keeps carries what is still to be
    received on it, so that a later call reads on from where the earlier
    one stopped.  [str.encode] and [bytes.decode] for UTF-8 are
    parameters, [None] standing for the exception. *)
Module Client.

Definition LF : ascii := "010"%char.

Inductive recv_result : Type :=
| Chunk (data : string)
| RecvError.

Record network : Type := {
  connect : nat -> option (list recv_result);
  sendall_ok : nat -> bool
}.

Inductive step : Type :=
| Connect (ok : bool)
| Sleep100
| Sent (data : string)
| Received
| Closed.

(** [self.sock] (the socket, as what its [recv] has yet to return), the
    number of connection attempts and of [sendall] calls so far, and the
    steps taken. *)
Record client : Type := {
  sock : option (list recv_result);
  connects : nat;
  sends : nat;
  steps : list step
}.

Definition log (e : step) (st : client) : client :=
  {| sock := sock st; connects := connects st; sends := sends st;
     steps := steps st ++ [e] |}.

Definition set_sock (s : option (list recv_result)) (st : client) : client :=
  {| sock := s; connects := connects st; sends := sends st; steps := steps st |}.

Definition next_connect (st : client) : client :=
  {| sock := sock st; connects := S (connects st); sends := sends st;
     steps := steps st |}.

Definition next_send (st : client) : client :=
  {| sock := sock st; connects := connects st; sends := S (sends st);
     steps := steps st |}.

(** [b.find(b"\n") != -1]. *)
Fixpoint has_lf (b : string) : bool :=
  match b with
  | EmptyString => false
  | String c r => Ascii.eqb c LF || has_lf r
  end.

(** [buf.split(b"\n", 1)[0]]. *)
Fixpoint before_lf (buf : string) : string :=
  match buf with
  | EmptyString => EmptyString
  | String c r => if Ascii.eqb c LF then EmptyString else String c (before_lf r)
  end.

Section Network.

Variable net : network.

(** [self._ensure_socket()]. *)
Definition ensure_socket (st : client) : bool * client :=
  match sock st with
  | Some _ => (true, st)
  | None =>
      let reply := connect net (connects st) in
      let st' := log (Connect (bool_decide (reply <> None))) (next_connect st) in
      match reply with
      | Some incoming => (true, set_sock (Some incoming) st')
      | None => (false, set_sock None st')
      end
  end.

(** The [while True] loop around [recv] on a socket that has [incoming]
    to give: the buffer once a chunk with a newline has come, the socket
    then keeping what was not read; or [None] when an exception ends the
    loop (a failed or timed out [recv], or the empty chunk of a closed
    connection). *)
Fixpoint recv_loop (incoming : list recv_result) (buf : string) (st : client)
  : option string * client :=
  match incoming with
  | [] => (None, st)
  | RecvError :: _ => (None, st)
  | Chunk b :: rest =>
      let st' := log Received st in
      match b with
      | EmptyString => (None, st')
      | _ =>
          let buf' := buf +:+ b in
          if has_lf b then (Some buf', set_sock (Some rest) st')
          else recv_loop rest buf' st'
      end
  end.

Variable encode_utf8 : string -> option string.
Variable decode_utf8 : string -> option string.

(** The [try] block of [_send_pre_and_recv_hash]: [None] for an
    exception. *)
Definition exchange (preimage : string) (st : client) : option string * client :=
  match encode_utf8 (preimage +:+ String LF EmptyString) with
  | None => (None, st)
  | Some data =>
      match sock st with
      | None => (None, st)
      | Some incoming =>
          if sendall_ok net (sends st) then
            match recv_loop incoming EmptyString (log (Sent data) (next_send st)) with
            | (Some buf, st') =>
                match decode_utf8 (before_lf buf) with
                | Some text => (Some (Py.strip text), st')
                | None => (None, st')
                end
            | (None, st') => (None, st')
            end
          else (None, next_send st)
      end
  end.

(** [self._send_pre_and_recv_hash(preimage)]. *)
Definition send_pre_and_recv_hash (preimage : string) (st : client)
  : option string * client :=
  match ensure_socket st with
  | (false, st1) => (None, log Sleep100 st1)
  | (true, st1) =>
      match exchange preimage st1 with
      | (Some line, st2) => (Some line, st2)
      | (None, st2) => (None, set_sock None (log Closed st2))
      end
  end.

(** Successive calls, one for each preimage of the list. *)
Fixpoint calls (preimages : list string) (st : client)
  : list (option string) * client :=
  match preimages with
  | [] => ([], st)
  | preimage :: rest =>
      let '(r, st1) := send_pre_and_recv_hash preimage st in
      let '(rs, st2) := calls rest st1 in
      (r :: rs, st2)
  end.

End Network.

End Client.

(* ===================================================================== *)
(** * Writing the error log *)
(* ===================================================================== *)



(* ===================================================================== *)
(** * Vocabulary for the statements about the difficulty test *)
(* ===================================================================== *)

Module HexSpec.

(** The plain reading of hexadecimal text: a
    string of the digits 0-9, a-f, A-F, most significant digit first. *)
Definition hex_char_value (c : ascii) : option Z :=
  match index 0 (String c EmptyString) "0123456789abcdef" with
  | Some i => Some (Z.of_nat i)
  | None =>
      match index 0 (String c EmptyString) "0123456789ABCDEF" with
      | Some i => Some (Z.of_nat i)
      | None => None
      end
  end.

Fixpoint hex_value_from (acc : Z) (s : string) : option Z :=
  match s with
  | EmptyString => Some acc
  | String c r =>
      match hex_char_value c with
      | Some d => hex_value_from (16 * acc + d) r
      | None => None
      end
  end.

(** The unsigned integer a non-empty string of hex digits encodes; [None]
    for the empty string and for a string with any other character. *)
Definition hex_value (s : string) : option Z :=
  match s with
  | EmptyString => None
  | _ => hex_value_from 0 s
  end.

(** The complement of the low 32 bits of [m], as an unsigned 32-bit
    number. *)
Definition complement32 (m : Z) : Z := 0xFFFFFFFF - m mod 2 ^ 32.

(** Bit [i] of [mask] is a zero bit that [left4] must respect. *)
Definition respects_zero_bits (left4 mask : Z) : Prop :=
  forall i, 0 <= i < 32 -> Z.testbit mask i = false -> Z.testbit left4 i = false.

End HexSpec.

Import HexSpec.

(** A row is kept when it has at least five columns and its first three
    cells are non-empty once stripped. *)
Definition row_kept (row : list string) : bool :=
  (5 <=? length row)%nat && required_fields (challenge_of_row row).


(* ===================================================================== *)
(** * Vocabulary for the statements about the worker *)
(* ===================================================================== *)

(** The status code of a reply, [None] for a request-level error. *)
Definition status_of (r : http_reply) : option Z :=
  match r with
  | Response status_code _ => Some status_code
  | RequestException _ => None
  end.

Definition is_request_error (r : http_reply) : bool :=
  match r with
  | Response _ _ => false
  | RequestException _ => true
  end.

(** The entry [post_solution] logs for a request-level error when the log
    holds [logged] entries. *)
Definition entry_for (E : env) (self : worker) (challenge_id nonce : string)
    (logged : nat) (message : string) : error_entry :=
  {| err_timestamp := now_iso E logged;
     err_address := address self;
     err_challenge_id := challenge_id;
     err_nonce := nonce;
     err_error := message |}.

(** The text [post_solution] returns with the status: the body of the
    response, or the message of the exception. *)
Definition reply_text (r : http_reply) : string :=
  match r with
  | Response _ body => body
  | RequestException message => message
  end.

(** The console takes every line. *)
Definition console_ok (E : env) : Prop :=
  forall k line, print_raises E k line = None.

(** The world after a line has reached the console. *)
Definition printed (line : message) (w : world) : world :=
  next_print (record (EvPrint line) w).

(** The world after the POST of one submission attempt. *)
Definition posted (url : string) (r : http_reply) (w : world) : world :=
  next_post (record (EvPost url r) w).

(** The world after the POST with reply [r] and what [post_solution] does
    with it: a request-level error is logged. *)
Definition answered (E : env) (self : worker) (challenge_id nonce : string)
    (r : http_reply) (w : world) : world :=
  let url := solution_url (base_url self) (address self) challenge_id nonce in
  match r with
  | Response _ _ => posted url r w
  | RequestException message =>
      with_error (entry_for E self challenge_id nonce (length (errors w)) message)
        (posted url r w)
  end.

(** The world after one failed submission attempt with reply [r], the
    attempt number [attempts + 1], when its two lines reach the console. *)
Definition after_failed_attempt (E : env) (self : worker) (challenge_id nonce : string)
    (attempts : nat) (r : http_reply) (w : world) : world :=
  record (EvSleep 1000)
    (printed (MsgSubmitRetry (attempts + 1))
       (printed (MsgSubmitReturned (status_of r) (reply_text r))
          (answered E self challenge_id nonce r w))).

(** The steps of a failed attempt, the one that puts [attempts] to [k],
    when its two lines reach the console. *)
Definition failed_steps (url : string) (r : http_reply) (k : nat) : list event :=
  [EvPost url r; EvPrint (MsgSubmitReturned (status_of r) (reply_text r));
   EvPrint (MsgSubmitRetry k); EvSleep 1000].

(** The steps of an attempt answered with status 201 whose line reaches
    the console. *)
Definition created_steps (url body : string) : list event :=
  [EvPost url (Response 201 body); EvPrint (MsgSubmitReturned (Some 201) body);
   EvSetStop].

(** The steps of an attempt whose first line the console refuses with
    [e]: the [except] branch puts [attempts] to [k] and prints its own
    line. *)
Definition refused_steps (url : string) (r : http_reply) (e : exn) (k : nat)
  : list event :=
  [EvPost url r; EvPrint (MsgSubmitError k e); EvSleep 1000].

(** How many of the replies to the POSTs number [p], ..., [p + n - 1] are
    request-level errors. *)
Definition request_errors (E : env) (url : string) (p n : nat) : nat :=
  length (List.filter is_request_error (map (fun k => requests_post E k url) (seq p n))).

(** No deadline stops the attempts: the deadline did not parse, or it is
    the epoch itself, or no reading of the clock is past it. *)
Definition deadline_open (E : env) (latest_ts : option Z) : Prop :=
  match latest_ts with
  | None => True
  | Some ts => ts = 0 \/ forall k, time_time E k <= ts
  end.

(** The challenge has the four fields the worker indexes. *)
Definition has_fields (challenge : gmap string string)
    (challenge_id difficulty no_pre_mine latest_submission : string) : Prop :=
  challenge !! "challenge_id" = Some challenge_id /\
  challenge !! "difficulty" = Some difficulty /\
  challenge !! "no_pre_mine" = Some no_pre_mine /\
  challenge !! "latest_submission" = Some latest_submission.

(** The nonce drawn by the call number [k] of [hex64_nonce]. *)
Definition nonce_at (E : env) (k : nat) : string :=
  Py.format_016x (getrandbits64 E k mod 2 ^ 64)%N.

(** The line sent to the daemon for the nonce number [k]. *)
Definition payload_at (E : env) (self : worker) (challenge : gmap string string)
    (k : nat) : string :=
  default EmptyString (challenge !! "no_pre_mine") +:+ "|" +:+ nonce_at E k +:+ address self
  +:+ default EmptyString (challenge !! "challenge_id")
  +:+ default EmptyString (challenge !! "difficulty")
  +:+ default EmptyString (challenge !! "no_pre_mine")
  +:+ default EmptyString (challenge !! "latest_submission")
  +:+ default EmptyString (challenge !! "no_pre_mine_hour").

(** A computation never lowers the count of exchanges with the daemon. *)
Definition oracle_mono {A : Type} (c : prog A) : Prop :=
  forall w, (oracle_calls w <= oracle_calls (snd (c w)))%nat.

(** The state of a freshly started process. *)
Definition initial_world : world :=
  {| stop_event := false; hashes := 0; solutions := 0; errors := []; trace := [];
     getter_calls := 0; random_calls := 0; clock_calls := 0; oracle_calls := 0;
     post_calls := 0; print_calls := 0 |}.

(** Every character of the string passes the test. *)
Fixpoint all_chars (p : ascii -> bool) (s : string) : bool :=
  match s with
  | EmptyString => true
  | String c r => p c && all_chars p r
  end.

(* ===================================================================== *)
(** * Example environments *)
(* ===================================================================== *)

Module Example.

Definition me : worker :=
  {| base_url := "https://scavenger.example/"; address := "addr1"; submit_on_find := true |}.

Definition row : list string :=
  ["c1"; "0000ffff"; "rom"; "7"; "2099-12-31T23:59:59.000Z"].

(** The clock reads 2025-11-01T00:00:00Z at every reading. *)
Definition clock (k : nat) : Z := 1761955200000000.

(** What [datetime.fromisoformat(s).timestamp()] gives, in microseconds,
    on the deadlines of the example rows (2099-12-31T23:59:59,
    2020-01-01 and the epoch, all UTC); the example runs ask for no other
    string, and any other is answered as one that does not parse. *)
Definition deadlines (s : string) : option Z :=
  if String.eqb s "2099-12-31T23:59:59.000+00:00" then Some 4102444799000000
  else if String.eqb s "2020-01-01T00:00:00+00:00" then Some 1577836800000000
  else if String.eqb s "1970-01-01T00:00:00+00:00" then Some 0
  else None.

(** A console that takes every line. *)
Definition quiet_console (k : nat) (line : message) : option exn := None.

(** The encoding cp1252 has the character: of the code points below 256
    it lacks 128 to 159. *)
Definition in_cp1252 (c : ascii) : bool :=
  negb ((128 <=? Py.ord c) && (Py.ord c <=? 159)).

(** A console whose encoding is cp1252, as that of redirected output on
    Windows: [print] raises [UnicodeEncodeError], a [ValueError], on a
    line with a character the encoding lacks.  The cross mark in the line
    of l.330 is such a character and the dash in the line of l.325 is
    not; for the lines of l.304 and l.313 the strings formatted into
    them decide (a body that is not JSON is printed as it is); numbers
    and the text of these exceptions are ASCII. *)
Definition cp1252_console (k : nat) (line : message) : option exn :=
  match line with
  | MsgFailedToSubmit => Some ValueError
  | MsgSubmitReturned _ resp =>
      if all_chars in_cp1252 resp then None else Some ValueError
  | MsgFound nonce hash_hex challenge_id =>
      if all_chars in_cp1252 (nonce +:+ hash_hex +:+ challenge_id)
      then None else Some ValueError
  | _ => None
  end.

(** An environment publishing the challenge of [cells], with a daemon
    that fails [misses] times and then returns a digest meeting the
    difficulty, a scripted submission endpoint and a scripted console. *)
Definition scripted_on (console : nat -> message -> option exn)
    (cells : list string) (misses : nat) (replies : nat -> http_reply) : env :=
  {| challenge_getter := fun _ => Some (challenge_of_row cells);
     getrandbits64 := fun k => (1000003 * N.of_nat k + 12345)%N;
     time_time := clock;
     send_recv := fun k _ => if (k <? misses)%nat then None else Some "00001234abcd";
     requests_post := fun k _ => replies k;
     fromisoformat_timestamp := deadlines;
     now_iso := fun k => "2025-11-01T00:00:00+00:00";
     print_raises := console |}.

(** The same with a console that takes every line. *)
Definition scripted (cells : list string) (misses : nat) (replies : nat -> http_reply)
  : env :=
  scripted_on quiet_console cells misses replies.

Definition twice_503_then_201 (k : nat) : http_reply :=
  if (k <? 2)%nat then Response 503 "busy" else Response 201 "created".

Definition always_500 (k : nat) : http_reply := Response 500 "error".

(** A body that is not JSON and has a character outside cp1252 (here
    the code point 133; with characters above 255, which the model
    leaves out, a check mark or an emoji would do the same). *)
Definition unprintable_body : string := "accepted" +:+ String "133"%char EmptyString.

Definition always_201 (k : nat) : http_reply := Response 201 unprintable_body.

Definition timeout_then_400 (k : nat) : http_reply :=
  if (k <? 1)%nat then RequestException "timed out" else Response 400 "bad request".

Definition epoch_row : list string :=
  ["c1"; "0000ffff"; "rom"; "7"; "1970-01-01T00:00:00Z"].

Definition past_row : list string :=
  ["c1"; "0000ffff"; "rom"; "7"; "2020-01-01T00:00:00Z"].

End Example.

(* ===================================================================== *)
(** * Vocabulary for the further properties *)
(* ===================================================================== *)

(** One of the sixteen characters 0-9, a-f. *)
Definition is_lower_hex (c : ascii) : bool :=
  match index 0 (String c EmptyString) "0123456789abcdef" with
  | Some _ => true
  | None => false
  end.

(** The string has no white space at either end. *)
Definition trimmed (s : string) : Prop := Py.strip s = s.



(** [k] slashes. *)
Fixpoint slashes (k : nat) : string :=
  match k with
  | O => EmptyString
  | S k' => String "/"%char (slashes k')
  end.

(** The last character of a string. *)
Fixpoint last_char (s : string) : option ascii :=
  match s with
  | EmptyString => None
  | String c EmptyString => Some c
  | String _ r => last_char r
  end.

(** How [read_challenges_from_csv] ends once its [except] branch is
    entered with the exception [e], the console being at its call number
    [k]: with exit status 1 when the line of that branch is written, with
    the exception of [print] when it is not; an exception that is no
    [Exception] is not caught at all. *)
Definition exits_after (E : env) (e : exn) (k : nat)
    (out : outcome (list (gmap string string))) : Prop :=
  if is_Exception e then
    match print_raises E k (MsgReadError e) with
    | None => out = Raise (SystemExit 1)
    | Some e' => out = Raise e'
    end
  else out = Raise e.

(** The five keys of a challenge read from the CSV file. *)
Definition challenge_keys : gset string :=
  {[ "challenge_id"; "difficulty"; "no_pre_mine"; "no_pre_mine_hour";
     "latest_submission" ]}.

(** Whatever state a computation starts in, the state it ends in is
    related to it by [R]. *)
Definition within (R : world -> world -> Prop) {A : Type} (c : prog A) : Prop :=
  forall w, R w (snd (c w)).

(** The later state only adds to the earlier one: a stop event that was
    set is still set, no counter has gone down, and the error log and the
    trace have only been appended to. *)
Definition grows (w w' : world) : Prop :=
  (stop_event w = true -> stop_event w' = true) /\
  (hashes w <= hashes w')%nat /\ (solutions w <= solutions w')%nat /\
  (getter_calls w <= getter_calls w')%nat /\ (random_calls w <= random_calls w')%nat /\
  (clock_calls w <= clock_calls w')%nat /\ (oracle_calls w <= oracle_calls w')%nat /\
  (post_calls w <= post_calls w')%nat /\
  (exists more, errors w' = errors w ++ more) /\
  (exists more, trace w' = trace w ++ more).

(** Between the two states no more log entries were added than POSTs
    made, no more POSTs than three per solution, no more solutions than
    hashes counted, no more hashes than exchanges with the daemon. *)
Definition accounted (w w' : world) : Prop :=
  (length (errors w') + post_calls w <= length (errors w) + post_calls w')%nat /\
  (post_calls w' + 3 * solutions w <= post_calls w + 3 * solutions w')%nat /\
  (solutions w' + hashes w <= solutions w + hashes w')%nat /\
  (hashes w' + oracle_calls w <= hashes w + oracle_calls w')%nat.

(** Between the two states the counters of hashes, solutions, published
    challenges read, nonces drawn, clock readings and exchanges stand
    still: what the submission of a nonce leaves alone. *)
Definition submission_only (w w' : world) : Prop :=
  hashes w' = hashes w /\ solutions w' = solutions w /\
  getter_calls w' = getter_calls w /\ random_calls w' = random_calls w /\
  clock_calls w' = clock_calls w /\ oracle_calls w' = oracle_calls w.

(** Between the two states nothing was posted, the stop event was left
    alone and nothing was logged. *)
Definition no_submission (w w' : world) : Prop :=
  post_calls w' = post_calls w /\ stop_event w' = stop_event w /\ errors w' = errors w.

(** A step the submission block can take for the given URL. *)
Definition submission_step (url : string) (e : event) : Prop :=
  match e with
  | EvPost u _ => u = url
  | EvSleep ms => ms = 1000
  | EvSetStop => True
  | EvPrint _ => True
  | _ => False
  end.

(** A step the branch of a found nonce can take after the difficulty
    test: a step of the submission for the given URL, or the sleep of
    half a second that ends it. *)
Definition found_step (url : string) (e : event) : Prop :=
  submission_step url e \/ e = EvSleep 500.

(** The connection attempts a sequence of calls makes: one for each call
    that starts without a socket, that is the first one when
    [without_socket] holds and every one that follows a call which
    returned [None]. *)
Fixpoint reconnects (without_socket : bool) (results : list (option string)) : nat :=
  match results with
  | [] => 0
  | r :: rest =>
      (if without_socket then 1 else 0)
      + reconnects (match r with None => true | Some _ => false end) rest
  end.

(** What the socket a call works on has to give: that of the socket the
    worker holds, or of the connection the call is about to make
    ([None] when that attempt fails). *)
Definition stream_of (net : Client.network) (st : Client.client)
  : option (list Client.recv_result) :=
  match Client.sock st with
  | Some incoming => Some incoming
  | None => Client.connect net (Client.connects st)
  end.

Definition no_socket (st : Client.client) : bool :=
  match Client.sock st with
  | None => true
  | Some _ => false
  end.

(* ===================================================================== *)
(** * The difficulty test *)
(* ===================================================================== *)

Lemma hex_char_facts (c : ascii) (d : Z) :
  hex_char_value c = Some d ->
  Py.digit_value c = d /\ 0 <= d < 16 /\ Py.ord c < 128 /\
  Py.c_isspace c = false /\ Py.is_underscore c = false /\ Py.is_x c = false /\
  (Py.ord c =? 43) = false /\ (Py.ord c =? 45) = false.
Proof.
  destruct c as [[] [] [] [] [] [] [] []]; vm_compute; intros H;
    first [ discriminate H
          | injection H as <-; repeat split; first [ reflexivity | discriminate ] ].
Qed.

Lemma hex_value_from_bounds s : forall acc v,
  0 <= acc -> hex_value_from acc s = Some v ->
  16 ^ Z.of_nat (String.length s) * acc <= v
    < 16 ^ Z.of_nat (String.length s) * (acc + 1).
Proof.
  induction s as [|c r IH]; intros acc v Hacc H; simpl in H.
  - injection H as <-. simpl. lia.
  - destruct (hex_char_value c) as [d|] eqn:Hc; [|discriminate].
    apply hex_char_facts in Hc as (_ & Hd & _).
    apply IH in H; [|lia].
    change (String.length (String c r)) with (S (String.length r)).
    rewrite Nat2Z.inj_succ, Z.pow_succ_r by lia.
    set (p := 16 ^ Z.of_nat (String.length r)) in *.
    assert (Hp : 0 < p) by (apply Z.pow_pos_nonneg; lia).
    assert (0 <= p * d) by (apply Z.mul_nonneg_nonneg; lia).
    assert (p * (d + 1) <= p * 16) by (apply Z.mul_le_mono_nonneg_l; lia).
    lia.
Qed.

Lemma is_ascii_hex s : forall acc v, hex_value_from acc s = Some v -> Py.is_ascii s = true.
Proof.
  induction s as [|c r IH]; intros acc v H; simpl in *; [reflexivity|].
  destruct (hex_char_value c) as [d|] eqn:Hc; [|discriminate].
  apply hex_char_facts in Hc as (_ & _ & Hlt & _).
  rewrite (IH _ _ H), andb_true_r. now apply Z.ltb_lt.
Qed.

Lemma long_from_binary_base_hex s : forall acc v,
  hex_value_from acc s = Some v ->
  Py.long_from_binary_base 16 false acc s = Some (v, EmptyString).
Proof.
  induction s as [|c r IH]; intros acc v H; cbn [hex_value_from] in H.
  - simpl. congruence.
  - destruct (hex_char_value c) as [d|] eqn:Hc; [|discriminate].
    apply hex_char_facts in Hc as (Hdv & Hd & _).
    cbn [Py.long_from_binary_base]. rewrite Hdv.
    replace (d <? 16) with true by (symmetry; apply Z.ltb_lt; lia).
    now apply IH.
Qed.

(** On a non-empty string of hex digits, [int(s, 16)] is the number the
    digits encode. *)
Lemma int16_hex s v : hex_value s = Some v -> Py.int16 s = Return v.
Proof.
  destruct s as [|c r]; [discriminate|]. unfold hex_value. intros H.
  unfold Py.int16. rewrite (is_ascii_hex _ _ _ H).
  pose proof (long_from_binary_base_hex _ _ _ H) as Hscan.
  simpl in H. destruct (hex_char_value c) as [d|] eqn:Hc; [|discriminate].
  pose proof (hex_char_facts _ _ Hc) as (Hd & _ & _ & Hsp & Hus & _ & Hplus & Hminus).
  unfold Py.long_from_string16. cbn [Py.skip_space]. rewrite Hsp, Hplus, Hminus.
  assert (Hpre : match r with
                 | String c1 r0 =>
                     if (Py.ord c =? 48) && Py.is_x c1
                     then match r0 with
                          | String c2 r' => if Py.is_underscore c2 then r' else r0
                          | EmptyString => r0
                          end
                     else String c r
                 | EmptyString => String c r
                 end = String c r).
  { destruct r as [|c1 r0]; [reflexivity|].
    simpl in H. destruct (hex_char_value c1) as [d1|] eqn:Hc1; [|discriminate].
    apply hex_char_facts in Hc1 as (_ & _ & _ & _ & _ & Hx & _).
    now rewrite Hx, andb_false_r. }
  rewrite Hpre, Hus, Hscan. cbn. f_equal. destruct v; reflexivity.
Qed.

Lemma length_slice_to n : forall s,
  (n <= String.length s)%nat -> String.length (Py.slice_to n s) = n.
Proof.
  unfold Py.slice_to.
  induction n as [|n IH]; intros [|c r] H; simpl in *; try lia; try reflexivity.
  rewrite IH; lia.
Qed.

Lemma land_lnot_ones32 m : Z.land (Z.lnot m) 0xFFFFFFFF = complement32 m.
Proof.
  change 0xFFFFFFFF with (Z.ones 32). rewrite Z.land_ones by lia.
  unfold complement32, Z.lnot.
  symmetry. apply Z.mod_unique_pos with (q := - (m / 2 ^ 32) - 1).
  - pose proof (Z.mod_pos_bound m (2 ^ 32)). lia.
  - pose proof (Z.div_mod m (2 ^ 32)). lia.
Qed.

(** The closed form of the evaluator once both numbers are read. *)
Lemma hash_meets_difficulty_parsed hash_hex difficulty_hex left4 mask :
  (8 <= String.length hash_hex)%nat ->
  Py.int16 (Py.slice_to 8 hash_hex) = Return left4 ->
  Py.int16 difficulty_hex = Return mask ->
  hash_meets_difficulty hash_hex difficulty_hex
  = Return (Z.land left4 (complement32 mask) =? 0).
Proof.
  intros Hlen Hl Hm. unfold hash_meets_difficulty.
  replace (String.length hash_hex <? 8)%nat with false
    by (symmetry; apply Nat.ltb_ge; lia).
  destruct hash_hex as [|c r]; [simpl in Hlen; lia|].
  cbn [Py.truthy negb orb]. rewrite Hl, Hm. cbn. now rewrite land_lnot_ones32.
Qed.

(** The mask test says: every zero bit of the mask, among the low 32 bits,
    is a zero bit of [left4]. *)
Lemma land_complement32_bits left4 mask :
  0 <= left4 < 2 ^ 32 ->
  Z.land left4 (complement32 mask) = 0 <-> respects_zero_bits left4 mask.
Proof.
  intros Hrange. rewrite <- land_lnot_ones32. unfold respects_zero_bits. split.
  - intros H i Hi Hbit.
    apply (f_equal (fun z => Z.testbit z i)) in H.
    rewrite Z.land_spec, Z.land_spec, Z.lnot_spec, Z.bits_0 in H by lia.
    change 0xFFFFFFFF with (Z.ones 32) in H.
    rewrite Z.ones_spec_low, Hbit in H by lia. simpl in H.
    now rewrite andb_true_r in H.
  - intros H. apply Z.bits_inj'. intros i Hi.
    rewrite Z.land_spec, Z.land_spec, Z.lnot_spec, Z.bits_0 by lia.
    change 0xFFFFFFFF with (Z.ones 32).
    destruct (Z.lt_ge_cases i 32) as [Hlt|Hge].
    + rewrite Z.ones_spec_low by lia.
      destruct (Z.testbit mask i) eqn:Hbit; simpl; [apply andb_false_r|].
      rewrite H; auto with zarith.
    + rewrite Z.ones_spec_high by lia. now rewrite !andb_false_r.
Qed.

(** C1. For a hash whose first 8 characters are hex digits and a
    difficulty string that [int(., 16)] reads as [mask], the evaluator
    returns true exactly when the unsigned 32-bit number [left4] encoded by
    those 8 characters, ANDed with the 32-bit complement of [mask], is 0.
    With mask 0xFFFFFFFF every such hash meets the difficulty; with mask 0
    it does iff the 8 characters encode 0. *)
Theorem hash_meets_difficulty_mask_test hash_hex difficulty_hex left4 mask :
  (8 <= String.length hash_hex)%nat ->
  hex_value (Py.slice_to 8 hash_hex) = Some left4 ->
  Py.int16 difficulty_hex = Return mask ->
  0 <= left4 < 2 ^ 32 /\
  hash_meets_difficulty hash_hex difficulty_hex
    = Return (Z.land left4 (complement32 mask) =? 0) /\
  (mask = 0xFFFFFFFF ->
   hash_meets_difficulty hash_hex difficulty_hex = Return true) /\
  (mask = 0 ->
   hash_meets_difficulty hash_hex difficulty_hex = Return (left4 =? 0)).
Proof.
  intros Hlen Hhex Hmask.
  assert (Hrange : 0 <= left4 < 2 ^ 32).
  { pose proof (length_slice_to 8 hash_hex Hlen) as Hl8.
    unfold hex_value in Hhex.
    destruct (Py.slice_to 8 hash_hex) as [|c r] eqn:Hs; [discriminate|].
    apply hex_value_from_bounds in Hhex; [|lia].
    rewrite Hl8 in Hhex. change (16 ^ Z.of_nat 8) with (2 ^ 32) in Hhex. lia. }
  pose proof (hash_meets_difficulty_parsed _ _ _ _ Hlen (int16_hex _ _ Hhex) Hmask)
    as Heval.
  split; [exact Hrange|]. split; [exact Heval|]. split.
  - intros ->. rewrite Heval. reflexivity || (f_equal; now rewrite Z.land_0_r).
  - intros ->. rewrite Heval. f_equal.
    unfold complement32. change (0xFFFFFFFF - 0 mod 2 ^ 32) with (Z.ones 32).
    rewrite Z.land_ones by lia. now rewrite Z.mod_small.
Qed.

Lemma hash_meets_difficulty_mask_test_witness :
  (8 <= String.length "0000123456")%nat /\
  hex_value (Py.slice_to 8 "0000123456") = Some 0x1234 /\
  Py.int16 "ffff0000" = Return 0xFFFF0000 /\
  hash_meets_difficulty "0000123456" "ffff0000"
    = Return (Z.land 0x1234 (complement32 0xFFFF0000) =? 0).
Proof.
  assert (Hlen : (8 <= String.length "0000123456")%nat) by (simpl; lia).
  assert (Hhex : hex_value (Py.slice_to 8 "0000123456") = Some 0x1234) by reflexivity.
  assert (Hmask : Py.int16 "ffff0000" = Return 0xFFFF0000) by reflexivity.
  refine (conj Hlen (conj Hhex (conj Hmask _))).
  exact (proj1 (proj2
    (hash_meets_difficulty_mask_test "0000123456" "ffff0000" 0x1234 0xFFFF0000
       Hlen Hhex Hmask))).
Defined.

(** ** Text that is not hex digits *)

(** [int(s, 16)] returns a number or raises [ValueError]. *)
Lemma int16_cases s : (exists z, Py.int16 s = Return z) \/ Py.int16 s = Raise ValueError.
Proof. unfold Py.int16. destruct (Py.long_from_string16 _); eauto. Qed.

(** The evaluator always returns a boolean. *)
Lemma hash_meets_difficulty_total hash_hex difficulty_hex :
  exists b, hash_meets_difficulty hash_hex difficulty_hex = Return b.
Proof.
  unfold hash_meets_difficulty, Py.int16.
  destruct (negb _ || _); [eauto|].
  destruct (Py.long_from_string16 _); cbn; [|eauto].
  destruct (Py.long_from_string16 _); cbn; eauto.
Qed.

(** What the evaluator does with text that is no hex digits, at four
    inputs: a hash with a sign, a hash with the prefix [0x], which stands
    in for its first byte, a difficulty with a sign and one with
    underscores and white space. *)
Example hash_meets_difficulty_accepts_non_hex :
  hex_value (Py.slice_to 8 "-0000000") = None /\
  hash_meets_difficulty "-0000000" "00000000" = Return true /\
  hex_value (Py.slice_to 8 "0xffffff99") = None /\
  hash_meets_difficulty "0xffffff99" "00ffffff" = Return true /\
  hex_value "-1" = None /\
  hash_meets_difficulty "ffffffff" "-1" = Return true /\
  hex_value " ffff_ffff " = None /\
  hash_meets_difficulty "ffffffff" " ffff_ffff " = Return true.
Proof. repeat split; reflexivity. Qed.

(** C8, where the code misses it. The evaluator never raises, and it
    answers false when the hash has fewer than 8 characters or when
    [int(., 16)] raises on the first 8 characters of the hash or on the
    difficulty.  But whatever text [int(., 16)] does read there, hex
    digits or not, is taken as a number and the verdict is computed from
    it: the difficulty ["-1"], which is no hex string and no unsigned
    32-bit mask, is met by every hash that is read, and a hash whose
    first 8 characters are read as 0 (as ["-0000000"] is) meets every
    difficulty that is read. *)
Theorem hash_meets_difficulty_reads_non_hex hash_hex difficulty_hex left4 mask :
  (8 <= String.length hash_hex)%nat ->
  Py.int16 (Py.slice_to 8 hash_hex) = Return left4 ->
  Py.int16 difficulty_hex = Return mask ->
  hash_meets_difficulty hash_hex difficulty_hex
    = Return (Z.land left4 (complement32 mask) =? 0) /\
  hash_meets_difficulty hash_hex "-1" = Return true /\
  (left4 = 0 -> hash_meets_difficulty hash_hex difficulty_hex = Return true) /\
  (forall h d,
     (exists b, hash_meets_difficulty h d = Return b) /\
     ((String.length h < 8)%nat \/ Py.int16 (Py.slice_to 8 h) = Raise ValueError
      \/ Py.int16 d = Raise ValueError ->
      hash_meets_difficulty h d = Return false)).
Proof.
  intros Hlen Hhash Hmask.
  split; [now apply hash_meets_difficulty_parsed|]. split; [|split].
  - rewrite (hash_meets_difficulty_parsed hash_hex "-1" left4 (-1) Hlen Hhash eq_refl).
    f_equal. unfold complement32. change (0xFFFFFFFF - -1 mod 2 ^ 32) with 0.
    now rewrite Z.land_0_r.
  - intros ->. rewrite (hash_meets_difficulty_parsed _ _ _ _ Hlen Hhash Hmask).
    reflexivity.
  - intros h d. split; [apply hash_meets_difficulty_total|].
    intros H. unfold hash_meets_difficulty.
    destruct (negb (Py.truthy h) || (String.length h <? 8)%nat) eqn:Hguard;
      [reflexivity|].
    apply orb_false_elim in Hguard as [_ Hl]. apply Nat.ltb_ge in Hl.
    destruct H as [Hshort | [Hh | Hd]].
    + lia.
    + now rewrite Hh.
    + rewrite Hd.
      destruct (int16_cases (Py.slice_to 8 h)) as [[z ->] | ->]; reflexivity.
Qed.

Lemma hash_meets_difficulty_reads_non_hex_witness :
  hex_value "-1" = None /\
  hex_value (Py.slice_to 8 "ffffffff00") = Some 0xFFFFFFFF /\
  Py.int16 "-1" = Return (-1) /\
  hash_meets_difficulty "ffffffff00" "-1" = Return true.
Proof.
  assert (Hlen : (8 <= String.length "ffffffff00")%nat) by (simpl; lia).
  assert (Hhash : Py.int16 (Py.slice_to 8 "ffffffff00") = Return 0xFFFFFFFF)
    by reflexivity.
  assert (Hmask : Py.int16 "-1" = Return (-1)) by reflexivity.
  refine (conj eq_refl (conj eq_refl (conj Hmask _))).
  exact (proj1 (proj2
    (hash_meets_difficulty_reads_non_hex "ffffffff00" "-1" 0xFFFFFFFF (-1)
       Hlen Hhash Hmask))).
Defined.

(** C10. Two difficulty strings that [int(., 16)] reads as integers
    congruent modulo 2^32 give the same verdict on every hash string; and
    on a hash whose first 8 characters are hex digits the verdict is that
    of the mask reduced modulo 2^32, whatever the size of the number
    read: a difficulty of 2^32 or more is not rejected, and one whose low
    32 bits are all set is met. *)
Theorem hash_meets_difficulty_mask_mod hash_hex d1 d2 m1 m2 :
  Py.int16 d1 = Return m1 ->
  Py.int16 d2 = Return m2 ->
  m1 mod 2 ^ 32 = m2 mod 2 ^ 32 ->
  hash_meets_difficulty hash_hex d1 = hash_meets_difficulty hash_hex d2 /\
  (forall left4,
     (8 <= String.length hash_hex)%nat ->
     hex_value (Py.slice_to 8 hash_hex) = Some left4 ->
     hash_meets_difficulty hash_hex d1
       = Return (Z.land left4 (0xFFFFFFFF - m1 mod 2 ^ 32) =? 0) /\
     (m1 mod 2 ^ 32 = 0xFFFFFFFF -> hash_meets_difficulty hash_hex d1 = Return true)).
Proof.
  intros H1 H2 Hcong. split.
  - unfold hash_meets_difficulty.
    case (negb (Py.truthy hash_hex) || (String.length hash_hex <? 8)%nat); [reflexivity|].
    rewrite H1, H2.
    case (Py.int16 (Py.slice_to 8 hash_hex)); cbn; try reflexivity.
    intros left4. rewrite !land_lnot_ones32. unfold complement32. now rewrite Hcong.
  - intros left4 Hlen Hhex.
    pose proof (hash_meets_difficulty_parsed _ _ _ _ Hlen (int16_hex _ _ Hhex) H1)
      as Heval.
    unfold complement32 in Heval. split; [exact Heval|].
    intros Hfull. rewrite Heval, Hfull. f_equal.
    change (0xFFFFFFFF - 0xFFFFFFFF) with 0. now rewrite Z.land_0_r.
Qed.

Lemma hash_meets_difficulty_mask_mod_witness :
  Py.int16 "1ffffffff" = Return 0x1FFFFFFFF /\
  2 ^ 32 <= 0x1FFFFFFFF /\
  Py.int16 "ffffffff" = Return 0xFFFFFFFF /\
  hash_meets_difficulty "0000abcd" "1ffffffff" = hash_meets_difficulty "0000abcd" "ffffffff" /\
  hash_meets_difficulty "0000abcd" "1ffffffff" = Return true.
Proof.
  assert (H1 : Py.int16 "1ffffffff" = Return 0x1FFFFFFFF) by reflexivity.
  assert (H2 : Py.int16 "ffffffff" = Return 0xFFFFFFFF) by reflexivity.
  assert (Hc : 0x1FFFFFFFF mod 2 ^ 32 = 0xFFFFFFFF mod 2 ^ 32) by reflexivity.
  assert (Hbig : 2 ^ 32 <= 0x1FFFFFFFF) by (vm_compute; discriminate).
  assert (Hlen : (8 <= String.length "0000abcd")%nat) by (simpl; lia).
  pose proof (hash_meets_difficulty_mask_mod "0000abcd" _ _ _ _ H1 H2 Hc) as [Heq Hpin].
  refine (conj H1 (conj Hbig (conj H2 (conj Heq _)))).
  exact (proj2 (Hpin 0xabcd Hlen eq_refl) eq_refl).
Defined.

(* ===================================================================== *)
(** * The preimage and the challenge list *)
(* ===================================================================== *)

Lemma append_empty_r (s : string) : s +:+ EmptyString = s.
Proof.
  induction s as [|c r IH]; [reflexivity|].
  change (String c (r +:+ EmptyString) = String c r). now f_equal.
Qed.

Lemma join_empty_seven (a b c d e f g : string) :
  Py.join_empty [a; b; c; d; e; f; g] = a +:+ b +:+ c +:+ d +:+ e +:+ f +:+ g.
Proof. unfold Py.join_empty. simpl. now rewrite append_empty_r. Qed.

Section Preimage.

Variables (challenge : gmap string string).
Variables (challenge_id difficulty no_pre_mine latest_submission : string).
Hypothesis Hid : challenge !! "challenge_id" = Some challenge_id.
Hypothesis Hdiff : challenge !! "difficulty" = Some difficulty.
Hypothesis Hrom : challenge !! "no_pre_mine" = Some no_pre_mine.
Hypothesis Hlatest : challenge !! "latest_submission" = Some latest_submission.

Lemma build_preimage_fields nonce_hex addr :
  build_preimage nonce_hex addr challenge
  = Return (nonce_hex +:+ addr +:+ challenge_id +:+ difficulty +:+ no_pre_mine
            +:+ latest_submission +:+ default EmptyString (challenge !! "no_pre_mine_hour")).
Proof.
  unfold build_preimage, getitem. rewrite Hid, Hdiff, Hrom, Hlatest. cbn [obind].
  now rewrite join_empty_seven.
Qed.

Lemma pre_with_rom_fields nonce_hex addr :
  pre_with_rom nonce_hex addr challenge
  = Return (no_pre_mine +:+ "|" +:+ nonce_hex +:+ addr +:+ challenge_id +:+ difficulty
            +:+ no_pre_mine +:+ latest_submission
            +:+ default EmptyString (challenge !! "no_pre_mine_hour")).
Proof.
  unfold pre_with_rom. rewrite build_preimage_fields, Hrom. reflexivity.
Qed.

End Preimage.

(** The fields of the dictionary built from a row. *)
Lemma challenge_of_row_lookup row :
  challenge_of_row row !! "challenge_id" = Some (cell row 0 EmptyString) /\
  challenge_of_row row !! "difficulty" = Some (cell row 1 EmptyString) /\
  challenge_of_row row !! "no_pre_mine" = Some (cell row 2 EmptyString) /\
  challenge_of_row row !! "no_pre_mine_hour" = Some (cell row 3 EmptyString) /\
  challenge_of_row row !! "latest_submission" = Some (cell row 4 DEFAULT_LATEST_SUBMISSION).
Proof. unfold challenge_of_row. repeat split; by simplify_map_eq. Qed.

Lemma read_rows_filter rows : forall acc,
  read_rows rows acc = acc ++ map challenge_of_row (List.filter row_kept rows).
Proof.
  induction rows as [|row rest IH]; intros acc; simpl.
  - now rewrite app_nil_r.
  - unfold row_kept at 1.
    destruct (Nat.ltb_spec (length row) 5) as [Hshort|Hlong].
    + replace (5 <=? length row)%nat with false by (symmetry; apply Nat.leb_gt; lia).
      apply IH.
    + replace (5 <=? length row)%nat with true by (symmetry; apply Nat.leb_le; lia).
      cbn [andb]. destruct (required_fields (challenge_of_row row)).
      * rewrite IH. simpl. now rewrite <- app_assoc.
      * apply IH.
Qed.

Lemma read_challenges_from_csv_rows header rows :
  read_challenges_from_csv (Some (header :: rows))
  = Return (map challenge_of_row (List.filter row_kept rows)).
Proof. unfold read_challenges_from_csv. cbn. now rewrite read_rows_filter. Qed.

Lemma required_fields_cells row :
  required_fields (challenge_of_row row)
  = Py.truthy (cell row 0 EmptyString) && Py.truthy (cell row 1 EmptyString) && Py.truthy (cell row 2 EmptyString).
Proof.
  unfold required_fields.
  destruct (challenge_of_row_lookup row) as (-> & -> & -> & _). reflexivity.
Qed.

(** Rows whose identifier, difficulty or domain value is empty are not in
    the produced list: every produced challenge has the three non-empty. *)
Lemma read_challenges_required_present header rows challenge :
  In challenge (map challenge_of_row (List.filter row_kept rows)) ->
  read_challenges_from_csv (Some (header :: rows))
    = Return (map challenge_of_row (List.filter row_kept rows)) /\
  exists id diff rom,
    challenge !! "challenge_id" = Some id /\ id <> EmptyString /\
    challenge !! "difficulty" = Some diff /\ diff <> EmptyString /\
    challenge !! "no_pre_mine" = Some rom /\ rom <> EmptyString.
Proof.
  intros Hin. split; [apply read_challenges_from_csv_rows|].
  apply in_map_iff in Hin as (row & <- & Hrow).
  apply filter_In in Hrow as [_ Hkept].
  unfold row_kept in Hkept. apply andb_prop in Hkept as [_ Hreq].
  rewrite required_fields_cells in Hreq.
  apply andb_prop in Hreq as [Hreq Hrom]. apply andb_prop in Hreq as [Hid Hdiff].
  destruct (challenge_of_row_lookup row) as (Ha & Hb & Hc & _).
  exists (cell row 0 EmptyString), (cell row 1 EmptyString), (cell row 2 EmptyString).
  repeat split; try assumption; intros Heq;
    rewrite Heq in *; discriminate.
Qed.

(** A row of exactly five columns whose three required cells are
    non-empty once stripped is in the produced list. *)
Lemma read_challenges_five_columns header before after a b c d e :
  Py.strip a <> EmptyString -> Py.strip b <> EmptyString -> Py.strip c <> EmptyString ->
  exists l1 l2,
    read_challenges_from_csv (Some (header :: before ++ [a; b; c; d; e] :: after))
    = Return (l1 ++ challenge_of_row [a; b; c; d; e] :: l2).
Proof.
  intros Ha Hb Hc. rewrite read_challenges_from_csv_rows.
  rewrite List.filter_app, map_app. cbn [List.filter].
  assert (Hkept : row_kept [a; b; c; d; e] = true).
  { unfold row_kept. rewrite required_fields_cells.
    change (cell [a; b; c; d; e] 0 EmptyString) with (Py.strip a).
    change (cell [a; b; c; d; e] 1 EmptyString) with (Py.strip b).
    change (cell [a; b; c; d; e] 2 EmptyString) with (Py.strip c).
    destruct (Py.strip a); [congruence|].
    destruct (Py.strip b); [congruence|].
    destruct (Py.strip c); [congruence|]. reflexivity. }
  rewrite Hkept. cbn [map]. eauto.
Qed.

(** C9, the part the code misses. A row with fewer than five columns is
    skipped, also one with four columns whose required cells are all
    present: the default deadline is never used. *)
Theorem read_challenges_short_row_skipped header before after row :
  (length row < 5)%nat ->
  read_challenges_from_csv (Some (header :: before ++ row :: after))
  = read_challenges_from_csv (Some (header :: before ++ after)).
Proof.
  intros Hshort. rewrite !read_challenges_from_csv_rows, !List.filter_app.
  cbn [List.filter]. unfold row_kept at 2.
  replace (5 <=? length row)%nat with false by (symmetry; apply Nat.leb_gt; lia).
  reflexivity.
Qed.

Lemma read_challenges_short_row_skipped_witness :
  (length ["c1"; "ffff0000"; "rom"; "12"] < 5)%nat /\
  read_challenges_from_csv
    (Some [ ["challengeId"; "difficulty"; "noPreMine"; "noPreMineHour"];
            ["c1"; "ffff0000"; "rom"; "12"] ])
  = Return [].
Proof.
  assert (Hshort : (length ["c1"; "ffff0000"; "rom"; "12"] < 5)%nat) by (simpl; lia).
  split; [exact Hshort|].
  exact (read_challenges_short_row_skipped
           ["challengeId"; "difficulty"; "noPreMine"; "noPreMineHour"] [] []
           ["c1"; "ffff0000"; "rom"; "12"] Hshort).
Defined.
(* ===================================================================== *)
(** * Relations kept by every step of a computation *)
(* ===================================================================== *)

#[local] Instance grows_refl : Reflexive grows.
Proof.
  intros w. unfold grows. repeat split; auto; exists []; now rewrite app_nil_r.
Qed.

#[local] Instance grows_trans : Transitive grows.
Proof.
  intros a b c (S1 & H1 & So1 & G1 & R1 & C1 & O1 & P1 & [e1 E1] & [t1 T1])
               (S2 & H2 & So2 & G2 & R2 & C2 & O2 & P2 & [e2 E2] & [t2 T2]).
  unfold grows. repeat split; try lia; auto.
  - exists (e1 ++ e2). now rewrite E2, E1, app_assoc.
  - exists (t1 ++ t2). now rewrite T2, T1, app_assoc.
Qed.

#[local] Instance accounted_refl : Reflexive accounted.
Proof. intros w. unfold accounted. lia. Qed.

#[local] Instance accounted_trans : Transitive accounted.
Proof. intros a b c. unfold accounted. lia. Qed.

#[local] Instance no_submission_refl : Reflexive no_submission.
Proof. intros w. unfold no_submission. auto. Qed.

#[local] Instance no_submission_trans : Transitive no_submission.
Proof. intros a b c (? & ? & ?) (? & ? & ?). unfold no_submission. repeat split; congruence. Qed.

#[local] Instance submission_only_refl : Reflexive submission_only.
Proof. intros w. unfold submission_only. auto 10. Qed.

#[local] Instance submission_only_trans : Transitive submission_only.
Proof.
  intros a b c (? & ? & ? & ? & ? & ?) (? & ? & ? & ? & ? & ?).
  unfold submission_only. repeat split; congruence.
Qed.

Section Within.

Context (R : world -> world -> Prop) `{!Reflexive R} `{!Transitive R}.

Lemma within_unchanged {A : Type} (c : prog A) :
  (forall w, snd (c w) = w) -> within R c.
Proof. intros H w. now rewrite H. Qed.

Lemma within_bind {A B : Type} (c : prog A) (k : A -> prog B) :
  within R c -> (forall a, within R (k a)) -> within R (bind c k).
Proof.
  intros Hc Hk w. unfold bind. specialize (Hc w).
  destruct (c w) as [[a|e|] w1]; cbn [snd] in *; try exact Hc.
  transitivity w1; [exact Hc | apply Hk].
Qed.

Lemma within_try {A : Type} (c : prog A) (h : exn -> prog A) :
  within R c -> (forall e, within R (h e)) -> within R (try_prog c h).
Proof.
  intros Hc Hh w. unfold try_prog. specialize (Hc w).
  destruct (c w) as [[a|e|] w1]; cbn [snd] in *; try exact Hc.
  destruct (is_Exception e); cbn [snd]; [|exact Hc].
  transitivity w1; [exact Hc | apply Hh].
Qed.

Lemma within_in_try {A B : Type} (c : prog A) (h : exn -> prog B) (k : A -> prog B) :
  within R c -> (forall e, within R (h e)) -> (forall a, within R (k a)) ->
  within R (in_try c h k).
Proof.
  intros Hc Hh Hk w. unfold in_try. specialize (Hc w).
  destruct (c w) as [[a|e|] w1]; cbn [snd] in *; try exact Hc.
  - transitivity w1; [exact Hc | apply Hk].
  - destruct (is_Exception e); cbn [snd]; [|exact Hc].
    transitivity w1; [exact Hc | apply Hh].
Qed.

Lemma within_for_range n (body : prog signal) :
  within R body -> within R (for_range n body).
Proof.
  intros Hbody. induction n as [|n IH]; cbn [for_range].
  - now apply within_unchanged.
  - apply within_bind; [exact Hbody|]. intros [|]; [exact IH|].
    now apply within_unchanged.
Qed.

End Within.

(** A single step on the state: unfold it and compare the fields. *)
Ltac within_leaf :=
  let w := fresh "w" in
  intros w; hnf; cbn;
  repeat match goal with |- _ /\ _ => split end;
  first [ reflexivity | lia | tauto
        | eexists; reflexivity
        | exists []; symmetry; apply app_nil_r ].

(** Walk through a composed computation. *)
Ltac within_steps :=
  repeat first
    [ assumption
    | match goal with
      | |- within _ (for_range _ _) => apply within_for_range; try typeclasses eauto
      | |- within _ (bind _ _) => apply within_bind; try typeclasses eauto; [ | intros ? ]
      | |- within _ (try_prog _ _) =>
          apply within_try; try typeclasses eauto; [ | intros ? ]
      | |- within _ (in_try _ _ _) =>
          apply within_in_try; try typeclasses eauto; [ | intros ? | intros ? ]
      end
    | solve [ auto with within ]
    | match goal with
      | |- within _ (if ?b then _ else _) => destruct b
      | |- within _ (match ?x with _ => _ end) => destruct x
      end
    | solve [ within_leaf ] ].

Create HintDb within discriminated.

(** A line printed or refused leaves all that these relations look at
    as it was, but for the trace. *)
Lemma grows_print E line : within grows (print E line).
Proof.
  intros w. unfold print. destruct (print_raises E (print_calls w) line);
    hnf; cbn; repeat match goal with |- _ /\ _ => split end;
    first [ tauto | lia | eexists; reflexivity | exists []; symmetry; apply app_nil_r ].
Qed.

Lemma accounted_print E line : within accounted (print E line).
Proof.
  intros w. unfold print. destruct (print_raises E (print_calls w) line);
    hnf; cbn; lia.
Qed.

Lemma no_submission_print E line : within no_submission (print E line).
Proof.
  intros w. unfold print. destruct (print_raises E (print_calls w) line);
    hnf; cbn; auto.
Qed.

Lemma submission_only_print E line : within submission_only (print E line).
Proof.
  intros w. unfold print. destruct (print_raises E (print_calls w) line);
    hnf; cbn; auto 10.
Qed.

#[local] Hint Resolve grows_print accounted_print no_submission_print
  submission_only_print : within.

(* ===================================================================== *)
(** * The submission protocol *)
(* ===================================================================== *)

Section Submission.

Variable E : env.
Variable self : worker.
Variables challenge_id nonce : string.

#[local] Abbreviation url :=
  (solution_url (base_url self) (address self) challenge_id nonce).

(** A line the console takes, and one it does not. *)
Lemma print_written line w :
  print_raises E (print_calls w) line = None ->
  print E line w = (Return tt, printed line w).
Proof. intros H. unfold print. now rewrite H. Qed.

Lemma print_refused line w e :
  print_raises E (print_calls w) line = Some e ->
  print E line w = (Raise e, next_print w).
Proof. intros H. unfold print. now rewrite H. Qed.

(** [post_solution] returns the status and the text of the reply, having
    logged a request-level error. *)
Lemma post_solution_answered w :
  let r := requests_post E (post_calls w) url in
  post_solution E (base_url self) (address self) challenge_id nonce w
  = (Return (status_of r, reply_text r), answered E self challenge_id nonce r w).
Proof.
  cbv zeta. unfold post_solution, answered, bind, http_post, posted.
  destruct (requests_post E (post_calls w) url); reflexivity.
Qed.

Lemma answered_fields r w :
  let w' := answered E self challenge_id nonce r w in
  stop_event w' = stop_event w /\ hashes w' = hashes w /\ solutions w' = solutions w /\
  getter_calls w' = getter_calls w /\ random_calls w' = random_calls w /\
  clock_calls w' = clock_calls w /\ oracle_calls w' = oracle_calls w /\
  post_calls w' = S (post_calls w) /\ print_calls w' = print_calls w /\
  trace w' = trace w ++ [EvPost url r] /\
  length (errors w') = (length (errors w) + if is_request_error r then 1 else 0)%nat.
Proof.
  unfold answered. destruct r; cbn; rewrite ?length_app; cbn;
    repeat split; try reflexivity; lia.
Qed.

(** One pass through the [try] statement of the loop, whatever the
    console does: exactly one POST, the log as [post_solution] left it,
    nothing in the trace but steps of the submission; a [break] only
    after a 201, with the stop event set; otherwise the stop event as it
    was and, when the loop goes on, at least one more attempt counted. *)
Lemma submit_attempt_step attempts sc w :
  let r := requests_post E (post_calls w) url in
  let res := submit_attempt E self challenge_id nonce attempts sc w in
  post_calls (snd res) = S (post_calls w) /\
  errors (snd res) = errors (answered E self challenge_id nonce r w) /\
  submission_only w (snd res) /\
  (exists steps, trace (snd res) = trace w ++ EvPost url r :: steps /\
                 Forall (submission_step url) steps) /\
  match fst res with
  | Return (sc', None) =>
      status_of r = Some 201 /\ sc' = Some 201 /\ stop_event (snd res) = true
  | Return (sc', Some attempts') =>
      sc' = status_of r /\ (attempts < attempts')%nat /\
      stop_event (snd res) = stop_event w
  | Raise _ => stop_event (snd res) = stop_event w
  | OutOfFuel => False
  end.
Proof.
  intros r res.
  assert (Hres : res = submit_attempt E self challenge_id nonce attempts sc w)
    by reflexivity.
  clearbody res. unfold submit_attempt in Hres. unfold in_try at 1 in Hres.
  rewrite post_solution_answered in Hres. fold r in Hres.
  pose proof (answered_fields r w) as F. cbv zeta in F.
  set (w0 := answered E self challenge_id nonce r w) in *.
  destruct F as (Fs & Fh & Fso & Fg & Fr & Fc & Fo & Fp & Fpr & Ft & Fe).
  unfold submit_except, in_try, bind, print, set_stop, sleep, note, ret in Hres.
  repeat match type of Hres with
         | context [print_raises E ?k ?m] =>
             destruct (print_raises E k m) as [?|]; cbn in Hres
         | context [is_Exception ?e] => destruct (is_Exception e); cbn in Hres
         | context [bool_decide ?P] => destruct (bool_decide_reflect P); cbn in Hres
         end;
  subst res; unfold submission_only; cbn; rewrite ?Ft, <- ?app_assoc; cbn;
  (split; [exact Fp|]); (split; [reflexivity|]);
  (split; [auto 10|]);
  (split; [eexists; split; [reflexivity|]; repeat constructor |]);
  repeat split; auto; lia.
Qed.

Lemma submit_while_done sfuel attempts sc w :
  (3 <= attempts)%nat ->
  submit_while E self sfuel challenge_id nonce attempts sc w = (Return sc, w).
Proof.
  intros Hge. destruct sfuel; cbn [submit_while];
    replace (attempts <? 3)%nat with false by (symmetry; now apply Nat.ltb_ge);
    reflexivity.
Qed.

Lemma submit_while_unfold sfuel attempts sc w :
  (attempts < 3)%nat ->
  submit_while E self (S sfuel) challenge_id nonce attempts sc w
  = match submit_attempt E self challenge_id nonce attempts sc w with
    | (Return (sc', None), w') => (Return sc', w')
    | (Return (sc', Some attempts'), w') =>
        submit_while E self sfuel challenge_id nonce attempts' sc' w'
    | (Raise e, w') => (Raise e, w')
    | (OutOfFuel, w') => (OutOfFuel, w')
    end.
Proof.
  intros Hlt. cbn [submit_while].
  replace (attempts <? 3)%nat with true by (symmetry; now apply Nat.ltb_lt).
  unfold bind. destruct (submit_attempt E self challenge_id nonce attempts sc w)
    as [[[sc' [a'|]]| |] w']; reflexivity.
Qed.

(** What the loop leaves behind, whatever the endpoint answers, whatever
    the console does and whatever fuel it is given: at most [3 - attempts]
    POSTs, one log entry for each of them that ended in a request-level
    error, nothing in the trace but steps of the submission, and nothing
    but the stop event, the log, the trace and the two counters touched. *)
Lemma submit_while_frame sfuel : forall attempts sc w,
  (attempts <= 3)%nat ->
  let res := submit_while E self sfuel challenge_id nonce attempts sc w in
  (post_calls w <= post_calls (snd res) <= post_calls w + (3 - attempts))%nat /\
  submission_only w (snd res) /\
  length (errors (snd res))
    = (length (errors w)
       + request_errors E url (post_calls w) (post_calls (snd res) - post_calls w))%nat /\
  (exists steps, trace (snd res) = trace w ++ steps /\
                 Forall (submission_step url) steps) /\
  (stop_event (snd res) = stop_event w \/ stop_event (snd res) = true).
Proof.
  induction sfuel as [|sfuel IH]; intros attempts sc w Hle res; subst res.
  - cbn [submit_while]. unfold request_errors.
    destruct (attempts <? 3)%nat; cbn; rewrite Nat.sub_diag; cbn;
      (split; [lia|]); (split; [reflexivity|]); (split; [lia|]);
      (split; [exists []; rewrite app_nil_r; auto | auto]).
  - destruct (Nat.lt_ge_cases attempts 3) as [Hlt|Hge].
    2:{ rewrite submit_while_done by exact Hge. unfold request_errors. cbn.
        rewrite Nat.sub_diag. cbn.
        (split; [lia|]); (split; [reflexivity|]); (split; [lia|]);
        (split; [exists []; rewrite app_nil_r; auto | auto]). }
    rewrite submit_while_unfold by exact Hlt.
    pose proof (submit_attempt_step attempts sc w) as Fstep. cbv zeta in Fstep.
    set (r := requests_post E (post_calls w) url) in *.
    pose proof (answered_fields r w) as Fa. cbv zeta in Fa.
    destruct Fa as (_ & _ & _ & _ & _ & _ & _ & _ & _ & _ & Fe).
    destruct (submit_attempt E self challenge_id nonce attempts sc w) as [out w1].
    cbn [fst snd] in Fstep.
    destruct Fstep as (Fp & Ferr & Fonly & (steps1 & Ft & Fall) & Fout).
    rewrite <- Ferr in Fe.
    assert (Hone : length (errors w1)
                   = (length (errors w) + request_errors E url (post_calls w) 1)%nat).
    { rewrite Fe. unfold request_errors. cbn [seq map List.filter]. fold r.
      destruct (is_request_error r); reflexivity. }
    assert (Hhere :
      (post_calls w <= post_calls w1 <= post_calls w + (3 - attempts))%nat /\
      submission_only w w1 /\
      length (errors w1)
        = (length (errors w)
           + request_errors E url (post_calls w) (post_calls w1 - post_calls w))%nat /\
      (exists steps, trace w1 = trace w ++ steps /\
                     Forall (submission_step url) steps)).
    { split; [lia|]. split; [exact Fonly|]. split.
      - replace (post_calls w1 - post_calls w)%nat with 1%nat by lia. exact Hone.
      - exists (EvPost url r :: steps1). split; [exact Ft|].
        constructor; [reflexivity | exact Fall]. }
    destruct out as [[sc' [attempts'|]]|e|]; cbn [snd];
      try (destruct Hhere as (H1 & H2 & H3 & H4);
           split; [lia|]; split; [exact H2|]; split; [exact H3|];
           split; [exact H4 | tauto]).
    destruct Fout as (Hsc & Hmore & Hstop).
    specialize (IH attempts' sc' w1). 
    destruct (Nat.le_gt_cases attempts' 3) as [Hle'|Hgt].
    2:{ rewrite submit_while_done by lia. cbn [snd].
        destruct Hhere as (H1 & H2 & H3 & H4).
        split; [lia|]. split; [exact H2|]. split; [exact H3|].
        split; [exact H4 | tauto]. }
    cbv zeta in IH. destruct (IH Hle') as (Ip & Ionly & Ie & (steps & It & Iall) & Is).
    set (w' := snd (submit_while E self sfuel challenge_id nonce attempts' sc' w1)) in *.
    split; [lia|]. split; [etransitivity; eassumption|]. split; [|split].
    + rewrite Ie, Hone, Fp. unfold request_errors.
      replace (post_calls w' - post_calls w)%nat
        with (1 + (post_calls w' - S (post_calls w)))%nat by lia.
      rewrite seq_app, map_app, List.filter_app, length_app, Nat.add_1_r. lia.
    + exists ((EvPost url r :: steps1) ++ steps).
      rewrite It, Ft, <- app_assoc. split; [reflexivity|].
      apply Forall_app. split; [|exact Iall].
      constructor; [reflexivity | exact Fall].
    + rewrite Hstop in Is. exact Is.
Qed.

(** The same for the whole submission block. *)
Lemma submit_frame sfuel w :
  let res := submit E self sfuel challenge_id nonce w in
  (post_calls w <= post_calls (snd res) <= post_calls w + 3)%nat /\
  submission_only w (snd res) /\
  length (errors (snd res))
    = (length (errors w)
       + request_errors E url (post_calls w) (post_calls (snd res) - post_calls w))%nat /\
  (exists steps, trace (snd res) = trace w ++ steps /\
                 Forall (submission_step url) steps) /\
  (stop_event (snd res) = stop_event w \/ stop_event (snd res) = true).
Proof.
  pose proof (submit_while_frame sfuel 0 None w) as F. cbv zeta in F.
  destruct F as (Fp & Fonly & Fe & (steps & Ft & Fall) & Fs); [lia|].
  unfold submit, bind.
  destruct (submit_while E self sfuel challenge_id nonce 0 None w) as [[sc| |] w1];
    cbn [snd] in *;
    try (split; [lia|]; split; [assumption|]; split; [assumption|];
         split; [eauto | assumption]).
  destruct (bool_decide (sc ≠ Some 201)).
  2:{ cbn. split; [lia|]. split; [assumption|]. split; [assumption|].
      split; [eauto | assumption]. }
  unfold print, set_stop.
  destruct (print_raises E (print_calls w1) MsgFailedToSubmit) as [e|]; cbn.
  - split; [lia|]. split; [assumption|]. split; [assumption|].
    split; [eauto | assumption].
  - split; [lia|]. split; [exact Fonly|]. split; [exact Fe|]. split; [|auto].
    exists (steps ++ [EvPrint MsgFailedToSubmit; EvSetStop]).
    rewrite Ft, <- !app_assoc. split; [reflexivity|].
    apply Forall_app. split; [exact Fall|]. repeat constructor.
Qed.

Lemma submit_while_trace sfuel attempts sc w :
  exists steps,
    trace (snd (submit_while E self sfuel challenge_id nonce attempts sc w))
      = trace w ++ steps /\
    Forall (submission_step url) steps.
Proof.
  destruct (Nat.le_gt_cases attempts 3) as [Hle|Hgt].
  - pose proof (submit_while_frame sfuel attempts sc w Hle) as F. cbv zeta in F.
    tauto.
  - rewrite submit_while_done by lia. exists []. cbn. rewrite app_nil_r. auto.
Qed.

(** Given fuel for one iteration, the first step of the submission is a
    POST, whatever the console does. *)
Lemma submit_posts_first sfuel w :
  (1 <= sfuel)%nat ->
  exists more,
    trace (snd (submit E self sfuel challenge_id nonce w))
      = trace w ++ EvPost url (requests_post E (post_calls w) url) :: more /\
    Forall (submission_step url) more.
Proof.
  intros Hfuel. destruct sfuel as [|sf]; [lia|].
  assert (Hloop : exists more,
    trace (snd (submit_while E self (S sf) challenge_id nonce 0 None w))
      = trace w ++ EvPost url (requests_post E (post_calls w) url) :: more /\
    Forall (submission_step url) more).
  { rewrite submit_while_unfold by lia.
    pose proof (submit_attempt_step 0 None w) as G. cbv zeta in G.
    destruct G as (_ & _ & _ & (steps1 & Gt & Gall) & _).
    destruct (submit_attempt E self challenge_id nonce 0 None w)
      as [[[sc' [a'|]]| |] w4]; cbn [snd] in *; eauto.
    destruct (submit_while_trace sf a' sc' w4) as (steps & Ht & Hall).
    exists (steps1 ++ steps). rewrite Ht, Gt, <- app_assoc. split; [reflexivity|].
    now apply Forall_app. }
  destruct Hloop as (more & Ht & Hall).
  unfold submit, bind.
  destruct (submit_while E self (S sf) challenge_id nonce 0 None w) as [[sc| |] w1];
    cbn [snd] in *; eauto.
  destruct (bool_decide (sc ≠ Some 201)); [|cbn; eauto].
  unfold print, set_stop.
  destruct (print_raises E (print_calls w1) MsgFailedToSubmit); cbn; eauto.
  exists (more ++ [EvPrint MsgFailedToSubmit; EvSetStop]).
  rewrite Ht, <- !app_assoc. split; [reflexivity|].
  apply Forall_app. split; [exact Hall|]. repeat constructor.
Qed.

(** ** On a console that takes the lines *)

(** An attempt answered with status 201 ends the loop and sets the stop
    event. *)
Lemma submit_while_created sfuel attempts sc w body :
  (attempts < 3)%nat ->
  requests_post E (post_calls w) url = Response 201 body ->
  print_raises E (print_calls w) (MsgSubmitReturned (Some 201) body) = None ->
  submit_while E self (S sfuel) challenge_id nonce attempts sc w
  = (Return (Some 201),
     record EvSetStop
       (with_stop (printed (MsgSubmitReturned (Some 201) body)
                     (posted url (Response 201 body) w)))).
Proof.
  intros Hlt Hreply Hprint. rewrite submit_while_unfold by exact Hlt.
  unfold submit_attempt. unfold in_try at 1. rewrite post_solution_answered, Hreply.
  cbn [status_of reply_text answered]. unfold in_try at 1.
  rewrite print_written by exact Hprint. reflexivity.
Qed.

(** Any other reply is a failed attempt: one more attempt is counted, the
    worker sleeps one second and the loop goes on. *)
Lemma submit_while_failed sfuel attempts sc w :
  let r := requests_post E (post_calls w) url in
  (attempts < 3)%nat ->
  status_of r <> Some 201 ->
  print_raises E (print_calls w) (MsgSubmitReturned (status_of r) (reply_text r)) = None ->
  print_raises E (S (print_calls w)) (MsgSubmitRetry (attempts + 1)) = None ->
  submit_while E self (S sfuel) challenge_id nonce attempts sc w
  = submit_while E self sfuel challenge_id nonce (attempts + 1) (status_of r)
      (after_failed_attempt E self challenge_id nonce attempts r w).
Proof.
  intros r Hlt Hfail Hp1 Hp2. rewrite submit_while_unfold by exact Hlt.
  unfold submit_attempt. unfold in_try at 1. rewrite post_solution_answered. fold r.
  pose proof (answered_fields r w) as F. cbv zeta in F.
  destruct F as (_ & _ & _ & _ & _ & _ & _ & _ & Fpr & _).
  unfold in_try at 1. rewrite print_written by (now rewrite Fpr).
  rewrite bool_decide_eq_false_2 by exact Hfail.
  unfold in_try at 1. rewrite print_written by (cbn; now rewrite Fpr).
  reflexivity.
Qed.

(** A reply whose line the console refuses, with any status, 201
    included: the [except] branch counts an attempt, the stop event is
    left alone and the loop goes on. *)
Lemma submit_while_refused sfuel attempts sc w e :
  let r := requests_post E (post_calls w) url in
  (attempts < 3)%nat ->
  print_raises E (print_calls w) (MsgSubmitReturned (status_of r) (reply_text r)) = Some e ->
  is_Exception e = true ->
  print_raises E (S (print_calls w)) (MsgSubmitError (attempts + 1) e) = None ->
  submit_while E self (S sfuel) challenge_id nonce attempts sc w
  = submit_while E self sfuel challenge_id nonce (attempts + 1) (status_of r)
      (record (EvSleep 1000)
         (printed (MsgSubmitError (attempts + 1) e)
            (next_print (answered E self challenge_id nonce r w)))).
Proof.
  intros r Hlt Hp1 Hexc Hp2. rewrite submit_while_unfold by exact Hlt.
  unfold submit_attempt. unfold in_try at 1. rewrite post_solution_answered. fold r.
  pose proof (answered_fields r w) as F. cbv zeta in F.
  destruct F as (_ & _ & _ & _ & _ & _ & _ & _ & Fpr & _).
  unfold in_try at 1. rewrite (print_refused _ _ e) by (now rewrite Fpr).
  rewrite Hexc. unfold submit_except, bind.
  rewrite print_written by (cbn; now rewrite Fpr).
  reflexivity.
Qed.

Lemma after_failed_attempt_fields attempts r w :
  let w' := after_failed_attempt E self challenge_id nonce attempts r w in
  stop_event w' = stop_event w /\ hashes w' = hashes w /\ solutions w' = solutions w /\
  getter_calls w' = getter_calls w /\ random_calls w' = random_calls w /\
  clock_calls w' = clock_calls w /\ oracle_calls w' = oracle_calls w /\
  post_calls w' = S (post_calls w) /\
  print_calls w' = S (S (print_calls w)) /\
  trace w' = trace w ++ [EvPost url r;
                         EvPrint (MsgSubmitReturned (status_of r) (reply_text r));
                         EvPrint (MsgSubmitRetry (attempts + 1)); EvSleep 1000] /\
  errors w' = errors (answered E self challenge_id nonce r w).
Proof.
  unfold after_failed_attempt, answered.
  destruct r; cbn; rewrite <- ?app_assoc; cbn; repeat split; reflexivity.
Qed.

Hypothesis Hconsole : console_ok E.

(** With fuel for three iterations the loop returns, and the status it
    returns is 201 exactly when it has set the stop event itself. *)
Lemma submit_while_returns sfuel : forall attempts sc w,
  (attempts <= 3)%nat -> (3 - attempts <= sfuel)%nat -> sc <> Some 201 ->
  exists sc' w',
    submit_while E self sfuel challenge_id nonce attempts sc w = (Return sc', w') /\
    (sc' = Some 201 -> stop_event w' = true) /\
    (sc' <> Some 201 ->
     stop_event w' = stop_event w /\
     post_calls w' = (post_calls w + (3 - attempts))%nat).
Proof.
  induction sfuel as [|sfuel IH]; intros attempts sc w Hle Hfuel Hsc.
  - rewrite submit_while_done by lia. exists sc, w. repeat split; try tauto; lia.
  - destruct (Nat.lt_ge_cases attempts 3) as [Hlt|Hge].
    2:{ rewrite submit_while_done by exact Hge. exists sc, w.
        repeat split; try tauto; lia. }
    destruct (decide (status_of (requests_post E (post_calls w) url) = Some 201))
      as [Hok|Hfail].
    + destruct (requests_post E (post_calls w) url) as [code body|] eqn:Hreply;
        [|discriminate]. injection Hok as ->.
      rewrite (submit_while_created _ _ _ _ _ Hlt Hreply (Hconsole _ _)).
      eexists _, _. split; [reflexivity|]. split; [reflexivity|]. congruence.
    + rewrite (submit_while_failed _ _ _ _ Hlt Hfail (Hconsole _ _) (Hconsole _ _)).
      set (r := requests_post E (post_calls w) url) in *.
      destruct (IH (attempts + 1)%nat (status_of r)
                  (after_failed_attempt E self challenge_id nonce attempts r w))
        as (sc' & w' & Hrun & Hstop & Hkeep); [lia | lia | exact Hfail |].
      exists sc', w'. split; [exact Hrun|]. split; [exact Hstop|].
      intros Hne. destruct (Hkeep Hne) as [Hs Hp].
      pose proof (after_failed_attempt_fields attempts r w) as F. cbv zeta in F.
      destruct F as (Fs & _ & _ & _ & _ & _ & _ & Fp & _).
      split; [congruence | lia].
Qed.

(** The submission block returns with the stop event set, after at most
    three POSTs. *)
Lemma submit_returns sfuel w :
  (3 <= sfuel)%nat ->
  exists w',
    submit E self sfuel challenge_id nonce w = (Return tt, w') /\
    stop_event w' = true /\
    (post_calls w <= post_calls w' <= post_calls w + 3)%nat /\
    submission_only w w' /\
    length (errors w')
      = (length (errors w)
         + request_errors E url (post_calls w) (post_calls w' - post_calls w))%nat.
Proof.
  intros Hfuel.
  pose proof (submit_frame sfuel w) as F. cbv zeta in F.
  destruct F as (Fp & Fonly & Fe & _ & _).
  unfold submit, bind in *.
  destruct (submit_while_returns sfuel 0 None w) as (sc & w1 & Hrun & Hok & Hfail);
    [lia | lia | discriminate |].
  rewrite Hrun in *.
  destruct (decide (sc = Some 201)) as [->|Hne].
  - rewrite bool_decide_eq_false_2 in * by tauto.
    exists w1. unfold ret in *. cbn [snd] in *.
    split; [reflexivity|]. split; [now apply Hok|]. split; [lia|].
    split; assumption.
  - rewrite bool_decide_eq_true_2 in * by exact Hne.
    rewrite print_written in * by apply Hconsole.
    eexists. split; [reflexivity|]. split; [reflexivity|].
    exact (conj Fp (conj Fonly Fe)).
Qed.

End Submission.
(** Once the stop event is set, the loop of [Worker.run] returns at once,
    with any fuel. *)
Lemma run_stopped E self fuel sfuel w :
  stop_event w = true -> run E self fuel sfuel w = (Return tt, w).
Proof. intros Hstop. destruct fuel; cbn; unfold bind, is_set; now rewrite Hstop. Qed.

Section SubmissionRuns.

Variable E : env.
Variable self : worker.
Variables challenge_id nonce : string.

#[local] Abbreviation url :=
  (solution_url (base_url self) (address self) challenge_id nonce).

(** Two failed attempts and then a 201, the lines reaching the console. *)
Lemma submit_twice_failed_then_created sfuel w r0 r1 body :
  console_ok E ->
  (3 <= sfuel)%nat ->
  requests_post E (post_calls w) url = r0 ->
  requests_post E (S (post_calls w)) url = r1 ->
  requests_post E (S (S (post_calls w))) url = Response 201 body ->
  status_of r0 <> Some 201 ->
  status_of r1 <> Some 201 ->
  exists w',
    submit E self sfuel challenge_id nonce w = (Return tt, w') /\
    trace w' = trace w ++ failed_steps url r0 1 ++ failed_steps url r1 2
                       ++ created_steps url body /\
    post_calls w' = (post_calls w + 3)%nat /\
    stop_event w' = true.
Proof.
  intros Hconsole Hfuel H0 H1 H2 Hf0 Hf1.
  destruct sfuel as [|[|[|sfuel]]]; try lia.
  unfold submit, bind.
  rewrite submit_while_failed by (try lia; try apply Hconsole; now rewrite H0).
  rewrite H0.
  pose proof (after_failed_attempt_fields E self challenge_id nonce 0 r0 w) as F0.
  cbv zeta in F0.
  set (w1 := after_failed_attempt E self challenge_id nonce 0 r0 w) in *.
  destruct F0 as (S0 & _ & _ & _ & _ & _ & _ & P0 & _ & T0 & _).
  rewrite submit_while_failed
    by (try (cbn; lia); try apply Hconsole; now rewrite P0, H1).
  rewrite P0, H1.
  pose proof (after_failed_attempt_fields E self challenge_id nonce (0 + 1) r1 w1) as F1.
  cbv zeta in F1.
  set (w2 := after_failed_attempt E self challenge_id nonce (0 + 1) r1 w1) in *.
  destruct F1 as (S1 & _ & _ & _ & _ & _ & _ & P1 & _ & T1 & _).
  rewrite (submit_while_created E self challenge_id nonce sfuel _ _ w2 body)
    by (try (cbn; lia); try apply Hconsole; now rewrite P1, P0).
  rewrite bool_decide_eq_false_2 by tauto.
  eexists. split; [reflexivity|].
  cbn [trace post_calls stop_event record with_stop posted printed next_post next_print].
  rewrite T1, T0, P1, P0, <- !app_assoc.
  repeat split; first [ reflexivity | lia ].
Qed.

(** Three failed attempts on a console that takes their lines; the last
    line, the one of l.330, is taken or refused. *)
Lemma submit_three_failed sfuel w :
  let r0 := requests_post E (post_calls w) url in
  let r1 := requests_post E (S (post_calls w)) url in
  let r2 := requests_post E (S (S (post_calls w))) url in
  (forall k r, In r [r0; r1; r2] ->
     print_raises E k (MsgSubmitReturned (status_of r) (reply_text r)) = None) ->
  (forall k n, print_raises E k (MsgSubmitRetry n) = None) ->
  (3 <= sfuel)%nat ->
  status_of r0 <> Some 201 ->
  status_of r1 <> Some 201 ->
  status_of r2 <> Some 201 ->
  exists w3,
    submit E self sfuel challenge_id nonce w
    = match print_raises E (print_calls w3) MsgFailedToSubmit with
      | None => (Return tt, record EvSetStop (with_stop (printed MsgFailedToSubmit w3)))
      | Some e => (Raise e, next_print w3)
      end /\
    trace w3 = trace w ++ failed_steps url r0 1 ++ failed_steps url r1 2
                       ++ failed_steps url r2 3 /\
    post_calls w3 = (post_calls w + 3)%nat /\
    stop_event w3 = stop_event w.
Proof.
  intros r0 r1 r2 Hline Hretry Hfuel Hf0 Hf1 Hf2.
  assert (H0 : forall k, print_raises E k (MsgSubmitReturned (status_of r0) (reply_text r0))
                         = None) by (intros; apply Hline; cbn; auto).
  assert (H1 : forall k, print_raises E k (MsgSubmitReturned (status_of r1) (reply_text r1))
                         = None) by (intros; apply Hline; cbn; auto).
  assert (H2 : forall k, print_raises E k (MsgSubmitReturned (status_of r2) (reply_text r2))
                         = None) by (intros; apply Hline; cbn; auto).
  destruct sfuel as [|[|[|sfuel]]]; try lia.
  unfold submit, bind.
  rewrite submit_while_failed by (first [lia | exact Hf0 | apply H0 | apply Hretry]).
  fold r0.
  pose proof (after_failed_attempt_fields E self challenge_id nonce 0 r0 w) as F0.
  cbv zeta in F0.
  set (w1 := after_failed_attempt E self challenge_id nonce 0 r0 w) in *.
  destruct F0 as (S0 & _ & _ & _ & _ & _ & _ & P0 & _ & T0 & _).
  rewrite submit_while_failed
    by (first [cbn; lia | now rewrite P0 | rewrite P0; apply H1 | apply Hretry]).
  rewrite P0. fold r1.
  pose proof (after_failed_attempt_fields E self challenge_id nonce (0 + 1) r1 w1) as F1.
  cbv zeta in F1.
  set (w2 := after_failed_attempt E self challenge_id nonce (0 + 1) r1 w1) in *.
  destruct F1 as (S1 & _ & _ & _ & _ & _ & _ & P1 & _ & T1 & _).
  rewrite submit_while_failed
    by (first [cbn; lia | now rewrite P1, P0 | rewrite P1, P0; apply H2 | apply Hretry]).
  rewrite P1, P0. fold r2.
  pose proof (after_failed_attempt_fields E self challenge_id nonce (0 + 1 + 1) r2 w2)
    as F2.
  cbv zeta in F2.
  set (w3 := after_failed_attempt E self challenge_id nonce (0 + 1 + 1) r2 w2) in *.
  destruct F2 as (S2 & _ & _ & _ & _ & _ & _ & P2 & _ & T2 & _).
  rewrite submit_while_done by (cbn; lia).
  rewrite bool_decide_eq_true_2 by exact Hf2.
  exists w3. split.
  - unfold print, set_stop.
    destruct (print_raises E (print_calls w3) MsgFailedToSubmit); reflexivity.
  - rewrite T2, T1, T0, P2, P1, P0, S2, S1, S0, <- !app_assoc.
    repeat split; first [ reflexivity | lia ].
Qed.

(** Three replies whose lines the console refuses, the lines of the
    [except] branch going through: three POSTs, and the stop event is
    set only if the last status is not 201. *)
Lemma submit_three_refused sfuel w e :
  let r0 := requests_post E (post_calls w) url in
  let r1 := requests_post E (S (post_calls w)) url in
  let r2 := requests_post E (S (S (post_calls w))) url in
  (forall k r, In r [r0; r1; r2] ->
     print_raises E k (MsgSubmitReturned (status_of r) (reply_text r)) = Some e) ->
  is_Exception e = true ->
  (forall k n, print_raises E k (MsgSubmitError n e) = None) ->
  (3 <= sfuel)%nat ->
  exists w3,
    submit_while E self sfuel challenge_id nonce 0 None w = (Return (status_of r2), w3) /\
    trace w3 = trace w ++ refused_steps url r0 e 1 ++ refused_steps url r1 e 2
                       ++ refused_steps url r2 e 3 /\
    post_calls w3 = (post_calls w + 3)%nat /\
    stop_event w3 = stop_event w.
Proof.
  intros r0 r1 r2 Hrefused Hexc Herror Hfuel.
  assert (H0 : forall k, print_raises E k (MsgSubmitReturned (status_of r0) (reply_text r0))
                         = Some e) by (intros; apply Hrefused; cbn; auto).
  assert (H1 : forall k, print_raises E k (MsgSubmitReturned (status_of r1) (reply_text r1))
                         = Some e) by (intros; apply Hrefused; cbn; auto).
  assert (H2 : forall k, print_raises E k (MsgSubmitReturned (status_of r2) (reply_text r2))
                         = Some e) by (intros; apply Hrefused; cbn; auto).
  destruct sfuel as [|[|[|sfuel]]]; try lia.
  pose proof (answered_fields E self challenge_id nonce) as Fa. cbv zeta in Fa.
  rewrite (submit_while_refused E self challenge_id nonce _ 0 None w e)
    by (first [lia | exact Hexc | apply H0 | apply Herror]).
  fold r0.
  destruct (Fa r0 w) as (S0 & _ & _ & _ & _ & _ & _ & P0 & _ & T0 & _).
  set (w1 := record (EvSleep 1000) (printed (MsgSubmitError (0 + 1) e)
               (next_print (answered E self challenge_id nonce r0 w)))).
  assert (Hw1 : post_calls w1 = S (post_calls w) /\ stop_event w1 = stop_event w /\
                trace w1 = trace w ++ refused_steps url r0 e 1).
  { subst w1. cbn. rewrite P0, S0, T0, <- !app_assoc. auto. }
  destruct Hw1 as (P1 & S1 & T1).
  rewrite (submit_while_refused E self challenge_id nonce _ (0 + 1) _ w1 e)
    by (first [cbn; lia | exact Hexc | rewrite P1; apply H1 | apply Herror]).
  rewrite P1. fold r1.
  destruct (Fa r1 w1) as (S0' & _ & _ & _ & _ & _ & _ & P0' & _ & T0' & _).
  set (w2 := record (EvSleep 1000) (printed (MsgSubmitError (0 + 1 + 1) e)
               (next_print (answered E self challenge_id nonce r1 w1)))).
  assert (Hw2 : post_calls w2 = S (S (post_calls w)) /\ stop_event w2 = stop_event w /\
                trace w2 = trace w ++ refused_steps url r0 e 1 ++ refused_steps url r1 e 2).
  { subst w2. cbn. rewrite P0', S0', T0', P1, S1, T1, <- !app_assoc. auto. }
  destruct Hw2 as (P2 & S2 & T2).
  rewrite (submit_while_refused E self challenge_id nonce _ (0 + 1 + 1) _ w2 e)
    by (first [cbn; lia | exact Hexc | rewrite P2; apply H2 | apply Herror]).
  rewrite P2. fold r2.
  destruct (Fa r2 w2) as (S0'' & _ & _ & _ & _ & _ & _ & P0'' & _ & T0'' & _).
  rewrite submit_while_done by (cbn; lia).
  eexists. split; [reflexivity|].
  cbn. rewrite P0'', S0'', T0'', P2, S2, T2, <- !app_assoc.
  repeat split; first [ reflexivity | lia ].
Qed.

End SubmissionRuns.

(** C2, with the console in the picture. On a console that takes every
    line the submission does what the claim says: a reply with status
    201 ends it, with the stop event set and no further POST by the loop
    or by the worker, whose run loop returns at once; any other reply is
    a failed attempt followed by a sleep of one second; two such replies
    and then a 201 make exactly three POSTs, the stop event set after
    the third.  But the line of l.313 is printed inside the [try], before
    the status is looked at: when the console refuses the line of a 201
    reply, the [except] branch counts a failed attempt, the stop event is
    left alone and the accepted nonce is posted again; with three such
    replies the block ends after three POSTs, the stop event as it
    was. *)
Theorem accepted_solution_posted_again E self challenge_id nonce sfuel w :
  let url := solution_url (base_url self) (address self) challenge_id nonce in
  (3 <= sfuel)%nat ->
  (console_ok E ->
   (forall attempts sc body,
      (attempts < 3)%nat ->
      requests_post E (post_calls w) url = Response 201 body ->
      let res := submit_while E self sfuel challenge_id nonce attempts sc w in
      fst res = Return (Some 201) /\
      stop_event (snd res) = true /\
      post_calls (snd res) = S (post_calls w) /\
      trace (snd res) = trace w ++ created_steps url body /\
      forall fuel, run E self fuel sfuel (snd res) = (Return tt, snd res)) /\
   (forall attempts sc fuel',
      let r := requests_post E (post_calls w) url in
      let w' := after_failed_attempt E self challenge_id nonce attempts r w in
      (attempts < 3)%nat ->
      status_of r <> Some 201 ->
      submit_while E self (S fuel') challenge_id nonce attempts sc w
        = submit_while E self fuel' challenge_id nonce (attempts + 1) (status_of r) w' /\
      trace w' = trace w ++ failed_steps url r (attempts + 1) /\
      stop_event w' = stop_event w) /\
   (forall r0 r1 body,
      requests_post E (post_calls w) url = r0 ->
      requests_post E (S (post_calls w)) url = r1 ->
      requests_post E (S (S (post_calls w))) url = Response 201 body ->
      status_of r0 <> Some 201 ->
      status_of r1 <> Some 201 ->
      exists w',
        submit E self sfuel challenge_id nonce w = (Return tt, w') /\
        trace w' = trace w ++ failed_steps url r0 1 ++ failed_steps url r1 2
                           ++ created_steps url body /\
        post_calls w' = (post_calls w + 3)%nat /\
        stop_event w' = true)) /\
  (forall body e,
     (forall k, requests_post E k url = Response 201 body) ->
     (forall k, print_raises E k (MsgSubmitReturned (Some 201) body) = Some e) ->
     is_Exception e = true ->
     (forall k n, print_raises E k (MsgSubmitError n e) = None) ->
     exists w',
       submit E self sfuel challenge_id nonce w = (Return tt, w') /\
       trace w' = trace w ++ refused_steps url (Response 201 body) e 1
                          ++ refused_steps url (Response 201 body) e 2
                          ++ refused_steps url (Response 201 body) e 3 /\
       post_calls w' = (post_calls w + 3)%nat /\
       stop_event w' = stop_event w).
Proof.
  intros url Hfuel. split.
  - intros Hconsole. split; [|split].
    + intros attempts sc body Hlt Hreply res. subst res.
      destruct sfuel as [|sfuel']; [lia|].
      rewrite (submit_while_created E self challenge_id nonce sfuel' _ _ w body Hlt Hreply
                 (Hconsole _ _)).
      cbn [fst snd]. repeat split; try reflexivity.
      * cbn. now rewrite <- !app_assoc.
      * intros fuel. now apply run_stopped.
    + intros attempts sc fuel' r w' Hlt Hfail. split.
      * now apply submit_while_failed.
      * pose proof (after_failed_attempt_fields E self challenge_id nonce attempts r w)
          as F.
        cbv zeta in F. destruct F as (Fs & _ & _ & _ & _ & _ & _ & _ & _ & Ft & _).
        split; [exact Ft | exact Fs].
    + intros r0 r1 body. now apply submit_twice_failed_then_created.
  - intros body e Hreplies Hrefused Hexc Herror.
    assert (Hall : forall k r,
      In r [requests_post E (post_calls w) url; requests_post E (S (post_calls w)) url;
            requests_post E (S (S (post_calls w))) url] ->
      print_raises E k (MsgSubmitReturned (status_of r) (reply_text r)) = Some e).
    { intros k r Hin. rewrite !Hreplies in Hin.
      destruct Hin as [<- | [<- | [<- | []]]]; apply Hrefused. }
    destruct (submit_three_refused E self challenge_id nonce sfuel w e
                Hall Hexc Herror Hfuel) as (w3 & Hrun & Ht & Hp & Hs).
    cbv zeta in Hrun, Ht. fold url in Hrun, Ht.
    rewrite (Hreplies (S (S (post_calls w)))) in Hrun.
    rewrite (Hreplies (post_calls w)), (Hreplies (S (post_calls w))),
      (Hreplies (S (S (post_calls w)))) in Ht.
    exists w3. unfold submit, bind. rewrite Hrun. cbn [status_of].
    rewrite bool_decide_eq_false_2 by tauto.
    split; [reflexivity|]. split; [exact Ht|]. split; [exact Hp | exact Hs].
Qed.

(** An endpoint that accepts the nonce with status 201 each time, its
    reply holding a character the console cannot encode. *)
Lemma accepted_solution_posted_again_witness :
  let E := Example.scripted_on Example.cp1252_console Example.row 0 Example.always_201 in
  exists w',
    submit E Example.me 3 "c1" "00000000000f4240" initial_world = (Return tt, w') /\
    post_calls w' = 3%nat /\
    stop_event w' = false.
Proof.
  intros E.
  assert (Hfuel : (3 <= 3)%nat) by lia.
  destruct (proj2 (accepted_solution_posted_again E Example.me "c1" "00000000000f4240" 3
                     initial_world Hfuel) Example.unprintable_body ValueError)
    as (w' & Hrun & _ & Hp & Hs); try reflexivity.
  exists w'. split; [exact Hrun|]. split; [exact Hp | exact Hs].
Defined.

(** C3, with the console in the picture. Whatever the endpoint and the
    console do and whatever fuel the model is given, at most three POSTs
    are made for a nonce.  On a console that takes every line the block
    returns with the stop event set, and after three replies without a
    201 it has made exactly three POSTs, printed the line of l.330 and
    set the stop event.  But that line is printed before
    [stop_event.set()]: when the console takes the lines of the three
    failed attempts and refuses that one, the block raises after the
    three POSTs and the stop event is left as it was. *)
Theorem failed_submission_may_not_stop E self challenge_id nonce sfuel w :
  let url := solution_url (base_url self) (address self) challenge_id nonce in
  let r0 := requests_post E (post_calls w) url in
  let r1 := requests_post E (S (post_calls w)) url in
  let r2 := requests_post E (S (S (post_calls w))) url in
  (3 <= sfuel)%nat ->
  (forall any_fuel,
     (post_calls (snd (submit E self any_fuel challenge_id nonce w))
      <= post_calls w + 3)%nat) /\
  (console_ok E ->
   (exists w',
      submit E self sfuel challenge_id nonce w = (Return tt, w') /\
      stop_event w' = true /\
      (post_calls w' <= post_calls w + 3)%nat /\
      forall fuel, run E self fuel sfuel w' = (Return tt, w')) /\
   (status_of r0 <> Some 201 -> status_of r1 <> Some 201 -> status_of r2 <> Some 201 ->
    exists w',
      submit E self sfuel challenge_id nonce w = (Return tt, w') /\
      trace w' = trace w ++ failed_steps url r0 1 ++ failed_steps url r1 2
                         ++ failed_steps url r2 3
                         ++ [EvPrint MsgFailedToSubmit; EvSetStop] /\
      post_calls w' = (post_calls w + 3)%nat /\
      stop_event w' = true)) /\
  (forall e,
     status_of r0 <> Some 201 -> status_of r1 <> Some 201 -> status_of r2 <> Some 201 ->
     (forall k r, In r [r0; r1; r2] ->
        print_raises E k (MsgSubmitReturned (status_of r) (reply_text r)) = None) ->
     (forall k n, print_raises E k (MsgSubmitRetry n) = None) ->
     (forall k, print_raises E k MsgFailedToSubmit = Some e) ->
     exists w',
       submit E self sfuel challenge_id nonce w = (Raise e, w') /\
       trace w' = trace w ++ failed_steps url r0 1 ++ failed_steps url r1 2
                          ++ failed_steps url r2 3 /\
       post_calls w' = (post_calls w + 3)%nat /\
       stop_event w' = stop_event w).
Proof.
  intros url r0 r1 r2 Hfuel. split; [|split].
  - intros any_fuel.
    pose proof (submit_frame E self challenge_id nonce any_fuel w) as F.
    cbv zeta in F. lia.
  - intros Hconsole. split.
    + destruct (submit_returns E self challenge_id nonce Hconsole sfuel w Hfuel)
        as (w' & Hrun & Hstop & Hposts & _).
      exists w'. repeat split; try assumption; try lia.
      intros fuel. now apply run_stopped.
    + intros Hf0 Hf1 Hf2.
      destruct (submit_three_failed E self challenge_id nonce sfuel w
                  (fun k r _ => Hconsole k _) (fun k n => Hconsole k _) Hfuel Hf0 Hf1 Hf2)
        as (w3 & Hrun & Ht & Hp & Hs).
      rewrite Hconsole in Hrun. eexists. split; [exact Hrun|].
      cbn. rewrite Ht, <- !app_assoc. repeat split; first [reflexivity | lia].
  - intros e Hf0 Hf1 Hf2 Hlines Hretry Hrefused.
    destruct (submit_three_failed E self challenge_id nonce sfuel w
                Hlines Hretry Hfuel Hf0 Hf1 Hf2) as (w3 & Hrun & Ht & Hp & Hs).
    rewrite Hrefused in Hrun. eexists. split; [exact Hrun|].
    cbn. repeat split; assumption.
Qed.

(** An endpoint that answers 500 each time, on a console that cannot
    encode the cross mark of the last line. *)
Lemma failed_submission_may_not_stop_witness :
  let E := Example.scripted_on Example.cp1252_console Example.row 0 Example.always_500 in
  exists w',
    submit E Example.me 3 "c1" "00000000000f4240" initial_world = (Raise ValueError, w') /\
    post_calls w' = 3%nat /\
    stop_event w' = false.
Proof.
  intros E.
  assert (Hfuel : (3 <= 3)%nat) by lia.
  destruct (proj2 (proj2 (failed_submission_may_not_stop E Example.me "c1"
                            "00000000000f4240" 3 initial_world Hfuel)) ValueError)
    as (w' & Hrun & _ & Hp & Hs); try discriminate; try reflexivity.
  - intros k r [<- | [<- | [<- | []]]]; reflexivity.
  - exists w'. split; [exact Hrun|]. split; [exact Hp | exact Hs].
Defined.

(** C7 as stated fails: an endpoint that answers 500 three times makes
    three failed attempts and leaves the error log empty. *)
Lemma failed_status_attempts_not_logged :
  let E := Example.scripted Example.row 0 Example.always_500 in
  let w' := snd (submit E Example.me 3 "c1" "00000000000f4240" initial_world) in
  (forall k, status_of (requests_post E k "u") <> Some 201) /\
  post_calls w' = 3%nat /\
  stop_event w' = true /\
  errors w' = [].
Proof. repeat split; try reflexivity. intros k. discriminate. Qed.

(** C7, as the code has it. A failed attempt that ended in a
    request-level error appends one entry to the error log, with the
    worker's address, the challenge, the nonce and the error message; a
    failed attempt that got a status other than 201 appends nothing.
    That is the log after the [try] statement of the loop whatever the
    console does with the lines, and when the two lines of the attempt
    reach the console the loop goes on from the state so described.  Over
    the whole submission the log grows by the number of request-level
    errors among the POSTs made. *)
Theorem failed_attempt_error_log E self challenge_id nonce sfuel attempts sc w :
  let url := solution_url (base_url self) (address self) challenge_id nonce in
  let r := requests_post E (post_calls w) url in
  let w' := after_failed_attempt E self challenge_id nonce attempts r w in
  let final := snd (submit E self sfuel challenge_id nonce w) in
  (attempts < 3)%nat ->
  status_of r <> Some 201 ->
  (print_raises E (print_calls w) (MsgSubmitReturned (status_of r) (reply_text r)) = None ->
   print_raises E (S (print_calls w)) (MsgSubmitRetry (attempts + 1)) = None ->
   submit_while E self (S sfuel) challenge_id nonce attempts sc w
     = submit_while E self sfuel challenge_id nonce (attempts + 1) (status_of r) w') /\
  errors (snd (submit_attempt E self challenge_id nonce attempts sc w)) = errors w' /\
  errors w' =
    match r with
    | RequestException message =>
        errors w ++ [ {| err_timestamp := now_iso E (length (errors w));
                         err_address := address self;
                         err_challenge_id := challenge_id;
                         err_nonce := nonce;
                         err_error := message |} ]
    | Response _ _ => errors w
    end /\
  length (errors final)
    = (length (errors w)
       + request_errors E url (post_calls w) (post_calls final - post_calls w))%nat.
Proof.
  intros url r w' final Hlt Hfail. split; [|split; [|split]].
  - intros Hp1 Hp2. now apply submit_while_failed.
  - pose proof (submit_attempt_step E self challenge_id nonce attempts sc w) as F.
    cbv zeta in F. destruct F as (_ & Ferr & _).
    pose proof (after_failed_attempt_fields E self challenge_id nonce attempts r w) as G.
    cbv zeta in G. destruct G as (_ & _ & _ & _ & _ & _ & _ & _ & _ & _ & Ge).
    subst w'. now rewrite Ferr, Ge.
  - subst w'. unfold after_failed_attempt, answered. destruct r; reflexivity.
  - pose proof (submit_frame E self challenge_id nonce sfuel w) as F.
    cbv zeta in F. tauto.
Qed.

Lemma failed_attempt_error_log_witness :
  let E := Example.scripted Example.row 0 Example.timeout_then_400 in
  let final := snd (submit E Example.me 3 "c1" "00000000000f4240" initial_world) in
  length (errors final) = 1%nat /\ post_calls final = 3%nat.
Proof.
  intros E final.
  assert (Hlt : (0 < 3)%nat) by lia.
  assert (Hfail : status_of (requests_post E 0
            (solution_url (base_url Example.me) (address Example.me)
               "c1" "00000000000f4240")) <> Some 201) by discriminate.
  pose proof (proj2 (proj2 (proj2
    (failed_attempt_error_log E Example.me "c1" "00000000000f4240" 3 0 None
       initial_world Hlt Hfail)))) as Hlog.
  split; [exact Hlog | reflexivity].
Defined.

(* ===================================================================== *)
(** * The attempt loop *)
(* ===================================================================== *)

(** ** Exchanges are only ever added *)

Lemma oracle_mono_ret {A : Type} (a : A) : oracle_mono (ret a).
Proof. intros w. reflexivity. Qed.

Lemma oracle_mono_lift {A : Type} (o : outcome A) : oracle_mono (lift o).
Proof. intros w. reflexivity. Qed.

Lemma oracle_mono_out_of_fuel {A : Type} : oracle_mono (@out_of_fuel A).
Proof. intros w. reflexivity. Qed.

Lemma oracle_mono_bind {A B : Type} (c : prog A) (k : A -> prog B) :
  oracle_mono c -> (forall a, oracle_mono (k a)) -> oracle_mono (bind c k).
Proof.
  intros Hc Hk w. unfold bind. specialize (Hc w).
  destruct (c w) as [[a|e|] w1]; cbn [snd] in *; try exact Hc.
  specialize (Hk a w1). lia.
Qed.

Lemma oracle_mono_try {A : Type} (c : prog A) (h : exn -> prog A) :
  oracle_mono c -> (forall e, oracle_mono (h e)) -> oracle_mono (try_prog c h).
Proof.
  intros Hc Hh w. unfold try_prog. specialize (Hc w).
  destruct (c w) as [[a|e|] w1]; cbn [snd] in *; try exact Hc.
  destruct (is_Exception e); cbn [snd]; [|exact Hc].
  specialize (Hh e w1). lia.
Qed.

Lemma oracle_mono_in_try {A B : Type} (c : prog A) (h : exn -> prog B) (k : A -> prog B) :
  oracle_mono c -> (forall e, oracle_mono (h e)) -> (forall a, oracle_mono (k a)) ->
  oracle_mono (in_try c h k).
Proof.
  intros Hc Hh Hk w. unfold in_try. specialize (Hc w).
  destruct (c w) as [[a|e|] w1]; cbn [snd] in *; try exact Hc.
  - specialize (Hk a w1). lia.
  - destruct (is_Exception e); cbn [snd]; [|exact Hc].
    specialize (Hh e w1). lia.
Qed.

Lemma oracle_mono_print E line : oracle_mono (print E line).
Proof. intros w. unfold print. destruct (print_raises E _ _); reflexivity. Qed.

Lemma oracle_mono_note e : oracle_mono (note e).
Proof. intros w. reflexivity. Qed.

Lemma oracle_mono_sleep ms : oracle_mono (sleep ms).
Proof. intros w. reflexivity. Qed.

Lemma oracle_mono_is_set : oracle_mono is_set.
Proof. intros w. reflexivity. Qed.

Lemma oracle_mono_set_stop : oracle_mono set_stop.
Proof. intros w. reflexivity. Qed.

Lemma oracle_mono_add_hashes n : oracle_mono (add_hashes n).
Proof. intros w. reflexivity. Qed.

Lemma oracle_mono_inc_solutions : oracle_mono inc_solutions.
Proof. intros w. reflexivity. Qed.

Lemma oracle_mono_log_error E a c n e : oracle_mono (log_error E a c n e).
Proof. intros w. reflexivity. Qed.

Lemma oracle_mono_get_challenge E : oracle_mono (get_challenge E).
Proof. intros w. reflexivity. Qed.

Lemma oracle_mono_hex64_nonce E : oracle_mono (hex64_nonce E).
Proof. intros w. reflexivity. Qed.

Lemma oracle_mono_now E : oracle_mono (now E).
Proof. intros w. reflexivity. Qed.

Lemma oracle_mono_send E p : oracle_mono (send_pre_and_recv_hash E p).
Proof. intros w. cbn. lia. Qed.

Lemma oracle_mono_http_post E url : oracle_mono (http_post E url).
Proof. intros w. reflexivity. Qed.

Create HintDb oracle_mono discriminated.
#[local] Hint Resolve oracle_mono_ret oracle_mono_lift oracle_mono_out_of_fuel
  oracle_mono_note oracle_mono_sleep oracle_mono_is_set oracle_mono_set_stop
  oracle_mono_add_hashes oracle_mono_inc_solutions oracle_mono_log_error
  oracle_mono_get_challenge oracle_mono_hex64_nonce oracle_mono_now
  oracle_mono_send oracle_mono_http_post oracle_mono_print : oracle_mono.

(** Break a goal about a composed computation into its steps. *)
Ltac oracle_mono_steps :=
  repeat first
    [ solve [ auto with oracle_mono ]
    | apply oracle_mono_bind; [|intros ?]
    | apply oracle_mono_try; [|intros ?]
    | apply oracle_mono_in_try; [|intros ?|intros ?]
    | match goal with
      | |- oracle_mono (if ?b then _ else _) => destruct b
      | |- oracle_mono (match ?x with _ => _ end) => destruct x
      end ].

Lemma oracle_mono_post_solution E u a c n : oracle_mono (post_solution E u a c n).
Proof. unfold post_solution. oracle_mono_steps. Qed.

#[local] Hint Resolve oracle_mono_post_solution : oracle_mono.

Lemma oracle_mono_submit_attempt E self c n attempts sc :
  oracle_mono (submit_attempt E self c n attempts sc).
Proof. unfold submit_attempt, submit_except. oracle_mono_steps. Qed.

#[local] Hint Resolve oracle_mono_submit_attempt : oracle_mono.

Lemma oracle_mono_submit_while E self sfuel : forall c n attempts sc,
  oracle_mono (submit_while E self sfuel c n attempts sc).
Proof.
  induction sfuel as [|sfuel IH]; intros c n attempts sc; cbn [submit_while];
    oracle_mono_steps.
Qed.

#[local] Hint Resolve oracle_mono_submit_while : oracle_mono.

Lemma oracle_mono_submit E self sfuel c n : oracle_mono (submit E self sfuel c n).
Proof. unfold submit. oracle_mono_steps. Qed.

#[local] Hint Resolve oracle_mono_submit : oracle_mono.

Lemma oracle_mono_expired E latest_ts : oracle_mono (expired E latest_ts).
Proof. unfold expired. oracle_mono_steps. Qed.

#[local] Hint Resolve oracle_mono_expired : oracle_mono.

Lemma oracle_mono_attempt E self sfuel ch d c latest_ts :
  oracle_mono (attempt E self sfuel ch d c latest_ts).
Proof. unfold attempt, found. oracle_mono_steps. Qed.

Lemma oracle_mono_for_range n (body : prog signal) :
  oracle_mono body -> oracle_mono (for_range n body).
Proof. intros Hbody. induction n as [|n IH]; cbn [for_range]; oracle_mono_steps. Qed.

Lemma request_errors_le E url p n : (request_errors E url p n <= n)%nat.
Proof.
  unfold request_errors.
  etransitivity; [apply List.filter_length_le|]. now rewrite length_map, length_seq.
Qed.

Section Loop.

Variable E : env.
Variable self : worker.
Variable sfuel : nat.
Variable challenge : gmap string string.
Variables challenge_id difficulty no_pre_mine latest_submission : string.
Hypothesis Hfields :
  has_fields challenge challenge_id difficulty no_pre_mine latest_submission.

Lemma payload_fields k :
  pre_with_rom (nonce_at E k) (address self) challenge
  = Return (payload_at E self challenge k).
Proof.
  destruct Hfields as (Hid & Hdiff & Hrom & Hlatest).
  rewrite (pre_with_rom_fields _ _ _ _ _ Hid Hdiff Hrom Hlatest).
  unfold payload_at. now rewrite Hid, Hdiff, Hrom, Hlatest.
Qed.

(** With no deadline in force the test of the clock answers "not late",
    after reading the clock at most once. *)
Lemma expired_open latest_ts w :
  deadline_open E latest_ts ->
  expired E latest_ts w = (Return false, w) \/
  expired E latest_ts w = (Return false, next_clock w).
Proof.
  destruct latest_ts as [ts|]; cbn; [|auto].
  destruct (Z.eqb_spec ts 0) as [->|Hne]; [auto|].
  intros [Hz|Hle]; [contradiction|]. right.
  unfold bind, now, ret. do 2 f_equal. apply Z.ltb_ge, Hle.
Qed.

(** ** The branch of a digest that meets the difficulty *)

(** Whatever the endpoint and the console do: no exchange, no hash
    counted, at most one solution counted and three POSTs made, and the
    loop over the nonces is never told to go on. *)
Lemma found_frame nonce h w :
  let res := found E self sfuel challenge_id nonce h w in
  hashes (snd res) = hashes w /\ oracle_calls (snd res) = oracle_calls w /\
  getter_calls (snd res) = getter_calls w /\
  (solutions w <= solutions (snd res) <= solutions w + 1)%nat /\
  (post_calls w <= post_calls (snd res) <= post_calls w + 3)%nat /\
  (post_calls (snd res) + 3 * solutions w <= post_calls w + 3 * solutions (snd res))%nat /\
  (length (errors (snd res)) + post_calls w
   <= length (errors w) + post_calls (snd res))%nat /\
  (exists steps,
     trace (snd res) = trace w ++ steps /\
     Forall (found_step (solution_url (base_url self) (address self) challenge_id nonce))
       steps) /\
  fst res <> Return Next.
Proof.
  intros res.
  assert (Hres : res = found E self sfuel challenge_id nonce h w) by reflexivity.
  clearbody res. unfold found in Hres. unfold bind at 1 in Hres. unfold print in Hres.
  assert (Hsteps : forall steps : list event,
    Forall (submission_step
              (solution_url (base_url self) (address self) challenge_id nonce)) steps ->
    Forall (found_step
              (solution_url (base_url self) (address self) challenge_id nonce)) steps).
  { intros steps Hall. eapply Forall_impl; [exact Hall|]. intros ev Hev. now left. }
  destruct (print_raises E (print_calls w) (MsgFound nonce h challenge_id)) as [e|].
  { subst res. cbn. repeat match goal with |- _ /\ _ => split end;
      try lia; try discriminate; try reflexivity.
    exists []. rewrite app_nil_r. auto. }
  unfold bind at 1 in Hres. unfold inc_solutions in Hres. unfold bind at 1 in Hres.
  destruct (submit_on_find self).
  - match type of Hres with context [submit E self sfuel challenge_id nonce ?w2] =>
      pose proof (submit_frame E self challenge_id nonce sfuel w2) as F; cbv zeta in F;
      pose proof (request_errors_le E
                    (solution_url (base_url self) (address self) challenge_id nonce)
                    (post_calls w2)
                    (post_calls (snd (submit E self sfuel challenge_id nonce w2))
                     - post_calls w2)) as Hre;
      destruct (submit E self sfuel challenge_id nonce w2) as [[[]| |] w3]
    end;
    subst res; cbn [snd fst] in *;
    destruct F as (Fp & (Fh & Fs & Fg & _ & _ & Fo) & Fe & (steps & Ft & Fall) & _);
    cbn in Fp, Fh, Fs, Fg, Fo, Fe, Ft, Hre; cbn;
    rewrite ?Ft, <- ?app_assoc;
    repeat match goal with |- _ /\ _ => split end;
    try lia; try discriminate.
    + exists (EvPrint (MsgFound nonce h challenge_id) :: steps ++ [EvSleep 500]).
      split; [reflexivity|]. constructor; [hnf; left; exact I|].
      apply Forall_app. split; [now apply Hsteps|].
      constructor; [hnf; now right | constructor].
    + exists (EvPrint (MsgFound nonce h challenge_id) :: steps).
      split; [reflexivity|]. constructor; [hnf; left; exact I | now apply Hsteps].
    + exists (EvPrint (MsgFound nonce h challenge_id) :: steps).
      split; [reflexivity|]. constructor; [hnf; left; exact I | now apply Hsteps].
  - subst res. cbn. rewrite <- !app_assoc.
    repeat match goal with |- _ /\ _ => split end;
      try lia; try discriminate.
    exists [EvPrint (MsgFound nonce h challenge_id); EvSleep 500].
    split; [reflexivity|].
    constructor; [hnf; left; exact I|]. constructor; [hnf; now right | constructor].
Qed.

(** On a console that takes every line and with fuel for the three
    attempts it returns: the solution is counted and, when the worker
    submits, the stop event is set. *)
Lemma found_returns nonce h w :
  console_ok E ->
  (3 <= sfuel)%nat ->
  let url := solution_url (base_url self) (address self) challenge_id nonce in
  exists w' steps,
    found E self sfuel challenge_id nonce h w = (Return Break, w') /\
    stop_event w' = (submit_on_find self || stop_event w) /\
    hashes w' = hashes w /\ solutions w' = (solutions w + 1)%nat /\
    oracle_calls w' = oracle_calls w /\ getter_calls w' = getter_calls w /\
    (post_calls w <= post_calls w' <= post_calls w + 3)%nat /\
    trace w' = trace w ++ EvPrint (MsgFound nonce h challenge_id) :: steps
                       ++ [EvSleep 500] /\
    (submit_on_find self = true ->
     exists more,
       steps = EvPost url (requests_post E (post_calls w) url) :: more /\
       Forall (submission_step url) more).
Proof.
  intros Hconsole Hfuel url. unfold found. unfold bind at 1.
  rewrite print_written by apply Hconsole.
  unfold bind at 1. unfold inc_solutions. unfold bind at 1.
  destruct (submit_on_find self) eqn:Hsub.
  - match goal with |- context [submit E self sfuel challenge_id nonce ?x] =>
      set (w2 := x)
    end.
    destruct (submit_returns E self challenge_id nonce Hconsole sfuel w2 Hfuel)
      as (w3 & Hrun & Hs3 & Hp3 & (Hh3 & Hso3 & Hg3 & _ & _ & Ho3) & _).
    destruct (submit_posts_first E self challenge_id nonce sfuel w2) as (more & Ht & Hall);
      [lia|].
    rewrite Hrun in Ht |- *. cbn [snd] in Ht.
    exists (record (EvSleep 500) w3),
           (EvPost url (requests_post E (post_calls w) url) :: more).
    split; [reflexivity|].
    cbn [stop_event hashes solutions oracle_calls getter_calls post_calls record trace].
    rewrite Hs3, Hh3, Hso3, Ho3, Hg3, Ht.
    subst w2. cbn in Hp3 |- *. rewrite <- !app_assoc.
    repeat match goal with |- _ /\ _ => split end; try reflexivity; try lia.
    intros _. exists more. split; [reflexivity | exact Hall].
  - exists (record (EvSleep 500)
              (with_solutions (solutions (printed (MsgFound nonce h challenge_id) w) + 1)
                 (printed (MsgFound nonce h challenge_id) w))), [].
    split; [reflexivity|]. cbn. rewrite <- !app_assoc.
    repeat match goal with |- _ /\ _ => split end; try reflexivity; try lia;
      try discriminate.
Qed.

(** ** One attempt *)

(** The attempt up to and including the difficulty test. *)
Lemma attempt_exchange latest_ts w :
  stop_event w = false ->
  deadline_open E latest_ts ->
  exists w0,
    (w0 = w \/ w0 = next_clock w) /\
    let payload := payload_at E self challenge (random_calls w) in
    let reply := send_recv E (oracle_calls w) payload in
    let w1 := next_oracle (record (EvExchange payload reply) (next_random w0)) in
    let counted := record EvHashCounted (with_hashes (hashes w + 1) w1) in
    attempt E self sfuel challenge difficulty challenge_id latest_ts w
    = match reply with
      | None => (Return Next, record (EvSleep 10) w1)
      | Some h =>
          match hash_meets_difficulty h difficulty with
          | Return true =>
              found E self sfuel challenge_id (nonce_at E (random_calls w)) h
                (record (EvDifficulty h difficulty true) counted)
          | Return false =>
              (Return Next, record (EvDifficulty h difficulty false) counted)
          | Raise e => (Raise e, counted)
          | OutOfFuel => (OutOfFuel, counted)
          end
      end.
Proof.
  intros Hstop Hopen.
  assert (Hexp : exists w0, (w0 = w \/ w0 = next_clock w) /\
                            expired E latest_ts w = (Return false, w0)).
  { destruct (expired_open latest_ts w Hopen) as [H|H]; eauto. }
  destruct Hexp as (w0 & Hw0 & Hexp). exists w0. split; [exact Hw0|].
  assert (Hr : random_calls w0 = random_calls w) by (destruct Hw0; subst; reflexivity).
  assert (Ho : oracle_calls w0 = oracle_calls w) by (destruct Hw0; subst; reflexivity).
  assert (Hh : hashes w0 = hashes w) by (destruct Hw0; subst; reflexivity).
  cbv zeta. unfold attempt.
  unfold bind at 1. unfold is_set. rewrite Hstop.
  unfold bind at 1. rewrite Hexp.
  unfold bind at 1. unfold hex64_nonce. rewrite Hr. fold (nonce_at E (random_calls w)).
  unfold bind at 1. unfold lift. rewrite payload_fields.
  unfold bind at 1. unfold send_pre_and_recv_hash.
  cbn [oracle_calls record next_random]. rewrite Ho.
  destruct (send_recv E (oracle_calls w) (payload_at E self challenge (random_calls w)))
    as [h|]; [|reflexivity].
  unfold bind at 1. unfold add_hashes.
  cbn [hashes record next_random next_oracle]. rewrite Hh.
  unfold bind at 1.
  destruct (hash_meets_difficulty h difficulty) as [[|]| |]; reflexivity.
Qed.

(** An exchange without a reply: nothing is counted and the loop goes on. *)
Lemma attempt_miss latest_ts w :
  stop_event w = false ->
  deadline_open E latest_ts ->
  (forall p, send_recv E (oracle_calls w) p = None) ->
  exists w',
    attempt E self sfuel challenge difficulty challenge_id latest_ts w = (Return Next, w') /\
    stop_event w' = false /\ hashes w' = hashes w /\ solutions w' = solutions w /\
    oracle_calls w' = S (oracle_calls w) /\ post_calls w' = post_calls w.
Proof.
  intros Hstop Hopen Hnone.
  destruct (attempt_exchange latest_ts w Hstop Hopen) as (w0 & Hw0 & Heq).
  cbv zeta in Heq. rewrite Hnone in Heq. rewrite Heq.
  eexists. split; [reflexivity|].
  destruct Hw0; subst w0; cbn; auto.
Qed.

(** An exchange whose reply meets the difficulty, on a console that
    takes every line: one hash and one solution are counted, the
    submission block runs when it is enabled, and the loop is left. *)
Lemma attempt_hit latest_ts w h :
  console_ok E ->
  stop_event w = false ->
  deadline_open E latest_ts ->
  (3 <= sfuel)%nat ->
  (forall p, send_recv E (oracle_calls w) p = Some h) ->
  hash_meets_difficulty h difficulty = Return true ->
  exists w',
    attempt E self sfuel challenge difficulty challenge_id latest_ts w = (Return Break, w') /\
    stop_event w' = submit_on_find self /\
    hashes w' = (hashes w + 1)%nat /\ solutions w' = (solutions w + 1)%nat /\
    oracle_calls w' = S (oracle_calls w) /\
    (post_calls w <= post_calls w' <= post_calls w + 3)%nat.
Proof.
  intros Hconsole Hstop Hopen Hfuel Hsome Hmeets.
  destruct (attempt_exchange latest_ts w Hstop Hopen) as (w0 & Hw0 & Heq).
  cbv zeta in Heq. rewrite Hsome, Hmeets in Heq. rewrite Heq. clear Heq.
  match goal with |- context [found E self sfuel challenge_id ?n h ?w2] =>
    destruct (found_returns n h w2 Hconsole Hfuel)
      as (w' & steps & Hrun & Hs & Hh & Hso & Ho & _ & Hp & _)
  end.
  exists w'. split; [exact Hrun|].
  rewrite Hs, Hh, Hso, Ho.
  destruct Hw0; subst w0; cbn in *; rewrite Hstop, orb_false_r;
    repeat split; auto; lia.
Qed.

(** What one attempt that reaches the daemon does to the hash counter,
    whatever happens after the test: nothing when there is no reply;
    otherwise the counter goes up by one, and the trace shows the count
    before the difficulty test. *)
Lemma attempt_counts latest_ts w :
  stop_event w = false ->
  deadline_open E latest_ts ->
  let payload := payload_at E self challenge (random_calls w) in
  let res := attempt E self sfuel challenge difficulty challenge_id latest_ts w in
  oracle_calls (snd res) = S (oracle_calls w) /\
  match send_recv E (oracle_calls w) payload with
  | None => hashes (snd res) = hashes w
  | Some h =>
      hashes (snd res) = (hashes w + 1)%nat /\
      exists met steps,
        hash_meets_difficulty h difficulty = Return met /\
        trace (snd res)
        = trace w ++ [EvExchange payload (Some h); EvHashCounted;
                      EvDifficulty h difficulty met] ++ steps
  end.
Proof.
  intros Hstop Hopen payload res. subst res.
  destruct (attempt_exchange latest_ts w Hstop Hopen) as (w0 & Hw0 & Heq).
  cbv zeta in Heq. fold payload in Heq. rewrite Heq. clear Heq.
  assert (Ht : trace w0 = trace w) by (destruct Hw0; subst; reflexivity).
  assert (Ho : oracle_calls w0 = oracle_calls w) by (destruct Hw0; subst; reflexivity).
  destruct (send_recv E (oracle_calls w) payload) as [h|].
  2:{ destruct Hw0; subst w0; cbn; auto. }
  destruct (hash_meets_difficulty_total h difficulty) as [met Hmet]. rewrite Hmet.
  destruct met.
  - match goal with |- context [found E self sfuel challenge_id ?n h ?w2] =>
      pose proof (found_frame n h w2) as F; cbv zeta in F;
      destruct F as (Fh & Fo & _ & _ & _ & _ & _ & (steps & Ft & _) & _)
    end.
    rewrite Fh, Fo, Ft. cbn. rewrite Ht, Ho, <- !app_assoc.
    split; [reflexivity|]. split; [reflexivity|].
    exists true, steps. split; reflexivity.
  - cbn. rewrite Ht, Ho, <- !app_assoc.
    split; [reflexivity|]. split; [reflexivity|].
    exists false, []. split; reflexivity.
Qed.

(** The first step an attempt leaves in the trace is the exchange, with
    the payload built from the challenge and the fresh nonce. *)
Lemma attempt_sends latest_ts w :
  stop_event w = false ->
  deadline_open E latest_ts ->
  let payload := payload_at E self challenge (random_calls w) in
  exists steps,
    trace (snd (attempt E self sfuel challenge difficulty challenge_id latest_ts w))
    = trace w ++ EvExchange payload (send_recv E (oracle_calls w) payload) :: steps.
Proof.
  intros Hstop Hopen payload.
  pose proof (attempt_counts latest_ts w Hstop Hopen) as [_ Hcount].
  cbv zeta in Hcount. fold payload in Hcount.
  destruct (send_recv E (oracle_calls w) payload) as [h|] eqn:Hreply.
  - destruct Hcount as (_ & met & steps & _ & ->). cbn. eauto.
  - destruct (attempt_exchange latest_ts w Hstop Hopen) as (w0 & Hw0 & Heq).
    cbv zeta in Heq. fold payload in Heq. rewrite Hreply in Heq. rewrite Heq.
    exists [EvSleep 10]. destruct Hw0; subst w0; cbn; now rewrite <- app_assoc.
Qed.

(** An attempt on a digest that meets the difficulty never tells the loop
    to go on, and it counts its exchange and its hash whatever comes
    after. *)
Lemma attempt_hit_counts latest_ts w h :
  stop_event w = false ->
  deadline_open E latest_ts ->
  (forall p, send_recv E (oracle_calls w) p = Some h) ->
  hash_meets_difficulty h difficulty = Return true ->
  let res := attempt E self sfuel challenge difficulty challenge_id latest_ts w in
  fst res <> Return Next /\
  oracle_calls (snd res) = S (oracle_calls w) /\
  hashes (snd res) = (hashes w + 1)%nat.
Proof.
  intros Hstop Hopen Hsome Hmeets res. subst res.
  pose proof (attempt_counts latest_ts w Hstop Hopen) as [Ho Hh].
  cbv zeta in Hh. rewrite Hsome in Hh. destruct Hh as [Hh _].
  split; [|split; assumption].
  destruct (attempt_exchange latest_ts w Hstop Hopen) as (w0 & Hw0 & Heq).
  cbv zeta in Heq. rewrite Hsome, Hmeets in Heq. rewrite Heq.
  match goal with |- context [found E self sfuel challenge_id ?n h ?w2] =>
    pose proof (found_frame n h w2) as F; cbv zeta in F
  end.
  apply F.
Qed.

#[local] Abbreviation body latest_ts :=
  (attempt E self sfuel challenge difficulty challenge_id latest_ts).

(** A batch of exchanges that all go unanswered. *)
Lemma for_range_misses latest_ts n : forall w,
  stop_event w = false ->
  deadline_open E latest_ts ->
  (forall k p, (oracle_calls w <= k < oracle_calls w + n)%nat -> send_recv E k p = None) ->
  exists w',
    for_range n (body latest_ts) w = (Return tt, w') /\
    stop_event w' = false /\ hashes w' = hashes w /\ solutions w' = solutions w /\
    oracle_calls w' = (oracle_calls w + n)%nat /\ post_calls w' = post_calls w.
Proof.
  induction n as [|n IH]; intros w Hstop Hopen Hnone.
  - exists w. cbn. repeat split; auto.
  - destruct (attempt_miss latest_ts w Hstop Hopen) as (w1 & Hrun & Hs & Hh & Hso & Ho & Hp).
    { intros p. apply Hnone. lia. }
    destruct (IH w1 Hs Hopen) as (w' & Hrest & Hs' & Hh' & Hso' & Ho' & Hp').
    { intros k p Hk. apply Hnone. lia. }
    exists w'. cbn [for_range]. unfold bind. rewrite Hrun.
    split; [exact Hrest|]. repeat split; try congruence. lia.
Qed.

(** Unanswered exchanges and then, still within the batch, a digest that
    meets the difficulty: the batch ends there, whatever the console and
    the endpoint do, with one exchange more and one hash counted. *)
Lemma for_range_hit_counts latest_ts h j : forall n w,
  (j < n)%nat ->
  stop_event w = false ->
  deadline_open E latest_ts ->
  (forall k p, (oracle_calls w <= k < oracle_calls w + j)%nat -> send_recv E k p = None) ->
  (forall p, send_recv E (oracle_calls w + j) p = Some h) ->
  hash_meets_difficulty h difficulty = Return true ->
  let res := for_range n (body latest_ts) w in
  oracle_calls (snd res) = (oracle_calls w + j + 1)%nat /\
  hashes (snd res) = (hashes w + 1)%nat.
Proof.
  induction j as [|j IH]; intros n w Hjn Hstop Hopen Hnone Hsome Hmeets res; subst res;
    destruct n as [|n]; try lia.
  - pose proof (attempt_hit_counts latest_ts w h Hstop Hopen) as F. cbv zeta in F.
    destruct F as (Fnext & Fo & Fh);
      [ intros p; rewrite <- (Hsome p); f_equal; lia | exact Hmeets | ].
    cbn [for_range]. unfold bind.
    destruct (attempt E self sfuel challenge difficulty challenge_id latest_ts w)
      as [[[|]| |] w1]; unfold ret; cbn [fst snd] in *; try (split; lia).
    contradiction.
  - destruct (attempt_miss latest_ts w Hstop Hopen) as (w1 & Hrun & Hs & Hh & Hso & Ho & Hp).
    { intros p. apply Hnone. lia. }
    cbn [for_range]. unfold bind. rewrite Hrun.
    pose proof (IH n w1) as F. cbv zeta in F.
    assert (Hnone' : forall k p, (oracle_calls w1 <= k < oracle_calls w1 + j)%nat ->
                                 send_recv E k p = None)
      by (intros k p Hk; apply Hnone; lia).
    assert (Hsome' : forall p, send_recv E (oracle_calls w1 + j) p = Some h)
      by (intros p; rewrite <- (Hsome p); f_equal; lia).
    assert (Hjn' : (j < n)%nat) by lia.
    destruct (F Hjn' Hs Hopen Hnone' Hsome' Hmeets) as [Fo Fh].
    split; lia.
Qed.

(** The same on a console that takes every line: the batch returns. *)
Lemma for_range_hit latest_ts h j : forall n w,
  console_ok E ->
  (j < n)%nat ->
  stop_event w = false ->
  deadline_open E latest_ts ->
  (3 <= sfuel)%nat ->
  (forall k p, (oracle_calls w <= k < oracle_calls w + j)%nat -> send_recv E k p = None) ->
  (forall p, send_recv E (oracle_calls w + j) p = Some h) ->
  hash_meets_difficulty h difficulty = Return true ->
  exists w',
    for_range n (body latest_ts) w = (Return tt, w') /\
    stop_event w' = submit_on_find self /\
    hashes w' = (hashes w + 1)%nat /\ solutions w' = (solutions w + 1)%nat /\
    oracle_calls w' = (oracle_calls w + j + 1)%nat /\
    (post_calls w <= post_calls w' <= post_calls w + 3)%nat.
Proof.
  induction j as [|j IH]; intros n w Hconsole Hjn Hstop Hopen Hfuel Hnone Hsome Hmeets;
    destruct n as [|n]; try lia.
  - destruct (attempt_hit latest_ts w h Hconsole Hstop Hopen Hfuel)
      as (w' & Hrun & Hs & Hh & Hso & Ho & Hp);
      [ intros p; rewrite <- (Hsome p); f_equal; lia | exact Hmeets | ].
    exists w'. cbn [for_range]. unfold bind. rewrite Hrun.
    repeat split; auto; lia.
  - destruct (attempt_miss latest_ts w Hstop Hopen) as (w1 & Hrun & Hs & Hh & Hso & Ho & Hp).
    { intros p. apply Hnone. lia. }
    destruct (IH n w1) as (w' & Hrest & Hs' & Hh' & Hso' & Ho' & Hp');
      try assumption; try lia.
    { intros k p Hk. apply Hnone. lia. }
    { intros p. rewrite <- (Hsome p). f_equal. lia. }
    exists w'. cbn [for_range]. unfold bind. rewrite Hrun.
    split; [exact Hrest|]. repeat split; try congruence; lia.
Qed.

(** A batch whose first attempt finds the deadline passed makes no
    exchange.  *)
Lemma for_range_expired ts n w :
  ts <> 0 ->
  ts < time_time E (clock_calls w) ->
  for_range (S n) (body (Some ts)) w
  = (Return tt, if stop_event w then w else next_clock w).
Proof.
  intros Hne Hlate. cbn [for_range]. unfold bind at 1. unfold attempt.
  unfold bind at 1. unfold is_set. destruct (stop_event w); [reflexivity|].
  unfold bind at 1. unfold expired.
  destruct (Z.eqb_spec ts 0) as [|_]; [contradiction|].
  unfold bind at 1. unfold now, ret.
  replace (ts <? time_time E (clock_calls w)) with true
    by (symmetry; now apply Z.ltb_lt).
  reflexivity.
Qed.

(** The pass of the outer loop over a published challenge. *)
Lemma iteration_batch w :
  challenge_getter E (getter_calls w) = Some challenge ->
  iteration E self sfuel w
  = for_range NONCE_BATCH (body (parse_latest E latest_submission)) (next_getter w).
Proof.
  intros Hget. destruct Hfields as (Hid & Hdiff & Hrom & Hlatest).
  unfold iteration. unfold bind at 1. unfold get_challenge. rewrite Hget.
  rewrite Hlatest. rewrite bool_decide_eq_false_2 by discriminate.
  unfold getitem. rewrite Hid, Hdiff, Hlatest.
  reflexivity.
Qed.

Lemma NONCE_BATCH_positive : (0 < NONCE_BATCH)%nat.
Proof. unfold NONCE_BATCH. apply Nat.lt_0_succ. Qed.

(** A daemon that leaves [misses] requests unanswered and then returns a
    digest meeting the difficulty: the worker gets to that request, and
    when it has dealt with it, whatever the console and the endpoint
    do, exactly one hash has been counted. *)
Lemma run_reaches h misses : forall w,
  (forall k, challenge_getter E k = Some challenge) ->
  deadline_open E (parse_latest E latest_submission) ->
  stop_event w = false ->
  (forall k p, (oracle_calls w <= k < oracle_calls w + misses)%nat ->
               send_recv E k p = None) ->
  (forall p, send_recv E (oracle_calls w + misses) p = Some h) ->
  hash_meets_difficulty h difficulty = Return true ->
  exists fuel w',
    snd (run E self fuel sfuel w) = w' /\
    oracle_calls w' = (oracle_calls w + misses + 1)%nat /\
    hashes w' = (hashes w + 1)%nat.
Proof.
  induction misses as [misses IH] using lt_wf_ind.
  intros w Hget Hopen Hstop Hnone Hsome Hmeets.
  pose proof NONCE_BATCH_positive as Hpos.
  destruct (Nat.lt_ge_cases misses NONCE_BATCH) as [Hin|Hout].
  - pose proof (for_range_hit_counts (parse_latest E latest_submission) h misses
                  NONCE_BATCH (next_getter w) Hin Hstop Hopen Hnone Hsome Hmeets) as F.
    cbv zeta in F. cbn [oracle_calls hashes next_getter] in F.
    assert (Hrun : snd (run E self 1 sfuel w)
                   = snd (for_range NONCE_BATCH
                            (body (parse_latest E latest_submission)) (next_getter w))).
    { cbn [run]. unfold bind at 1. unfold is_set at 1. rewrite Hstop.
      unfold bind at 1. rewrite (iteration_batch w (Hget _)).
      destruct (for_range NONCE_BATCH _ (next_getter w)) as [[[]| |] w1];
        cbn [snd]; try reflexivity.
      unfold bind, is_set. destruct (stop_event w1); reflexivity. }
    exists 1%nat. eexists. split; [reflexivity|]. rewrite Hrun. exact F.
  - destruct (for_range_misses (parse_latest E latest_submission) NONCE_BATCH
                (next_getter w) Hstop Hopen)
      as (w1 & Hbatch & Hs1 & Hh1 & Hso1 & Ho1 & Hp1).
    { intros k p Hk. apply Hnone. cbn in Hk. lia. }
    cbn [oracle_calls hashes solutions post_calls next_getter] in Ho1, Hh1, Hso1, Hp1.
    destruct (IH (misses - NONCE_BATCH)%nat ltac:(lia) w1 Hget Hopen Hs1)
      as (fuel & w' & Hrun & Ho & Hh); try assumption.
    { intros k p Hk. apply Hnone. lia. }
    { intros p. rewrite <- (Hsome p). f_equal. lia. }
    assert (Hstep : run E self (S fuel) sfuel w = run E self fuel sfuel w1).
    { cbn [run]. unfold bind at 1. unfold is_set at 1. rewrite Hstop.
      unfold bind at 1. now rewrite (iteration_batch w (Hget _)), Hbatch. }
    exists (S fuel), w'. rewrite Hstep.
    repeat split; try assumption; lia.
Qed.

(** On a console that takes every line the run gets through the
    submission as well. *)
Lemma run_scripted h misses : forall w,
  console_ok E ->
  (forall k, challenge_getter E k = Some challenge) ->
  deadline_open E (parse_latest E latest_submission) ->
  (3 <= sfuel)%nat ->
  stop_event w = false ->
  (forall k p, (oracle_calls w <= k < oracle_calls w + misses)%nat ->
               send_recv E k p = None) ->
  (forall p, send_recv E (oracle_calls w + misses) p = Some h) ->
  hash_meets_difficulty h difficulty = Return true ->
  exists fuel w',
    snd (run E self fuel sfuel w) = w' /\
    oracle_calls w' = (oracle_calls w + misses + 1)%nat /\
    hashes w' = (hashes w + 1)%nat /\
    solutions w' = (solutions w + 1)%nat /\
    stop_event w' = submit_on_find self /\
    (post_calls w <= post_calls w' <= post_calls w + 3)%nat /\
    (submit_on_find self = true -> run E self fuel sfuel w = (Return tt, w')).
Proof.
  induction misses as [misses IH] using lt_wf_ind.
  intros w Hconsole Hget Hopen Hfuel Hstop Hnone Hsome Hmeets.
  pose proof NONCE_BATCH_positive as Hpos.
  destruct (Nat.lt_ge_cases misses NONCE_BATCH) as [Hin|Hout].
  - destruct (for_range_hit (parse_latest E latest_submission) h misses NONCE_BATCH
                (next_getter w) Hconsole Hin Hstop Hopen Hfuel Hnone Hsome Hmeets)
      as (w' & Hbatch & Hs & Hh & Hso & Ho & Hp).
    assert (Hrun : run E self 1 sfuel w
                   = (if stop_event w' then Return tt else OutOfFuel, w')).
    { cbn [run]. unfold bind at 1. unfold is_set at 1. rewrite Hstop.
      unfold bind at 1. rewrite (iteration_batch w (Hget _)), Hbatch.
      unfold bind, is_set. destruct (stop_event w'); reflexivity. }
    cbn [oracle_calls hashes solutions post_calls next_getter] in Ho, Hh, Hso, Hp.
    exists 1%nat, w'. rewrite Hrun. cbn [snd].
    repeat split; try assumption; try lia.
    intros Hsubmit. now rewrite Hs, Hsubmit.
  - destruct (for_range_misses (parse_latest E latest_submission) NONCE_BATCH
                (next_getter w) Hstop Hopen)
      as (w1 & Hbatch & Hs1 & Hh1 & Hso1 & Ho1 & Hp1).
    { intros k p Hk. apply Hnone. cbn in Hk. lia. }
    cbn [oracle_calls hashes solutions post_calls next_getter] in Ho1, Hh1, Hso1, Hp1.
    destruct (IH (misses - NONCE_BATCH)%nat ltac:(lia) w1 Hconsole Hget Hopen Hfuel Hs1)
      as (fuel & w' & Hrun & Ho & Hh & Hso & Hs & Hp & Hret); try assumption.
    { intros k p Hk. apply Hnone. lia. }
    { intros p. rewrite <- (Hsome p). f_equal. lia. }
    assert (Hstep : run E self (S fuel) sfuel w = run E self fuel sfuel w1).
    { cbn [run]. unfold bind at 1. unfold is_set at 1. rewrite Hstop.
      unfold bind at 1. now rewrite (iteration_batch w (Hget _)), Hbatch. }
    exists (S fuel), w'. rewrite Hstep.
    repeat split; try assumption; lia.
Qed.

End Loop.

(** C4 as stated fails: with no reply to requests 1 and 2 and a digest
    meeting the difficulty on request 3 (N = 3), the hash counter of the
    worker is 1 after the third request, not N - 1 = 2. *)
Lemma hash_counter_is_not_requests_minus_one :
  let E := Example.scripted Example.row 2 Example.twice_503_then_201 in
  let w := snd (run E Example.me 5 5 initial_world) in
  send_recv E 0 (payload_at E Example.me (challenge_of_row Example.row) 0) = None /\
  send_recv E 1 (payload_at E Example.me (challenge_of_row Example.row) 1) = None /\
  send_recv E 2 (payload_at E Example.me (challenge_of_row Example.row) 2)
    = Some "00001234abcd" /\
  hash_meets_difficulty "00001234abcd" "0000ffff" = Return true /\
  oracle_calls w = 3%nat /\
  hashes w = 1%nat /\
  hashes w <> (3 - 1)%nat.
Proof. vm_compute. repeat split; try reflexivity. discriminate. Qed.

(** C4, as the code has it. An attempt whose exchange gets no reply
    leaves the hash counter alone; an attempt whose exchange gets a line
    puts the counter up by exactly one, before the difficulty test.  So
    with a daemon that leaves requests 1..N-1 unanswered and answers
    request N with a digest meeting the difficulty, the worker reaches
    request N and its hash counter is then exactly 1. *)
Theorem hash_counter_counts_replies E self sfuel challenge
    challenge_id difficulty no_pre_mine latest_submission latest_ts w N h :
  has_fields challenge challenge_id difficulty no_pre_mine latest_submission ->
  (stop_event w = false ->
   deadline_open E latest_ts ->
   let payload := payload_at E self challenge (random_calls w) in
   let res := attempt E self sfuel challenge difficulty challenge_id latest_ts w in
   oracle_calls (snd res) = S (oracle_calls w) /\
   match send_recv E (oracle_calls w) payload with
   | None => hashes (snd res) = hashes w
   | Some line =>
       hashes (snd res) = (hashes w + 1)%nat /\
       exists met steps,
         hash_meets_difficulty line difficulty = Return met /\
         trace (snd res)
         = trace w ++ [EvExchange payload (Some line); EvHashCounted;
                       EvDifficulty line difficulty met] ++ steps
   end) /\
  ((forall k, challenge_getter E k = Some challenge) ->
   deadline_open E (parse_latest E latest_submission) ->
   (3 <= sfuel)%nat ->
   stop_event w = false -> oracle_calls w = 0%nat -> hashes w = 0%nat ->
   (1 <= N)%nat ->
   (forall k p, (k < N - 1)%nat -> send_recv E k p = None) ->
   (forall p, send_recv E (N - 1) p = Some h) ->
   hash_meets_difficulty h difficulty = Return true ->
   exists fuel w',
     snd (run E self fuel sfuel w) = w' /\
     oracle_calls w' = N /\
     hashes w' = 1%nat).
Proof.
  intros Hfields. split.
  - intros Hstop Hopen. now apply (attempt_counts E self sfuel challenge _ _ _ _ Hfields).
  - intros Hget Hopen Hfuel Hstop Ho Hh HN Hnone Hsome Hmeets.
    destruct (run_reaches E self sfuel challenge _ _ _ _ Hfields h (N - 1) w
                Hget Hopen Hstop)
      as (fuel & w' & Hrun & Ho' & Hh'); try assumption.
    + intros k p Hk. apply Hnone. lia.
    + intros p. rewrite Ho. apply Hsome.
    + exists fuel, w'. split; [exact Hrun|]. split; lia.
Qed.

Lemma example_row_fields :
  has_fields (challenge_of_row Example.row)
    "c1" "0000ffff" "rom" "2099-12-31T23:59:59.000Z".
Proof. repeat split; reflexivity. Qed.

Lemma hash_counter_counts_replies_witness :
  let E := Example.scripted Example.row 2 Example.twice_503_then_201 in
  exists fuel w',
    snd (run E Example.me fuel 3 initial_world) = w' /\
    oracle_calls w' = 3%nat /\
    hashes w' = 1%nat.
Proof.
  intros E.
  refine (proj2 (hash_counter_counts_replies E Example.me 3 (challenge_of_row Example.row)
            "c1" "0000ffff" "rom" "2099-12-31T23:59:59.000Z" None initial_world 3
            "00001234abcd" example_row_fields) _ _ _ _ _ _ _ _ _ _).
  - intros k. reflexivity.
  - right. intros k. vm_compute. discriminate.
  - lia.
  - reflexivity.
  - reflexivity.
  - reflexivity.
  - lia.
  - intros k p Hk. unfold E. unfold Example.scripted; cbn [send_recv Example.scripted_on].
    replace (k <? 2)%nat with true by (symmetry; apply Nat.ltb_lt; lia). reflexivity.
  - intros p. reflexivity.
  - reflexivity.
Defined.

(** C5. The preimage is the seven fields in the order nonce, address,
    challenge_id, difficulty, no_pre_mine, latest_submission,
    no_pre_mine_hour (empty when absent), with nothing in between; the
    line a worker sends to the daemon is no_pre_mine, one ["|"], and the
    preimage of the nonce it has just drawn. *)
Theorem oracle_payload_layout E self sfuel challenge
    challenge_id difficulty no_pre_mine latest_submission latest_ts w nonce_hex addr :
  has_fields challenge challenge_id difficulty no_pre_mine latest_submission ->
  let hour := default EmptyString (challenge !! "no_pre_mine_hour") in
  build_preimage nonce_hex addr challenge
    = Return (nonce_hex +:+ addr +:+ challenge_id +:+ difficulty +:+ no_pre_mine
              +:+ latest_submission +:+ hour) /\
  pre_with_rom nonce_hex addr challenge
    = Return (no_pre_mine +:+ "|" +:+ nonce_hex +:+ addr +:+ challenge_id +:+ difficulty
              +:+ no_pre_mine +:+ latest_submission +:+ hour) /\
  (stop_event w = false ->
   deadline_open E latest_ts ->
   let nonce := nonce_at E (random_calls w) in
   let payload := no_pre_mine +:+ "|" +:+ nonce +:+ address self +:+ challenge_id
                  +:+ difficulty +:+ no_pre_mine +:+ latest_submission +:+ hour in
   exists steps,
     trace (snd (attempt E self sfuel challenge difficulty challenge_id latest_ts w))
     = trace w ++ EvExchange payload (send_recv E (oracle_calls w) payload) :: steps).
Proof.
  intros Hfields hour. pose proof Hfields as (Hid & Hdiff & Hrom & Hlatest).
  split; [|split].
  - now apply build_preimage_fields.
  - now apply pre_with_rom_fields.
  - intros Hstop Hopen nonce payload.
    pose proof (attempt_sends E self sfuel challenge _ _ _ _ Hfields latest_ts w
                  Hstop Hopen) as Hsends.
    cbv zeta in Hsends. unfold payload_at in Hsends.
    rewrite Hid, Hdiff, Hrom, Hlatest in Hsends. exact Hsends.
Qed.

Lemma oracle_payload_layout_witness :
  build_preimage "00000000000f4240" "addr1" (challenge_of_row Example.row)
    = Return "00000000000f4240addr1c10000ffffrom2099-12-31T23:59:59.000Z7" /\
  pre_with_rom "00000000000f4240" "addr1" (challenge_of_row Example.row)
    = Return "rom|00000000000f4240addr1c10000ffffrom2099-12-31T23:59:59.000Z7".
Proof.
  pose proof (oracle_payload_layout
                (Example.scripted Example.row 0 Example.always_500) Example.me 3
                (challenge_of_row Example.row)
                "c1" "0000ffff" "rom" "2099-12-31T23:59:59.000Z" None initial_world
                "00000000000f4240" "addr1" example_row_fields) as (Hpre & Hpay & _).
  split; [exact Hpre | exact Hpay].
Defined.

(** A deadline that parses, is not the epoch and is behind the clock: the
    pass makes no exchange and returns to the acquisition of the
    challenge. *)
Lemma past_deadline_no_exchange E self sfuel challenge
    challenge_id difficulty no_pre_mine latest_submission w ts :
  has_fields challenge challenge_id difficulty no_pre_mine latest_submission ->
  challenge_getter E (getter_calls w) = Some challenge ->
  parse_latest E latest_submission = Some ts ->
  ts <> 0 ->
  ts < time_time E (clock_calls w) ->
  stop_event w = false ->
  iteration E self sfuel w = (Return tt, next_clock (next_getter w)) /\
  oracle_calls (snd (iteration E self sfuel w)) = oracle_calls w /\
  trace (snd (iteration E self sfuel w)) = trace w.
Proof.
  intros Hfields Hget Hparse Hne Hlate Hstop.
  rewrite (iteration_batch E self sfuel challenge _ _ _ _ Hfields w Hget), Hparse.
  change NONCE_BATCH with (S 1023).
  rewrite for_range_expired by assumption.
  cbn [stop_event next_getter]. rewrite Hstop. repeat split.
Qed.

(** A deadline that does not parse: the attempt reads no clock and makes
    its exchange. *)
Lemma unparsed_deadline_no_check E self sfuel challenge
    challenge_id difficulty no_pre_mine latest_submission w :
  has_fields challenge challenge_id difficulty no_pre_mine latest_submission ->
  stop_event w = false ->
  expired E None w = (Return false, w) /\
  let res := attempt E self sfuel challenge difficulty challenge_id None w in
  oracle_calls (snd res) = S (oracle_calls w).
Proof.
  intros Hfields Hstop. split; [reflexivity|].
  now apply (attempt_counts E self sfuel challenge _ _ _ _ Hfields None w Hstop).
Qed.

(** C6, where the code misses it. When the deadline is the epoch itself,
    which is in the past at any reading of the clock after 1970, the
    parsed timestamp is the number 0, the test [latest_ts and ...] takes
    it for "no deadline", and the pass over the challenge does exchange
    with the daemon. *)
Theorem epoch_deadline_not_enforced E self sfuel challenge
    challenge_id difficulty no_pre_mine latest_submission w :
  has_fields challenge challenge_id difficulty no_pre_mine latest_submission ->
  challenge_getter E (getter_calls w) = Some challenge ->
  parse_latest E latest_submission = Some 0 ->
  (forall k, 0 < time_time E k) ->
  stop_event w = false ->
  (oracle_calls w < oracle_calls (snd (iteration E self sfuel w)))%nat.
Proof.
  intros Hfields Hget Hparse Hpast Hstop.
  rewrite (iteration_batch E self sfuel challenge _ _ _ _ Hfields w Hget), Hparse.
  pose proof NONCE_BATCH_positive as Hpos. revert Hpos. generalize NONCE_BATCH.
  intros [|n] Hpos; [lia|]. cbn [for_range]. unfold bind.
  pose proof (attempt_counts E self sfuel challenge _ _ _ _ Hfields (Some 0)
                (next_getter w) Hstop (or_introl eq_refl)) as [Hfirst _].
  cbv zeta in Hfirst. cbn [oracle_calls next_getter] in Hfirst.
  destruct (attempt E self sfuel challenge difficulty challenge_id (Some 0)
              (next_getter w)) as [[[|]| |] w1]; cbn [snd ret] in *; try lia.
  pose proof (oracle_mono_for_range n _
                (oracle_mono_attempt E self sfuel challenge difficulty challenge_id
                   (Some 0)) w1).
  lia.
Qed.

Lemma past_row_fields :
  has_fields (challenge_of_row Example.past_row)
    "c1" "0000ffff" "rom" "2020-01-01T00:00:00Z".
Proof. repeat split; reflexivity. Qed.

(** A deadline of 2020 seen from 2025: the pass reads the clock once and
    leaves the daemon alone. *)
Example past_row_no_exchange :
  let E := Example.scripted Example.past_row 0 Example.twice_503_then_201 in
  iteration E Example.me 3 initial_world
  = (Return tt, next_clock (next_getter initial_world)).
Proof.
  intros E.
  apply (past_deadline_no_exchange E Example.me 3 (challenge_of_row Example.past_row)
           "c1" "0000ffff" "rom" "2020-01-01T00:00:00Z" initial_world 1577836800000000
           past_row_fields); first [ reflexivity | discriminate ].
Qed.

Lemma epoch_row_fields :
  has_fields (challenge_of_row Example.epoch_row)
    "c1" "0000ffff" "rom" "1970-01-01T00:00:00Z".
Proof. repeat split; reflexivity. Qed.

Lemma epoch_deadline_not_enforced_witness :
  let E := Example.scripted Example.epoch_row 0 Example.twice_503_then_201 in
  parse_latest E "1970-01-01T00:00:00Z" = Some 0 /\
  (forall k, 0 < time_time E k) /\
  (0 < oracle_calls (snd (iteration E Example.me 3 initial_world)))%nat.
Proof.
  intros E.
  assert (Hparse : parse_latest E "1970-01-01T00:00:00Z" = Some 0) by reflexivity.
  assert (Hpast : forall k, 0 < time_time E k) by (intros k; reflexivity).
  refine (conj Hparse (conj Hpast _)).
  exact (epoch_deadline_not_enforced E Example.me 3 (challenge_of_row Example.epoch_row)
           "c1" "0000ffff" "rom" "1970-01-01T00:00:00Z" initial_world
           epoch_row_fields eq_refl Hparse Hpast eq_refl).
Defined.

(* ===================================================================== *)
(** * Further properties: nonces, preimages, the challenge list *)
(* ===================================================================== *)

Lemma below_16_cases (P : N -> Prop) :
  (forall k : nat, (k < 16)%nat -> P (N.of_nat k)) -> forall d, (d < 16)%N -> P d.
Proof. intros H d Hd. rewrite <- (N2Nat.id d). apply H. lia. Qed.

Lemma hex_char_lower d :
  (d < 16)%N ->
  is_lower_hex (Py.hex_char d) = true /\
  hex_char_value (Py.hex_char d) = Some (Z.of_N d).
Proof.
  revert d. apply below_16_cases. intros k Hk.
  do 16 (destruct k as [|k]; [split; reflexivity|]). lia.
Qed.

Lemma hex_fixed_shape width n :
  String.length (Py.hex_fixed width n) = width /\
  all_chars is_lower_hex (Py.hex_fixed width n) = true.
Proof.
  induction width as [|width [IHl IHc]]; [split; reflexivity|].
  cbn [Py.hex_fixed String.length all_chars]. rewrite IHl, IHc.
  destruct (hex_char_lower ((n / 16 ^ N.of_nat width) mod 16)%N) as [-> _];
    [apply N.mod_lt; discriminate | split; reflexivity].
Qed.

Lemma hex_fixed_value width : forall n acc,
  hex_value_from acc (Py.hex_fixed width n)
  = Some (acc * 16 ^ Z.of_nat width + Z.of_N (n mod 16 ^ N.of_nat width)).
Proof.
  induction width as [|width IH]; intros n acc.
  - cbn. rewrite N.mod_1_r. f_equal. lia.
  - cbn [Py.hex_fixed hex_value_from].
    destruct (hex_char_lower ((n / 16 ^ N.of_nat width) mod 16)%N) as [_ ->];
      [apply N.mod_lt; discriminate|].
    rewrite IH. f_equal.
    rewrite Nat2N.inj_succ, N.pow_succ_r', (N.mul_comm 16), N.Div0.mod_mul_r.
    rewrite Nat2Z.inj_succ, Z.pow_succ_r by lia.
    rewrite N2Z.inj_add, N2Z.inj_mul, N2Z.inj_pow.
    change (Z.of_N 16) with 16. rewrite nat_N_Z. ring.
Qed.

(** X1. [hex64_nonce] always returns sixteen characters, each one of
    0-9, a-f, and draws exactly one random number. *)
Theorem hex64_nonce_shape E w :
  exists nonce,
    hex64_nonce E w = (Return nonce, next_random w) /\
    String.length nonce = 16%nat /\
    all_chars is_lower_hex nonce = true.
Proof.
  eexists. split; [reflexivity|]. apply hex_fixed_shape.
Qed.

(** X2. The nonce reads back, with [int(., 16)], as the 64 random bits it
    was made from; so two draws give the same nonce exactly when they
    drew the same 64 bits. *)
Theorem hex64_nonce_round_trip E j k :
  Py.int16 (nonce_at E j) = Return (Z.of_N (getrandbits64 E j mod 2 ^ 64)) /\
  (nonce_at E j = nonce_at E k <->
   (getrandbits64 E j mod 2 ^ 64 = getrandbits64 E k mod 2 ^ 64)%N).
Proof.
  assert (Hval : forall i,
    hex_value (nonce_at E i) = Some (Z.of_N (getrandbits64 E i mod 2 ^ 64))).
  { intros i. unfold nonce_at, Py.format_016x.
    set (n := (getrandbits64 E i mod 2 ^ 64)%N).
    assert (Hn : (n < 2 ^ 64)%N) by (apply N.mod_lt; discriminate).
    pose proof (hex_fixed_value 16 n 0) as H.
    change (16 ^ N.of_nat 16)%N with (2 ^ 64)%N in H.
    rewrite N.mod_small in H by exact Hn. rewrite Z.mul_0_l, Z.add_0_l in H.
    exact H. }
  split.
  - apply int16_hex, Hval.
  - split.
    + intros Heq. pose proof (Hval j) as Hj. rewrite Heq, Hval in Hj.
      injection Hj as Hj. now apply N2Z.inj.
    + intros Heq. unfold nonce_at. now rewrite Heq.
Qed.

(** X3. [build_preimage] returns a string exactly when the challenge has
    the four keys it indexes; otherwise it raises [KeyError] for the first
    missing one in the order challenge_id, difficulty, no_pre_mine,
    latest_submission, whatever the nonce and the address.  A missing
    no_pre_mine_hour never raises. *)
Theorem build_preimage_key_errors nonce_hex addr (challenge : gmap string string) :
  ((exists pre, build_preimage nonce_hex addr challenge = Return pre) <->
   is_Some (challenge !! "challenge_id") /\ is_Some (challenge !! "difficulty") /\
   is_Some (challenge !! "no_pre_mine") /\ is_Some (challenge !! "latest_submission")) /\
  (challenge !! "challenge_id" = None ->
   build_preimage nonce_hex addr challenge = Raise (KeyError "challenge_id")) /\
  (is_Some (challenge !! "challenge_id") -> challenge !! "difficulty" = None ->
   build_preimage nonce_hex addr challenge = Raise (KeyError "difficulty")) /\
  (is_Some (challenge !! "challenge_id") -> is_Some (challenge !! "difficulty") ->
   challenge !! "no_pre_mine" = None ->
   build_preimage nonce_hex addr challenge = Raise (KeyError "no_pre_mine")) /\
  (is_Some (challenge !! "challenge_id") -> is_Some (challenge !! "difficulty") ->
   is_Some (challenge !! "no_pre_mine") -> challenge !! "latest_submission" = None ->
   build_preimage nonce_hex addr challenge = Raise (KeyError "latest_submission")).
Proof.
  unfold build_preimage, getitem.
  destruct (challenge !! "challenge_id") as [a|] eqn:Ha;
  destruct (challenge !! "difficulty") as [b|] eqn:Hb;
  destruct (challenge !! "no_pre_mine") as [c|] eqn:Hc;
  destruct (challenge !! "latest_submission") as [d|] eqn:Hd;
  cbn [obind];
  (split; [split; [intros [pre Hpre]; first [discriminate Hpre | eauto 6]
                  | intros (H1 & H2 & H3 & H4);
                    first [ eexists; reflexivity
                          | exfalso; eapply is_Some_None; eassumption ] ]
          | repeat split; intros;
            first [ reflexivity | discriminate
                  | exfalso; eapply is_Some_None; eassumption ] ]).
Qed.

Lemma build_preimage_key_errors_witness :
  build_preimage "00000000000f4240" "addr1" (<["challenge_id" := "c1"]> ∅)
  = Raise (KeyError "difficulty").
Proof.
  refine (proj1 (proj2 (proj2
    (build_preimage_key_errors "00000000000f4240" "addr1" (<["challenge_id" := "c1"]> ∅))))
    _ _).
  - eexists. reflexivity.
  - reflexivity.
Defined.

Lemma string_app_assoc (a b c : string) : (a +:+ b) +:+ c = a +:+ b +:+ c.
Proof.
  induction a as [|x a IH]; [reflexivity|].
  change (String x ((a +:+ b) +:+ c) = String x (a +:+ b +:+ c)). now f_equal.
Qed.

(** X4. The preimage does not tell where the nonce ends and the address
    begins: moving characters from the end of the nonce to the front of
    the address gives the same preimage and the same line for the
    daemon. *)
Theorem build_preimage_boundary x y z (challenge : gmap string string) :
  build_preimage (x +:+ y) z challenge = build_preimage x (y +:+ z) challenge /\
  pre_with_rom (x +:+ y) z challenge = pre_with_rom x (y +:+ z) challenge.
Proof.
  assert (H : build_preimage (x +:+ y) z challenge
              = build_preimage x (y +:+ z) challenge).
  { unfold build_preimage.
    destruct (getitem challenge "challenge_id"); cbn [obind]; try reflexivity.
    destruct (getitem challenge "difficulty"); cbn [obind]; try reflexivity.
    destruct (getitem challenge "no_pre_mine"); cbn [obind]; try reflexivity.
    destruct (getitem challenge "latest_submission"); cbn [obind]; try reflexivity.
    rewrite !join_empty_seven. now rewrite !string_app_assoc. }
  split; [exact H|]. unfold pre_with_rom. now rewrite H.
Qed.

(** ** [str.strip] *)

Lemma rstrip_idem s : Py.rstrip (Py.rstrip s) = Py.rstrip s.
Proof.
  induction s as [|c r IH]; [reflexivity|]. cbn [Py.rstrip].
  destruct (Py.rstrip r) as [|d r'] eqn:Hr.
  - destruct (Py.unicode_isspace c) eqn:Hc; [reflexivity|].
    cbn [Py.rstrip]. now rewrite Hc.
  - cbn [Py.rstrip]. cbn [Py.rstrip] in IH. now rewrite IH.
Qed.

Lemma lstrip_head s :
  match Py.lstrip s with
  | String c _ => Py.unicode_isspace c = false
  | EmptyString => True
  end.
Proof.
  induction s as [|c r IH]; [exact I|]. cbn [Py.lstrip].
  destruct (Py.unicode_isspace c) eqn:Hc; [exact IH | exact Hc].
Qed.

Lemma lstrip_rstrip_clean c r :
  Py.unicode_isspace c = false ->
  Py.lstrip (Py.rstrip (String c r)) = Py.rstrip (String c r).
Proof.
  intros Hc. cbn [Py.rstrip]. rewrite Hc.
  destruct (Py.rstrip r); cbn [Py.lstrip]; now rewrite Hc.
Qed.

Lemma strip_idem s : Py.strip (Py.strip s) = Py.strip s.
Proof.
  unfold Py.strip. pose proof (lstrip_head s) as Hhead.
  destruct (Py.lstrip s) as [|c r]; [reflexivity|].
  rewrite (lstrip_rstrip_clean c r Hhead). apply rstrip_idem.
Qed.

(** ** The challenge list *)

(** On a file that the reader reads to its end, with the line of l.188
    written, the function with the reader and the console is the one on
    the list of rows. *)
Lemma read_challenges_from_reader_complete E rows w :
  let result := read_challenges_from_csv (Some rows) in
  forall challenges,
    result = Return challenges ->
    print_raises E (print_calls w) (MsgLoaded (length challenges)) = None ->
    read_challenges_from_reader E (Some {| yielded := rows; failure := None |}) w
    = (result, printed (MsgLoaded (length challenges)) w).
Proof.
  intros result challenges Hresult Hprint. subst result.
  destruct rows as [|header rows]; [discriminate Hresult|].
  cbn in Hresult. injection Hresult as <-.
  unfold read_challenges_from_reader, try_prog, bind, lift, read_reader, print.
  cbn [yielded failure]. rewrite Hprint. reflexivity.
Qed.

(** X5. How [read_challenges_from_csv] ends.  When the file cannot be
    opened, has no header row, or the reader raises on any row, header or
    later, the [except] branch is entered and the process exits with
    status 1 (given that its line is written): no list is returned, also
    not for the rows read before the failure.  When the file is read to
    its end the challenges are at most one per data row and do not
    depend on the header row; they are returned when the line of l.188 is
    written, and when it is not the [except] branch is entered all the
    same. *)
Theorem read_challenges_outcomes E file w :
  let out := fst (read_challenges_from_reader E file w) in
  match file with
  | None => exits_after E OSError (print_calls w) out
  | Some {| yielded := []; failure := f |} =>
      exits_after E (default StopIteration f) (print_calls w) out
  | Some {| yielded := header :: rows; failure := Some e |} =>
      exits_after E e (print_calls w) out
  | Some {| yielded := header :: rows; failure := None |} =>
      let result := read_rows rows [] in
      (length result <= length rows)%nat /\
      read_challenges_from_csv (Some (header :: rows)) = Return result /\
      (forall header',
         fst (read_challenges_from_reader E
                (Some {| yielded := header' :: rows; failure := None |}) w) = out) /\
      match print_raises E (print_calls w) (MsgLoaded (length result)) with
      | None => out = Return result
      | Some e => exits_after E e (S (print_calls w)) out
      end
  end.
Proof.
  intros out. subst out.
  unfold read_challenges_from_reader, exits_after, try_prog, bind, lift, read_reader, print.
  destruct file as [[[|header rows] [e|]]|]; cbn [yielded failure default from_option id];
    cbn [print_calls next_print];
    try (destruct (is_Exception e); [|reflexivity];
         destruct (print_raises E (print_calls w) (MsgReadError e)); reflexivity);
    try (cbn [is_Exception];
         destruct (print_raises E (print_calls w) _); reflexivity).
  split; [|split; [reflexivity|split; [reflexivity|]]].
  - rewrite read_rows_filter. cbn [app]. rewrite length_map.
    apply List.filter_length_le.
  - destruct (print_raises E (print_calls w) (MsgLoaded _)) as [e|]; [|reflexivity].
    destruct (is_Exception e); [|reflexivity]. cbn [print_calls next_print].
    destruct (print_raises E (S (print_calls w)) (MsgReadError e)); reflexivity.
Qed.

Lemma cell_in_range row i dflt :
  (i < length row)%nat -> cell row i dflt = Py.strip (default EmptyString (row !! i)).
Proof.
  intros Hi. unfold cell.
  now replace (i <? length row)%nat with true by (symmetry; apply Nat.ltb_lt; lia).
Qed.

(** X6. Every challenge [read_challenges_from_csv] returns comes from a
    data row with at least five columns; it has exactly the five keys, its
    values are the cells with the white space at both ends removed (so the
    deadline is the fifth cell, never the default), and its identifier,
    difficulty and no_pre_mine are not empty. *)
Theorem read_challenges_values header rows result challenge :
  read_challenges_from_csv (Some (header :: rows)) = Return result ->
  In challenge result ->
  exists row,
    In row rows /\ (5 <= length row)%nat /\
    challenge = challenge_of_row row /\
    dom challenge = challenge_keys /\
    (forall key v, challenge !! key = Some v -> trimmed v) /\
    challenge !! "latest_submission" = Some (Py.strip (default EmptyString (row !! 4%nat))) /\
    required_fields challenge = true.
Proof.
  rewrite read_challenges_from_csv_rows. intros [= <-] Hin.
  apply in_map_iff in Hin as (row & <- & Hrow).
  apply filter_In in Hrow as [Hrow Hkept].
  unfold row_kept in Hkept. apply andb_prop in Hkept as [Hlen Hreq].
  apply Nat.leb_le in Hlen.
  exists row.
  split; [exact Hrow|]. split; [exact Hlen|]. split; [reflexivity|].
  split; [|split; [|split; [|exact Hreq]]].
  - unfold challenge_of_row, challenge_keys. rewrite !dom_insert_L, dom_empty_L.
    set_solver.
  - intros key v. unfold challenge_of_row.
    rewrite !lookup_insert_Some, lookup_empty.
    intros Hv. unfold trimmed.
    repeat match type of Hv with
           | _ \/ _ => destruct Hv as [[_ <-] | [_ Hv]]
           end;
      first [ discriminate Hv
            | rewrite cell_in_range by lia; apply strip_idem ].
  - destruct (challenge_of_row_lookup row) as (_ & _ & _ & _ & ->).
    now rewrite cell_in_range by lia.
Qed.

Lemma read_challenges_values_witness :
  exists row,
    In row [Example.row] /\ (5 <= length row)%nat /\
    challenge_of_row Example.row = challenge_of_row row /\
    dom (challenge_of_row Example.row) = challenge_keys.
Proof.
  assert (Hread : read_challenges_from_csv (Some [["id"; "d"; "r"; "h"; "l"]; Example.row])
                  = Return [challenge_of_row Example.row]) by reflexivity.
  assert (Hin : In (challenge_of_row Example.row) [challenge_of_row Example.row])
    by (left; reflexivity).
  destruct (read_challenges_values _ _ _ _ Hread Hin) as (row & H1 & H2 & H3 & H4 & _).
  exists row. auto.
Defined.

(** ** The submission URL *)

Lemma rstrip_slash_one s : Py.rstrip_slash (s +:+ "/") = Py.rstrip_slash s.
Proof.
  induction s as [|c r IH]; [reflexivity|].
  change (String c r +:+ "/") with (String c (r +:+ "/")).
  cbn [Py.rstrip_slash]. now rewrite IH.
Qed.

Lemma rstrip_slash_slashes k : forall s,
  Py.rstrip_slash (s +:+ slashes k) = Py.rstrip_slash s.
Proof.
  induction k as [|k IH]; intros s; cbn [slashes].
  - now rewrite append_empty_r.
  - change (String "/"%char (slashes k)) with ("/" +:+ slashes k).
    now rewrite <- string_app_assoc, IH, rstrip_slash_one.
Qed.

Lemma rstrip_slash_last s : last_char (Py.rstrip_slash s) <> Some "/"%char.
Proof.
  induction s as [|c r IH]; [discriminate|]. cbn [Py.rstrip_slash].
  destruct (Py.rstrip_slash r) as [|d r'] eqn:Hr.
  - destruct (Z.eqb_spec (Py.ord c) 47) as [Heq|Hne]; [discriminate|].
    cbn. intros [= ->]. now apply Hne.
  - exact IH.
Qed.

(** X7. Slashes at the end of the base URL do not change where
    [post_solution] posts: the URL is the base without its trailing
    slashes, which therefore does not end in a slash, followed by
    [/solution/<address>/<challenge_id>/<nonce>]. *)
Theorem post_solution_trailing_slashes E url_base k addr challenge_id nonce w :
  post_solution E (url_base +:+ slashes k) addr challenge_id nonce w
    = post_solution E url_base addr challenge_id nonce w /\
  solution_url (url_base +:+ slashes k) addr challenge_id nonce
    = Py.rstrip_slash url_base +:+ "/solution/" +:+ addr +:+ "/" +:+ challenge_id
      +:+ "/" +:+ nonce /\
  last_char (Py.rstrip_slash url_base) <> Some "/"%char.
Proof.
  assert (Hurl : solution_url (url_base +:+ slashes k) addr challenge_id nonce
                 = solution_url url_base addr challenge_id nonce)
    by (unfold solution_url; now rewrite rstrip_slash_slashes).
  split; [|split].
  - unfold post_solution. now rewrite Hurl.
  - rewrite Hurl. reflexivity.
  - apply rstrip_slash_last.
Qed.

(** ** The error log file *)



(* ===================================================================== *)
(** * Further properties: what a worker run can and cannot do *)
(* ===================================================================== *)

(** ** The worker only adds *)

Lemma grows_submit_attempt E self c n attempts sc :
  within grows (submit_attempt E self c n attempts sc).
Proof. unfold submit_attempt, submit_except, post_solution. within_steps. Qed.

#[local] Hint Resolve grows_submit_attempt : within.

Lemma grows_submit_while E self sfuel : forall c n attempts sc,
  within grows (submit_while E self sfuel c n attempts sc).
Proof.
  induction sfuel as [|sfuel IH]; intros c n attempts sc; cbn [submit_while];
    within_steps.
Qed.

#[local] Hint Resolve grows_submit_while : within.

Lemma grows_attempt E self sfuel ch d c latest_ts :
  within grows (attempt E self sfuel ch d c latest_ts).
Proof. unfold attempt, found, submit, expired. within_steps. Qed.

#[local] Hint Resolve grows_attempt : within.

Lemma grows_iteration E self sfuel : within grows (iteration E self sfuel).
Proof. unfold iteration. within_steps. Qed.

#[local] Hint Resolve grows_iteration : within.

(** X9. Whatever the environment does and however long it runs, a
    worker only adds to the shared state: it never clears a stop event
    that is set, never lowers the hash or solution counter, and never
    removes or rewrites an entry of the error log. *)
Theorem run_only_adds E self fuel sfuel w :
  let w' := snd (run E self fuel sfuel w) in
  (stop_event w = true -> stop_event w' = true) /\
  (hashes w <= hashes w')%nat /\
  (solutions w <= solutions w')%nat /\
  (exists more, errors w' = errors w ++ more) /\
  (exists more, trace w' = trace w ++ more).
Proof.
  assert (H : within grows (run E self fuel sfuel)).
  { induction fuel as [|fuel IH]; cbn [run]; within_steps. }
  destruct (H w) as (S1 & H1 & So1 & _ & _ & _ & _ & _ & E1 & T1). cbv zeta. auto.
Qed.

Lemma run_only_adds_witness :
  let E := Example.scripted Example.row 0 Example.always_500 in
  stop_event (snd (run E Example.me 2 3 (with_stop initial_world))) = true.
Proof.
  intros E.
  exact (proj1 (run_only_adds E Example.me 2 3 (with_stop initial_world)) eq_refl).
Defined.

(** ** Every count is backed by the one before it *)

Lemma accounted_attempt E self sfuel ch d c latest_ts :
  within accounted (attempt E self sfuel ch d c latest_ts).
Proof.
  unfold attempt.
  apply within_bind; try typeclasses eauto; [within_leaf | intros stop].
  destruct stop; [within_leaf|].
  apply within_bind; try typeclasses eauto; [unfold expired; within_steps | intros late].
  destruct late; [within_leaf|].
  apply within_bind; try typeclasses eauto; [within_leaf | intros nonce].
  apply within_bind; try typeclasses eauto; [within_leaf | intros payload].
  intros w. unfold bind at 1. unfold send_pre_and_recv_hash.
  destruct (send_recv E (oracle_calls w) payload) as [h|]; [|hnf; cbn; lia].
  unfold bind at 1. unfold add_hashes. unfold bind at 1. unfold lift.
  destruct (hash_meets_difficulty h d) as [[|]| |]; try (hnf; cbn; lia).
  unfold bind at 1. unfold note.
  match goal with |- context [found E self sfuel c nonce h ?w2] =>
    pose proof (found_frame E self sfuel c nonce h w2) as F; cbv zeta in F;
    destruct (found E self sfuel c nonce h w2) as [out w3]
  end.
  cbn [snd] in *. destruct F as (Fh & Fo & _ & Fs & _ & Fp & Fe & _).
  cbn in Fh, Fo, Fs, Fp, Fe. hnf. lia.
Qed.

#[local] Hint Resolve accounted_attempt : within.

Lemma accounted_iteration E self sfuel : within accounted (iteration E self sfuel).
Proof. unfold iteration. within_steps. Qed.

#[local] Hint Resolve accounted_iteration : within.

(** X10. Over any stretch of a worker run, whatever the environment
    does: the error log gains at most one entry per POST, at most three
    POSTs are made per solution counted, a solution is only counted for a
    hash counted, and a hash is only counted for an exchange with the
    daemon. *)
Theorem run_accounting E self fuel sfuel w :
  let w' := snd (run E self fuel sfuel w) in
  (length (errors w') + post_calls w <= length (errors w) + post_calls w')%nat /\
  (post_calls w' + 3 * solutions w <= post_calls w + 3 * solutions w')%nat /\
  (solutions w' + hashes w <= solutions w + hashes w')%nat /\
  (hashes w' + oracle_calls w <= hashes w + oracle_calls w')%nat.
Proof.
  assert (H : within accounted (run E self fuel sfuel)).
  { induction fuel as [|fuel IH]; cbn [run]; within_steps. }
  exact (H w).
Qed.

(** ** A worker that does not submit *)

Lemma no_submission_attempt E self sfuel ch d c latest_ts :
  submit_on_find self = false ->
  within no_submission (attempt E self sfuel ch d c latest_ts).
Proof.
  intros Hsub. unfold attempt, found, expired. rewrite Hsub. cbv iota. within_steps.
Qed.

Lemma no_submission_iteration E self sfuel :
  submit_on_find self = false -> within no_submission (iteration E self sfuel).
Proof.
  intros Hsub. pose proof (no_submission_attempt E self sfuel) as Hattempt.
  unfold iteration. within_steps.
Qed.

(** X11. A worker created with [submit_on_find] false never posts, never
    logs an error and never sets the stop event; started with the stop
    event clear, its run loop does not return, whatever fuel it is
    given. *)
Theorem run_without_submission E self fuel sfuel w :
  submit_on_find self = false ->
  stop_event w = false ->
  let res := run E self fuel sfuel w in
  post_calls (snd res) = post_calls w /\
  errors (snd res) = errors w /\
  stop_event (snd res) = false /\
  fst res <> Return tt.
Proof.
  intros Hsub. revert w.
  induction fuel as [|fuel IH]; intros w Hstop res; subst res.
  - assert (Hrun : run E self 0 sfuel w = (OutOfFuel, w))
      by (cbn [run]; unfold bind, is_set; now rewrite Hstop).
    rewrite Hrun. cbn [fst snd].
    split; [reflexivity|]. split; [reflexivity|]. split; [exact Hstop|]. discriminate.
  - assert (Hrun : run E self (S fuel) sfuel w
                   = bind (iteration E self sfuel) (fun _ => run E self fuel sfuel) w)
      by (cbn [run]; unfold bind at 1; unfold is_set at 1; now rewrite Hstop).
    rewrite Hrun. unfold bind.
    pose proof (no_submission_iteration E self sfuel Hsub w) as (Hp & Hs & He).
    destruct (iteration E self sfuel w) as [[[]| |] w1]; cbn [fst snd] in *.
    + destruct (IH w1) as (Ip & Ie & Is & Ir); [congruence|].
      split; [congruence|]. split; [congruence|]. split; [exact Is | exact Ir].
    + split; [exact Hp|]. split; [exact He|]. split; [congruence | discriminate].
    + split; [exact Hp|]. split; [exact He|]. split; [congruence | discriminate].
Qed.

Lemma run_without_submission_witness :
  let E := Example.scripted Example.row 0 Example.always_500 in
  let self := {| base_url := "u"; address := "a"; submit_on_find := false |} in
  post_calls (snd (run E self 2 3 initial_world)) = 0%nat /\
  fst (run E self 2 3 initial_world) <> Return tt.
Proof.
  intros E self.
  destruct (run_without_submission E self 2 3 initial_world eq_refl eq_refl)
    as (Hp & _ & _ & Hr).
  split; [exact Hp | exact Hr].
Defined.

(** ** A worker with nothing to work on *)

(** X12. While no challenge is published, or the published one has no
    latest_submission, a worker does nothing but ask for the challenge and
    sleep half a second, pass after pass: no nonce is drawn, no exchange
    and no POST is made, and the loop does not end by itself. *)
Theorem run_idle E self fuel sfuel w :
  (forall k, challenge_getter E k = None \/
             exists ch, challenge_getter E k = Some ch /\
                        ch !! "latest_submission" = None) ->
  stop_event w = false ->
  exists w',
    run E self fuel sfuel w = (OutOfFuel, w') /\
    trace w' = trace w ++ replicate fuel (EvSleep 500) /\
    getter_calls w' = (getter_calls w + fuel)%nat /\
    random_calls w' = random_calls w /\ oracle_calls w' = oracle_calls w /\
    post_calls w' = post_calls w /\ hashes w' = hashes w /\
    stop_event w' = false.
Proof.
  intros Hidle. revert w.
  induction fuel as [|fuel IH]; intros w Hstop.
  - exists w. cbn [run]. unfold bind, is_set. rewrite Hstop. cbn.
    rewrite app_nil_r. repeat split; lia.
  - assert (Hpass : iteration E self sfuel w
                    = (Return tt, record (EvSleep 500) (next_getter w))).
    { unfold iteration, bind, get_challenge.
      destruct (Hidle (getter_calls w)) as [-> | (ch & -> & Hls)]; [reflexivity|].
      now rewrite bool_decide_eq_true_2 by exact Hls. }
    destruct (IH (record (EvSleep 500) (next_getter w)) Hstop)
      as (w' & Hrun & Ht & Hg & Hr & Ho & Hp & Hh & Hs).
    exists w'. cbn [run]. unfold bind at 1. unfold is_set at 1. rewrite Hstop.
    unfold bind at 1. rewrite Hpass. split; [exact Hrun|].
    cbn in Ht, Hg, Hr, Ho, Hp, Hh. rewrite <- app_assoc in Ht.
    repeat split; try assumption. lia.
Qed.

Lemma run_idle_witness :
  let E := {| challenge_getter := fun _ => None;
              getrandbits64 := fun _ => 0%N;
              time_time := fun _ => 0;
              send_recv := fun _ _ => None;
              requests_post := fun _ _ => Response 201 "created";
              fromisoformat_timestamp := fun _ => None;
              now_iso := fun _ => "t";
              print_raises := Example.quiet_console |} in
  exists w',
    run E Example.me 3 3 initial_world = (OutOfFuel, w') /\
    trace w' = [EvSleep 500; EvSleep 500; EvSleep 500].
Proof.
  intros E.
  destruct (run_idle E Example.me 3 3 initial_world) as (w' & Hrun & Ht & _).
  - intros k. left. reflexivity.
  - reflexivity.
  - exists w'. split; [exact Hrun | exact Ht].
Defined.

(** ** A published challenge with a key missing *)

Lemma for_range_raises n (body : prog signal) w e w' :
  body w = (Raise e, w') -> for_range (S n) body w = (Raise e, w').
Proof. intros H. cbn [for_range]. unfold bind. now rewrite H. Qed.

(** X13. A published challenge that has latest_submission but lacks
    difficulty or challenge_id ends the worker at once: the run loop
    raises [KeyError] for the missing key.  One that lacks only
    no_pre_mine ends it as well while no deadline stops the attempts:
    the loop raises [KeyError] for no_pre_mine after drawing one nonce.
    In none of these cases is anything sent to the daemon.  But when the
    deadline has passed the preimage is never built: the pass over such
    a challenge reads the clock once, draws no nonce, raises nothing,
    and the loop goes on to the next pass. *)
Theorem run_missing_key E self fuel sfuel w ch ls :
  challenge_getter E (getter_calls w) = Some ch ->
  ch !! "latest_submission" = Some ls ->
  stop_event w = false ->
  (ch !! "difficulty" = None ->
   run E self (S fuel) sfuel w = (Raise (KeyError "difficulty"), next_getter w)) /\
  (is_Some (ch !! "difficulty") -> ch !! "challenge_id" = None ->
   run E self (S fuel) sfuel w = (Raise (KeyError "challenge_id"), next_getter w)) /\
  (is_Some (ch !! "difficulty") -> is_Some (ch !! "challenge_id") ->
   ch !! "no_pre_mine" = None ->
   deadline_open E (parse_latest E ls) ->
   exists w',
     run E self (S fuel) sfuel w = (Raise (KeyError "no_pre_mine"), w') /\
     oracle_calls w' = oracle_calls w /\
     random_calls w' = S (random_calls w) /\
     trace w' = trace w) /\
  (is_Some (ch !! "difficulty") -> is_Some (ch !! "challenge_id") ->
   forall ts,
     parse_latest E ls = Some ts -> ts <> 0 -> ts < time_time E (clock_calls w) ->
     iteration E self sfuel w = (Return tt, next_clock (next_getter w)) /\
     run E self (S fuel) sfuel w = run E self fuel sfuel (next_clock (next_getter w))).
Proof.
  intros Hget Hls Hstop.
  assert (Hrun : forall e w',
    iteration E self sfuel w = (Raise e, w') ->
    run E self (S fuel) sfuel w = (Raise e, w')).
  { intros e w' Hit. cbn [run]. unfold bind at 1. unfold is_set at 1. rewrite Hstop.
    unfold bind at 1. now rewrite Hit. }
  split; [|split; [|split]].
  - intros Hd. apply Hrun. unfold iteration, bind, get_challenge. rewrite Hget, Hls.
    rewrite bool_decide_eq_false_2 by discriminate.
    unfold lift, getitem. now rewrite Hd.
  - intros [d Hd] Hc. apply Hrun. unfold iteration, bind, get_challenge.
    rewrite Hget, Hls. rewrite bool_decide_eq_false_2 by discriminate.
    unfold lift, getitem. now rewrite Hd, Hc.
  - intros [d Hd] [c Hc] Hrom Hopen.
    assert (Hpre : forall nonce,
      pre_with_rom nonce (address self) ch = Raise (KeyError "no_pre_mine")).
    { intros nonce. unfold pre_with_rom, build_preimage, getitem.
      now rewrite Hc, Hd, Hrom. }
    assert (Hattempt : exists w',
      attempt E self sfuel ch d c (parse_latest E ls) (next_getter w)
        = (Raise (KeyError "no_pre_mine"), w') /\
      oracle_calls w' = oracle_calls w /\ random_calls w' = S (random_calls w) /\
      trace w' = trace w).
    { unfold attempt. unfold bind at 1. unfold is_set. cbn [stop_event next_getter].
      rewrite Hstop. unfold bind at 1.
      destruct (expired_open E (parse_latest E ls) (next_getter w) Hopen) as [-> | ->];
        unfold bind at 1; unfold hex64_nonce; unfold bind at 1; unfold lift;
        rewrite Hpre; eexists; (split; [reflexivity|]); cbn; auto. }
    destruct Hattempt as (w' & Hattempt & Ho & Hr & Ht).
    exists w'. split; [|auto]. apply Hrun.
    unfold iteration, bind at 1, get_challenge. rewrite Hget, Hls.
    rewrite bool_decide_eq_false_2 by discriminate.
    unfold bind at 1, lift, getitem. rewrite Hd.
    unfold bind at 1. rewrite Hc. unfold bind at 1. rewrite Hls.
    change NONCE_BATCH with (S 1023). now apply for_range_raises.
  - intros [d Hd] [c Hc] ts Hparse Hne Hlate.
    assert (Hit : iteration E self sfuel w = (Return tt, next_clock (next_getter w))).
    { unfold iteration, bind at 1, get_challenge. rewrite Hget, Hls.
      rewrite bool_decide_eq_false_2 by discriminate.
      unfold bind at 1, lift, getitem. rewrite Hd.
      unfold bind at 1. rewrite Hc. unfold bind at 1. rewrite Hls, Hparse.
      change NONCE_BATCH with (S 1023).
      rewrite for_range_expired by assumption.
      cbn [stop_event next_getter]. now rewrite Hstop. }
    split; [exact Hit|].
    cbn [run]. unfold bind at 1. unfold is_set at 1. rewrite Hstop.
    unfold bind at 1. now rewrite Hit.
Qed.

Lemma run_missing_key_witness :
  let ch : gmap string string :=
    <["latest_submission" := "2099-12-31T23:59:59.000Z"]> (<["challenge_id" := "c1"]> ∅) in
  let E := {| challenge_getter := fun _ => Some ch;
              getrandbits64 := fun _ => 0%N;
              time_time := fun _ => 0;
              send_recv := fun _ _ => None;
              requests_post := fun _ _ => Response 201 "created";
              fromisoformat_timestamp := fun _ => None;
              now_iso := fun _ => "t";
              print_raises := Example.quiet_console |} in
  run E Example.me 1 3 initial_world
  = (Raise (KeyError "difficulty"), next_getter initial_world).
Proof.
  intros ch E.
  exact (proj1 (run_missing_key E Example.me 0 3 initial_world ch
                  "2099-12-31T23:59:59.000Z" eq_refl eq_refl eq_refl) eq_refl).
Defined.

(** ** A batch of digests that miss the difficulty *)

Section Batch.

Variable E : env.
Variable self : worker.
Variable sfuel : nat.

(** No attempt makes more than one exchange, whatever the environment
    does. *)
Lemma attempt_one_exchange challenge difficulty challenge_id latest_ts w :
  (oracle_calls (snd (attempt E self sfuel challenge difficulty challenge_id latest_ts w))
   <= S (oracle_calls w))%nat.
Proof.
  unfold attempt. unfold bind at 1. unfold is_set.
  destruct (stop_event w); [cbn; lia|].
  assert (Hexp : oracle_calls (snd (expired E latest_ts w)) = oracle_calls w).
  { unfold expired. destruct latest_ts as [ts|]; [|reflexivity].
    destruct (ts =? 0); reflexivity. }
  unfold bind at 1.
  destruct (expired E latest_ts w) as [[[|]| |] w0]; cbn [snd] in Hexp |- *;
    try (unfold ret; cbn [snd]; lia).
  unfold bind at 1. unfold hex64_nonce. unfold bind at 1. unfold lift.
  destruct (pre_with_rom _ (address self) challenge) as [payload| |];
    cbn [snd oracle_calls next_random]; try lia.
  unfold bind at 1. unfold send_pre_and_recv_hash.
  destruct (send_recv E _ payload) as [h|]; [|cbn; lia].
  unfold bind at 1. unfold add_hashes. unfold bind at 1.
  destruct (hash_meets_difficulty h difficulty) as [[|]| |]; try (cbn; lia).
  unfold bind at 1. unfold note.
  match goal with |- context [found E self sfuel challenge_id ?n h ?w2] =>
    pose proof (found_frame E self sfuel challenge_id n h w2) as F; cbv zeta in F;
    destruct F as (_ & Fo & _)
  end.
  rewrite Fo. cbn. lia.
Qed.

Lemma for_range_exchanges challenge difficulty challenge_id latest_ts n : forall w,
  (oracle_calls
     (snd (for_range n (attempt E self sfuel challenge difficulty challenge_id latest_ts) w))
   <= oracle_calls w + n)%nat.
Proof.
  induction n as [|n IH]; intros w; cbn [for_range]; [cbn; lia|].
  unfold bind.
  pose proof (attempt_one_exchange challenge difficulty challenge_id latest_ts w) as H1.
  destruct (attempt E self sfuel challenge difficulty challenge_id latest_ts w)
    as [[[|]| |] w1]; cbn [snd] in *; try (unfold ret; cbn [snd]; lia).
  specialize (IH w1). lia.
Qed.

Lemma iteration_exchanges w :
  (oracle_calls (snd (iteration E self sfuel w)) <= oracle_calls w + NONCE_BATCH)%nat.
Proof.
  unfold iteration. unfold bind at 1. unfold get_challenge.
  destruct (challenge_getter E (getter_calls w)) as [ch|]; [|cbn; lia].
  destruct (bool_decide (ch !! "latest_submission" = None)); [cbn; lia|].
  unfold bind at 1. unfold lift.
  destruct (getitem ch "difficulty") as [d| |]; cbn [snd]; try (cbn; lia).
  unfold bind at 1.
  destruct (getitem ch "challenge_id") as [c| |]; cbn [snd]; try (cbn; lia).
  unfold bind at 1.
  destruct (getitem ch "latest_submission") as [ls| |]; cbn [snd]; try (cbn; lia).
  pose proof (for_range_exchanges ch d c (parse_latest E ls) NONCE_BATCH (next_getter w))
    as H.
  cbn [oracle_calls next_getter] in H. exact H.
Qed.

Variable challenge : gmap string string.
Variables challenge_id difficulty no_pre_mine latest_submission : string.
Hypothesis Hfields :
  has_fields challenge challenge_id difficulty no_pre_mine latest_submission.

Lemma attempt_reject latest_ts w :
  stop_event w = false ->
  deadline_open E latest_ts ->
  (forall p, exists h, send_recv E (oracle_calls w) p = Some h /\
                       hash_meets_difficulty h difficulty = Return false) ->
  exists w',
    attempt E self sfuel challenge difficulty challenge_id latest_ts w = (Return Next, w') /\
    stop_event w' = false /\ hashes w' = S (hashes w) /\ solutions w' = solutions w /\
    oracle_calls w' = S (oracle_calls w) /\ post_calls w' = post_calls w /\
    getter_calls w' = getter_calls w.
Proof.
  intros Hstop Hopen Hreply.
  destruct (attempt_exchange E self sfuel challenge _ _ _ _ Hfields latest_ts w Hstop Hopen)
    as (w0 & Hw0 & Heq).
  cbv zeta in Heq.
  destruct (Hreply (payload_at E self challenge (random_calls w))) as (h & Hh & Hmiss).
  rewrite Hh, Hmiss in Heq. rewrite Heq.
  eexists. split; [reflexivity|].
  destruct Hw0; subst w0; cbn; repeat split; auto; lia.
Qed.

Lemma for_range_rejects latest_ts n : forall w,
  stop_event w = false ->
  deadline_open E latest_ts ->
  (forall k p, (oracle_calls w <= k < oracle_calls w + n)%nat ->
     exists h, send_recv E k p = Some h /\
               hash_meets_difficulty h difficulty = Return false) ->
  exists w',
    for_range n (attempt E self sfuel challenge difficulty challenge_id latest_ts) w
      = (Return tt, w') /\
    stop_event w' = false /\ hashes w' = (hashes w + n)%nat /\
    solutions w' = solutions w /\ oracle_calls w' = (oracle_calls w + n)%nat /\
    post_calls w' = post_calls w /\ getter_calls w' = getter_calls w.
Proof.
  induction n as [|n IH]; intros w Hstop Hopen Hreply.
  - exists w. cbn. repeat split; auto.
  - destruct (attempt_reject latest_ts w Hstop Hopen)
      as (w1 & Hrun & Hs & Hh & Hso & Ho & Hp & Hg).
    { intros p. apply Hreply. lia. }
    destruct (IH w1 Hs Hopen) as (w' & Hrest & Hs' & Hh' & Hso' & Ho' & Hp' & Hg').
    { intros k p Hk. apply Hreply. lia. }
    exists w'. cbn [for_range]. unfold bind. rewrite Hrun.
    split; [exact Hrest|]. repeat split; try congruence; lia.
Qed.

End Batch.

(** X14. No pass over a published challenge makes more than
    [NONCE_BATCH] = 1024 exchanges, whatever the environment does.  When
    no deadline stops the attempts and every digest of the batch misses
    the difficulty, the pass makes exactly 1024 exchanges, counts 1024
    hashes and no solution, posts nothing, and returns with the stop
    event clear, so that the next pass reads the published challenge
    again. *)
Theorem iteration_full_batch E self sfuel challenge
    challenge_id difficulty no_pre_mine latest_submission w :
  (oracle_calls (snd (iteration E self sfuel w)) <= oracle_calls w + 1024)%nat /\
  (has_fields challenge challenge_id difficulty no_pre_mine latest_submission ->
   challenge_getter E (getter_calls w) = Some challenge ->
   deadline_open E (parse_latest E latest_submission) ->
   stop_event w = false ->
   (forall k p, (oracle_calls w <= k < oracle_calls w + 1024)%nat ->
      exists h, send_recv E k p = Some h /\
                hash_meets_difficulty h difficulty = Return false) ->
   exists w',
     iteration E self sfuel w = (Return tt, w') /\
     oracle_calls w' = (oracle_calls w + 1024)%nat /\
     hashes w' = (hashes w + 1024)%nat /\
     solutions w' = solutions w /\
     post_calls w' = post_calls w /\
     getter_calls w' = S (getter_calls w) /\
     stop_event w' = false).
Proof.
  split; [apply iteration_exchanges|].
  intros Hfields Hget Hopen Hstop Hreply.
  rewrite (iteration_batch E self sfuel challenge _ _ _ _ Hfields w Hget).
  destruct (for_range_rejects E self sfuel challenge _ _ _ _ Hfields
              (parse_latest E latest_submission) NONCE_BATCH (next_getter w) Hstop Hopen)
    as (w' & Hrun & Hs & Hh & Hso & Ho & Hp & Hg).
  { intros k p Hk. apply Hreply. exact Hk. }
  exists w'. split; [exact Hrun|].
  cbn [hashes solutions oracle_calls post_calls getter_calls next_getter] in *.
  unfold NONCE_BATCH in *. repeat split; assumption.
Qed.

Lemma iteration_full_batch_witness :
  let E := {| challenge_getter := fun _ => Some (challenge_of_row Example.row);
              getrandbits64 := fun k => N.of_nat k;
              time_time := Example.clock;
              send_recv := fun _ _ => Some "ffffffff00";
              requests_post := fun _ _ => Response 201 "created";
              fromisoformat_timestamp := Example.deadlines;
              now_iso := fun _ => "t";
              print_raises := Example.quiet_console |} in
  exists w',
    iteration E Example.me 3 initial_world = (Return tt, w') /\
    oracle_calls w' = 1024%nat /\
    hashes w' = 1024%nat.
Proof.
  intros E.
  destruct (proj2 (iteration_full_batch E Example.me 3 (challenge_of_row Example.row)
                     "c1" "0000ffff" "rom" "2099-12-31T23:59:59.000Z" initial_world)
              example_row_fields eq_refl)
    as (w' & Hrun & Ho & Hh & _).
  - right. intros k. vm_compute. discriminate.
  - reflexivity.
  - intros k p _. exists "ffffffff00". split; reflexivity.
  - exists w'. repeat split; assumption.
Defined.

(** ** The nonce that is submitted *)

(** X15. When a digest meets the difficulty, whatever the endpoint and
    the console do, the steps of the attempt after the difficulty test
    are lines printed, POSTs to the URL of that challenge and of the
    nonce in the line that was sent to the daemon, one-second sleeps, the
    setting of the stop event and the final sleep: nothing is posted for
    another nonce.  And when the worker submits, no deadline stops the
    attempt and the console takes every line, the attempt returns with
    the stop event set, and those steps are the line of l.304, then a
    POST, then further steps of the submission, then the half-second
    sleep. *)
Theorem found_nonce_is_submitted E self sfuel challenge
    challenge_id difficulty no_pre_mine latest_submission latest_ts w h :
  has_fields challenge challenge_id difficulty no_pre_mine latest_submission ->
  stop_event w = false ->
  deadline_open E latest_ts ->
  let nonce := nonce_at E (random_calls w) in
  let payload := no_pre_mine +:+ "|" +:+ nonce +:+ address self +:+ challenge_id
                 +:+ difficulty +:+ no_pre_mine +:+ latest_submission
                 +:+ default EmptyString (challenge !! "no_pre_mine_hour") in
  let url := solution_url (base_url self) (address self) challenge_id nonce in
  let tested := [EvExchange payload (Some h); EvHashCounted;
                 EvDifficulty h difficulty true] in
  send_recv E (oracle_calls w) payload = Some h ->
  hash_meets_difficulty h difficulty = Return true ->
  (exists steps,
     trace (snd (attempt E self sfuel challenge difficulty challenge_id latest_ts w))
       = trace w ++ tested ++ steps /\
     Forall (found_step url) steps) /\
  (console_ok E -> (3 <= sfuel)%nat -> submit_on_find self = true ->
   exists w' reply steps,
     attempt E self sfuel challenge difficulty challenge_id latest_ts w = (Return Break, w') /\
     trace w' = trace w ++ tested
                ++ [EvPrint (MsgFound nonce h challenge_id); EvPost url reply]
                ++ steps ++ [EvSleep 500] /\
     Forall (submission_step url) steps /\
     stop_event w' = true).
Proof.
  intros Hfields Hstop Hopen nonce payload url tested Hreply Hmeets.
  destruct (attempt_exchange E self sfuel challenge _ _ _ _ Hfields latest_ts w Hstop Hopen)
    as (w0 & Hw0 & Heq).
  cbv zeta in Heq.
  assert (Hpayload : payload_at E self challenge (random_calls w) = payload).
  { destruct Hfields as (Hid & Hdiff & Hrom & Hlatest). unfold payload_at.
    now rewrite Hid, Hdiff, Hrom, Hlatest. }
  rewrite Hpayload, Hreply, Hmeets in Heq. fold nonce in Heq. rewrite Heq. clear Heq.
  set (w2 := record (EvDifficulty h difficulty true) _).
  assert (Ht2 : trace w2 = trace w ++ tested).
  { subst w2 tested. destruct Hw0; subst w0; cbn; now rewrite <- !app_assoc. }
  assert (Hs2 : stop_event w2 = false).
  { subst w2. destruct Hw0; subst w0; cbn; exact Hstop. }
  assert (Hp2 : post_calls w2 = post_calls w0) by reflexivity.
  split.
  - pose proof (found_frame E self sfuel challenge_id nonce h w2) as F. cbv zeta in F.
    destruct F as (_ & _ & _ & _ & _ & _ & _ & (steps & Ft & Fall) & _).
    exists steps. rewrite Ft, Ht2, <- app_assoc. split; [reflexivity | exact Fall].
  - intros Hconsole Hfuel Hsub.
    pose proof (found_returns E self sfuel challenge_id nonce h w2 Hconsole Hfuel) as F.
    cbv zeta in F.
    destruct F as (w' & steps & Hrun & Hs & _ & _ & _ & _ & _ & Ht & Hfirst).
    destruct (Hfirst Hsub) as (more & -> & Hall).
    exists w', (requests_post E (post_calls w2) url), more.
    split; [exact Hrun|]. split; [|split; [exact Hall|]].
    + rewrite Ht, Ht2, <- !app_assoc. reflexivity.
    + rewrite Hs, Hsub. reflexivity.
Qed.

Lemma found_nonce_is_submitted_witness :
  let E := Example.scripted Example.row 0 Example.twice_503_then_201 in
  exists w' reply steps,
    attempt E Example.me 3 (challenge_of_row Example.row) "0000ffff" "c1" None
      initial_world = (Return Break, w') /\
    trace w'
    = [EvExchange "rom|0000000000003039addr1c10000ffffrom2099-12-31T23:59:59.000Z7"
         (Some "00001234abcd");
       EvHashCounted; EvDifficulty "00001234abcd" "0000ffff" true]
      ++ [EvPrint (MsgFound "0000000000003039" "00001234abcd" "c1");
          EvPost "https://scavenger.example/solution/addr1/c1/0000000000003039" reply]
      ++ steps ++ [EvSleep 500].
Proof.
  intros E.
  assert (Hfuel : (3 <= 3)%nat) by lia.
  assert (Hconsole : console_ok E) by (intros k line; reflexivity).
  destruct (proj2 (found_nonce_is_submitted E Example.me 3 (challenge_of_row Example.row)
                     "c1" "0000ffff" "rom" "2099-12-31T23:59:59.000Z" None initial_world
                     "00001234abcd" example_row_fields eq_refl I eq_refl eq_refl)
              Hconsole Hfuel eq_refl)
    as (w' & reply & steps & Hrun & Ht & _).
  exists w', reply, steps. split; [exact Hrun | exact Ht].
Defined.

(** ** A worker that finds and submits *)

(** X20. With submission enabled, a console that takes every line, a
    published challenge whose deadline does not stop the attempts and a
    daemon that leaves some requests unanswered and then returns a digest
    meeting the difficulty, [Worker.run] comes to an end: it prints its
    first line and returns with the stop event set after exactly one
    more exchange than there were unanswered requests, one hash and one
    solution counted and at most three POSTs. *)
Theorem run_finds_and_stops E self sfuel challenge
    challenge_id difficulty no_pre_mine latest_submission h misses w :
  has_fields challenge challenge_id difficulty no_pre_mine latest_submission ->
  console_ok E ->
  (forall k, challenge_getter E k = Some challenge) ->
  deadline_open E (parse_latest E latest_submission) ->
  (3 <= sfuel)%nat ->
  submit_on_find self = true ->
  stop_event w = false ->
  (forall k p, (oracle_calls w <= k < oracle_calls w + misses)%nat ->
               send_recv E k p = None) ->
  (forall p, send_recv E (oracle_calls w + misses) p = Some h) ->
  hash_meets_difficulty h difficulty = Return true ->
  exists fuel w',
    run_from_start E self fuel sfuel w = (Return tt, w') /\
    stop_event w' = true /\
    oracle_calls w' = (oracle_calls w + misses + 1)%nat /\
    hashes w' = (hashes w + 1)%nat /\
    solutions w' = (solutions w + 1)%nat /\
    (post_calls w <= post_calls w' <= post_calls w + 3)%nat.
Proof.
  intros Hfields Hconsole Hget Hopen Hfuel Hsub Hstop Hnone Hsome Hmeets.
  destruct (run_scripted E self sfuel challenge _ _ _ _ Hfields h misses
              (printed MsgStarted w) Hconsole Hget Hopen Hfuel Hstop Hnone Hsome Hmeets)
    as (fuel & w' & _ & Ho & Hh & Hso & Hs & Hp & Hret).
  exists fuel, w'. split.
  - unfold run_from_start, bind. rewrite (print_written E) by apply Hconsole.
    exact (Hret Hsub).
  - split; [congruence|]. auto.
Qed.

Lemma run_finds_and_stops_witness :
  let E := Example.scripted Example.row 2 Example.twice_503_then_201 in
  exists fuel w',
    run_from_start E Example.me fuel 3 initial_world = (Return tt, w') /\
    stop_event w' = true /\
    oracle_calls w' = 3%nat.
Proof.
  intros E.
  assert (Hfuel : (3 <= 3)%nat) by lia.
  assert (Hconsole : console_ok E) by (intros k line; reflexivity).
  destruct (run_finds_and_stops E Example.me 3 (challenge_of_row Example.row)
              "c1" "0000ffff" "rom" "2099-12-31T23:59:59.000Z" "00001234abcd" 2
              initial_world example_row_fields Hconsole)
    as (fuel & w' & Hrun & Hs & Ho & _); try reflexivity; try exact Hfuel.
  - right. intros k. vm_compute. discriminate.
  - intros k p Hk. unfold E. unfold Example.scripted; cbn [send_recv Example.scripted_on oracle_calls initial_world] in *.
    replace (k <? 2)%nat with true by (symmetry; apply Nat.ltb_lt; lia). reflexivity.
  - exists fuel, w'. split; [exact Hrun|]. split; [exact Hs | exact Ho].
Defined.
(* ===================================================================== *)
(** * Further properties: the connection to the daemon *)
(* ===================================================================== *)

Lemma before_lf_app a b :
  Client.has_lf a = false -> Client.before_lf (a +:+ b) = a +:+ Client.before_lf b.
Proof.
  induction a as [|c a IH]; [reflexivity|]. cbn [Client.has_lf]. intros H.
  apply orb_false_elim in H as [Hc Ha].
  change (String c a +:+ b) with (String c (a +:+ b)).
  cbn [Client.before_lf]. rewrite Hc, IH by exact Ha. reflexivity.
Qed.

Lemma has_lf_app a b : Client.has_lf (a +:+ b) = Client.has_lf a || Client.has_lf b.
Proof.
  induction a as [|c a IH]; [reflexivity|].
  change (String c a +:+ b) with (String c (a +:+ b)).
  cbn [Client.has_lf]. rewrite IH. now rewrite orb_assoc.
Qed.

(** The loop reads the chunks without a newline and stops at the first
    chunk with one; what comes after it stays on the socket. *)
Lemma recv_loop_line quiet last rest : forall buf st,
  Forall (fun b => b <> EmptyString /\ Client.has_lf b = false) quiet ->
  Client.has_lf last = true ->
  exists st',
    Client.recv_loop (map Client.Chunk quiet ++ Client.Chunk last :: rest) buf st
      = (Some (buf +:+ Py.join_empty quiet +:+ last), st') /\
    Client.sock st' = Some rest /\ Client.connects st' = Client.connects st /\
    Client.steps st'
      = Client.steps st ++ replicate (S (length quiet)) Client.Received /\
    Client.has_lf (buf +:+ Py.join_empty quiet) = Client.has_lf buf.
Proof.
  induction quiet as [|b quiet IH]; intros buf st Hquiet Hlast.
  - cbn [map app Client.recv_loop Py.join_empty foldr].
    destruct last as [|c last']; [discriminate|]. rewrite Hlast.
    eexists. split; [reflexivity|]. rewrite append_empty_r. auto.
  - inversion Hquiet as [|? ? [Hne Hb] Hrest]; subst.
    cbn [map app Client.recv_loop]. destruct b as [|c b']; [contradiction|].
    rewrite Hb.
    destruct (IH (buf +:+ String c b') (Client.log Client.Received st) Hrest Hlast)
      as (st' & Hrun & Hs & Hc & Hst & Hlf).
    exists st'. rewrite Hrun.
    change (Py.join_empty (String c b' :: quiet))
      with (String c b' +:+ Py.join_empty quiet).
    rewrite !string_app_assoc. split; [reflexivity|].
    split; [exact Hs|]. split; [exact Hc|]. split.
    + rewrite Hst. cbn. now rewrite <- app_assoc.
    + rewrite string_app_assoc in Hlf. rewrite Hlf, has_lf_app, Hb. apply orb_false_r.
Qed.

(** The loop makes no connection attempt and no [sendall]; when it gives
    a buffer the socket is left with a proper rest of what it had to
    give, and when it fails the socket is as it was. *)
Lemma recv_loop_fields incoming : forall buf st,
  let res := Client.recv_loop incoming buf st in
  Client.connects (snd res) = Client.connects st /\
  Client.sends (snd res) = Client.sends st /\
  match fst res with
  | Some _ =>
      exists read rest,
        read <> [] /\ incoming = read ++ rest /\ Client.sock (snd res) = Some rest
  | None => Client.sock (snd res) = Client.sock st
  end.
Proof.
  induction incoming as [|[b|] incoming IH]; intros buf st; cbn [Client.recv_loop];
    try (cbn; auto).
  destruct b as [|c b']; [cbn; auto|].
  destruct (Client.has_lf (String c b')).
  - cbn. split; [reflexivity|]. split; [reflexivity|].
    exists [Client.Chunk (String c b')], incoming. split; [discriminate | auto].
  - specialize (IH (buf +:+ String c b') (Client.log Client.Received st)).
    cbv zeta in IH. destruct IH as (Hc & Hs & Hres).
    split; [exact Hc|]. split; [exact Hs|].
    destruct (fst (Client.recv_loop incoming _ _)); [|exact Hres].
    destruct Hres as (read & rest & _ & -> & Hsock).
    exists (Client.Chunk (String c b') :: read), rest.
    split; [discriminate|]. split; [reflexivity | exact Hsock].
Qed.

(** The loop fails when the chunks stop coming, a [recv] fails, or the
    connection is closed before any newline has come. *)
Lemma recv_loop_broken quiet tail : forall buf st,
  Forall (fun b => b <> EmptyString /\ Client.has_lf b = false) quiet ->
  tail = [] \/ (exists r, tail = Client.RecvError :: r) \/
  (exists r, tail = Client.Chunk EmptyString :: r) ->
  fst (Client.recv_loop (map Client.Chunk quiet ++ tail) buf st) = None.
Proof.
  induction quiet as [|b quiet IH]; intros buf st Hquiet Htail.
  - cbn [map app]. destruct Htail as [-> | [[r ->] | [r ->]]]; reflexivity.
  - inversion Hquiet as [|? ? [Hne Hb] Hrest]; subst.
    cbn [map app Client.recv_loop]. destruct b as [|c b']; [contradiction|].
    rewrite Hb. now apply IH.
Qed.

Section ClientProperties.

Variable net : Client.network.
Variable encode_utf8 : string -> option string.
Variable decode_utf8 : string -> option string.

#[local] Abbreviation send := (Client.send_pre_and_recv_hash net encode_utf8 decode_utf8).

(** [_ensure_socket] gives the call the socket [stream_of] speaks of. *)
Lemma ensure_socket_stream st :
  match stream_of net st with
  | Some incoming =>
      exists st1,
        Client.ensure_socket net st = (true, st1) /\
        Client.sock st1 = Some incoming /\ Client.sends st1 = Client.sends st /\
        Client.connects st1
          = (Client.connects st + if no_socket st then 1 else 0)%nat /\
        (Client.sock st <> None -> st1 = st)
  | None =>
      exists st1,
        Client.ensure_socket net st = (false, st1) /\ Client.sock st1 = None /\
        Client.connects st1 = S (Client.connects st) /\ no_socket st = true
  end.
Proof.
  unfold stream_of, Client.ensure_socket, no_socket.
  destruct (Client.sock st) as [incoming|] eqn:Hs.
  - exists st. rewrite Hs. repeat split; auto; lia.
  - destruct (Client.connect net (Client.connects st)) as [incoming|].
    + eexists. split; [reflexivity|]. cbn. repeat split; try lia. contradiction.
    + eexists. split; [reflexivity|]. cbn. auto.
Qed.

(** The [try] block makes no connection attempt; it leaves a socket with
    a proper rest of what the socket had to give when it returns a line. *)
Lemma exchange_fields preimage st1 :
  let r := Client.exchange net encode_utf8 decode_utf8 preimage st1 in
  Client.connects (snd r) = Client.connects st1 /\
  (forall line, fst r = Some line ->
     exists incoming read rest,
       Client.sock st1 = Some incoming /\ read <> [] /\ incoming = read ++ rest /\
       Client.sock (snd r) = Some rest).
Proof.
  unfold Client.exchange.
  destruct (encode_utf8 _) as [data|]; [|split; [reflexivity | discriminate]].
  destruct (Client.sock st1) as [incoming|] eqn:Hs; [|split; [reflexivity | discriminate]].
  destruct (Client.sendall_ok net (Client.sends st1));
    [|split; [reflexivity | discriminate]].
  pose proof (recv_loop_fields incoming EmptyString
                (Client.log (Client.Sent data) (Client.next_send st1))) as F.
  cbv zeta in F. destruct F as (Fc & _ & Fres).
  destruct (Client.recv_loop incoming EmptyString _) as [[buf|] st2]; cbn [fst snd] in *.
  - destruct Fres as (read & rest & Hne & Hin & Hsock).
    destruct (decode_utf8 _); cbn [fst snd]; (split; [exact Fc|]);
      [|discriminate].
    intros line _. exists incoming, read, rest. auto.
  - split; [exact Fc | discriminate].
Qed.

Lemma send_facts preimage st0 :
  let res := send preimage st0 in
  (is_Some (fst res) <-> is_Some (Client.sock (snd res))) /\
  Client.connects (snd res)
    = (Client.connects st0 + if no_socket st0 then 1 else 0)%nat /\
  (forall line, fst res = Some line ->
     exists incoming read rest,
       stream_of net st0 = Some incoming /\ read <> [] /\ incoming = read ++ rest /\
       Client.sock (snd res) = Some rest).
Proof.
  unfold Client.send_pre_and_recv_hash.
  pose proof (ensure_socket_stream st0) as Hens.
  destruct (stream_of net st0) as [incoming|].
  - destruct Hens as (st1 & -> & Hs1 & _ & Hc1 & _).
    pose proof (exchange_fields preimage st1) as [Hc Hline]. cbv zeta in Hc, Hline.
    destruct (Client.exchange net encode_utf8 decode_utf8 preimage st1) as [[line|] st2];
      cbn [fst snd Client.sock Client.connects Client.set_sock Client.log] in *.
    + destruct (Hline line eq_refl) as (inc & read & rest & Hinc & Hne & Happ & Hsock).
      rewrite Hs1 in Hinc. injection Hinc as <-.
      split; [rewrite Hsock; split; eauto|]. split; [lia|].
      intros l _. exists incoming, read, rest. auto.
    + split; [|split; [lia | discriminate]].
      split; intros [x Hx]; discriminate Hx.
  - destruct Hens as (st1 & -> & Hs1 & Hc1 & Hno). rewrite Hno.
    cbn [fst snd Client.sock Client.connects Client.log]. rewrite Hs1.
    split; [|split; [lia | discriminate]].
    split; intros [x Hx]; discriminate Hx.
Qed.

(** X16. One successful exchange: on a socket at hand or a connection
    that succeeds, the line sent is the preimage and a newline, [recv] is
    called until the first chunk with a newline and no further, and the
    call returns the stripped text of the bytes received before that
    newline, chunks put together.  The bytes after the newline in that
    chunk are dropped; the socket is kept, and what it has yet to give
    is left on it for the next call. *)
Theorem send_pre_and_recv_hash_line preimage st data quiet last rest text :
  stream_of net st = Some (map Client.Chunk quiet ++ Client.Chunk last :: rest) ->
  encode_utf8 (preimage +:+ String Client.LF EmptyString) = Some data ->
  Client.sendall_ok net (Client.sends st) = true ->
  Forall (fun b => b <> EmptyString /\ Client.has_lf b = false) quiet ->
  Client.has_lf last = true ->
  decode_utf8 (Py.join_empty quiet +:+ Client.before_lf last) = Some text ->
  exists st' before,
    send preimage st = (Some (Py.strip text), st') /\
    Client.sock st' = Some rest /\
    Client.steps st'
      = before ++ Client.Sent data :: replicate (S (length quiet)) Client.Received /\
    (Client.sock st <> None ->
     Client.connects st' = Client.connects st /\ before = Client.steps st).
Proof.
  intros Hstream Henc Hsend Hquiet Hlast Hdec.
  unfold Client.send_pre_and_recv_hash.
  pose proof (ensure_socket_stream st) as Hens. rewrite Hstream in Hens.
  destruct Hens as (st1 & -> & Hs1 & Hsends & _ & Hsame).
  unfold Client.exchange. rewrite Henc, Hs1, Hsends, Hsend.
  destruct (recv_loop_line quiet last rest EmptyString
              (Client.log (Client.Sent data) (Client.next_send st1)) Hquiet Hlast)
    as (st2 & -> & Hs2 & Hc2 & Hst2 & Hlf).
  change (EmptyString +:+ Py.join_empty quiet +:+ last)
    with (Py.join_empty quiet +:+ last).
  change (EmptyString +:+ Py.join_empty quiet) with (Py.join_empty quiet) in Hlf.
  rewrite before_lf_app by exact Hlf. rewrite Hdec.
  exists st2, (Client.steps st1). split; [reflexivity|].
  cbn in Hc2, Hst2. split; [exact Hs2|]. split.
  - rewrite Hst2, <- app_assoc. reflexivity.
  - intros Hsock. rewrite Hc2, (Hsame Hsock). auto.
Qed.

(** X17. After any call, whatever happened on the wire, the worker holds
    a socket exactly when the call returned a line; a call makes no
    connection attempt when it starts with a socket and exactly one when
    it starts without; and a call that returns a line has read at least
    one chunk and leaves on the socket all that the socket had yet to
    give after what it read: nothing is thrown away between calls, so
    the next call reads on from there. *)
Theorem send_pre_and_recv_hash_socket preimage st :
  let res := send preimage st in
  (is_Some (fst res) <-> is_Some (Client.sock (snd res))) /\
  Client.connects (snd res)
    = (Client.connects st + if no_socket st then 1 else 0)%nat /\
  (forall line, fst res = Some line ->
     exists incoming read rest,
       stream_of net st = Some incoming /\ read <> [] /\ incoming = read ++ rest /\
       stream_of net (snd res) = Some rest).
Proof.
  intros res. subst res. destruct (send_facts preimage st) as (H1 & H2 & H3).
  split; [exact H1|]. split; [exact H2|].
  intros line Hline. destruct (H3 line Hline) as (inc & read & rest & Hi & Hne & Ha & Hs).
  exists inc, read, rest. unfold stream_of at 2. rewrite Hs. auto.
Qed.

(** X19. A reply that never gets to its newline is never returned: when
    the chunks received have no newline and then the data stop, a [recv]
    fails or the daemon closes the connection, the call returns [None]
    however much was received, and the worker is left without a socket. *)
Theorem send_pre_and_recv_hash_broken preimage st quiet tail :
  (forall incoming, stream_of net st = Some incoming ->
                    incoming = map Client.Chunk quiet ++ tail) ->
  Forall (fun b => b <> EmptyString /\ Client.has_lf b = false) quiet ->
  tail = [] \/ (exists r, tail = Client.RecvError :: r) \/
  (exists r, tail = Client.Chunk EmptyString :: r) ->
  fst (send preimage st) = None /\
  Client.sock (snd (send preimage st)) = None.
Proof.
  intros Hstream Hquiet Htail.
  unfold Client.send_pre_and_recv_hash.
  pose proof (ensure_socket_stream st) as Hens.
  destruct (stream_of net st) as [incoming|].
  - destruct Hens as (st1 & -> & Hs1 & _).
    rewrite (Hstream incoming eq_refl) in Hs1.
    assert (Hex : fst (Client.exchange net encode_utf8 decode_utf8 preimage st1) = None).
    { unfold Client.exchange.
      destruct (encode_utf8 _) as [data|]; [|reflexivity]. rewrite Hs1.
      destruct (Client.sendall_ok net (Client.sends st1)); [|reflexivity].
      pose proof (recv_loop_broken quiet tail EmptyString
                    (Client.log (Client.Sent data) (Client.next_send st1)) Hquiet Htail)
        as Hloop.
      destruct (Client.recv_loop _ _ _) as [[buf|] st2];
        [discriminate Hloop | reflexivity]. }
    destruct (Client.exchange net encode_utf8 decode_utf8 preimage st1) as [[line|] st2];
      [discriminate Hex | split; reflexivity].
  - destruct Hens as (st1 & -> & Hs1 & _). split; [reflexivity | exact Hs1].
Qed.

(** X18. Over any sequence of calls the connection is made lazily: the
    number of connection attempts is the number of calls that start
    without a socket, that is the first call when the worker has none and
    each call that follows one which returned [None]; a call that follows
    a returned line reuses the socket. *)
Theorem calls_reconnect l : forall st,
  let res := Client.calls net encode_utf8 decode_utf8 l st in
  length (fst res) = length l /\
  Client.connects (snd res)
    = (Client.connects st + reconnects (no_socket st) (fst res))%nat.
Proof.
  induction l as [|preimage l IH]; intros st res; subst res.
  - cbn. split; [reflexivity | lia].
  - cbn [Client.calls].
    destruct (send_facts preimage st) as (Hsome & Hconn & _). cbv zeta in Hsome, Hconn.
    destruct (send preimage st) as [r st1] eqn:Hcall. cbn [fst snd] in *.
    specialize (IH st1). cbv zeta in IH.
    destruct (Client.calls net encode_utf8 decode_utf8 l st1) as [rs st2].
    cbn [fst snd length reconnects] in *. destruct IH as [IHl IHc].
    split; [now rewrite IHl|]. rewrite IHc, Hconn.
    assert (Hnone : no_socket st1 = match r with None => true | Some _ => false end).
    { unfold no_socket. destruct r as [line|], (Client.sock st1) as [k|]; try reflexivity.
      - destruct (proj1 Hsome) as [x Hx]; [eauto | discriminate Hx].
      - destruct (proj2 Hsome) as [x Hx]; [eauto | discriminate Hx]. }
    rewrite Hnone. lia.
Qed.

(** X21. Replies are matched to requests by their order alone.  When
    the socket gives two chunks in a row that each hold one line, the
    first call returns the first line and the second call, whatever it
    sends, returns the second: a line the daemon sent in surplus is
    taken for the reply to the next request. *)
Theorem surplus_line_answers_next_call p1 p2 st l1 l2 rest d1 d2 t1 t2 :
  stream_of net st
    = Some (Client.Chunk (l1 +:+ String Client.LF EmptyString)
            :: Client.Chunk (l2 +:+ String Client.LF EmptyString) :: rest) ->
  Client.has_lf l1 = false -> Client.has_lf l2 = false ->
  encode_utf8 (p1 +:+ String Client.LF EmptyString) = Some d1 ->
  encode_utf8 (p2 +:+ String Client.LF EmptyString) = Some d2 ->
  Client.sendall_ok net (Client.sends st) = true ->
  Client.sendall_ok net (S (Client.sends st)) = true ->
  decode_utf8 l1 = Some t1 -> decode_utf8 l2 = Some t2 ->
  exists st2,
    Client.calls net encode_utf8 decode_utf8 [p1; p2] st
      = ([Some (Py.strip t1); Some (Py.strip t2)], st2) /\
    Client.sock st2 = Some rest.
Proof.
  intros Hstream Hl1 Hl2 He1 He2 Hs1 Hs2 Hd1 Hd2.
  assert (Hlf : forall l, Client.has_lf l = false ->
            Client.has_lf (l +:+ String Client.LF EmptyString) = true /\
            Client.before_lf (l +:+ String Client.LF EmptyString) = l).
  { intros l Hl. split.
    - rewrite has_lf_app, Hl. reflexivity.
    - rewrite before_lf_app by exact Hl. cbn. apply append_empty_r. }
  destruct (Hlf l1 Hl1) as [Hh1 Hb1]. destruct (Hlf l2 Hl2) as [Hh2 Hb2].
  unfold Client.send_pre_and_recv_hash, Client.calls.
  unfold Client.send_pre_and_recv_hash.
  pose proof (ensure_socket_stream st) as Hens. rewrite Hstream in Hens.
  destruct Hens as (st1 & -> & Hsock1 & Hsends1 & _).
  unfold Client.exchange at 1. rewrite He1, Hsock1, Hsends1, Hs1.
  cbn [Client.recv_loop]. 
  destruct (l1 +:+ String Client.LF EmptyString) as [|c r] eqn:Hc1; [discriminate Hh1|].
  rewrite Hh1. change (EmptyString +:+ String c r) with (String c r).
  rewrite Hb1, Hd1.
  set (sta := Client.set_sock _ _).
  assert (Ha : Client.sock sta
               = Some (Client.Chunk (l2 +:+ String Client.LF EmptyString) :: rest))
    by reflexivity.
  assert (Hsa : Client.sends sta = S (Client.sends st)).
  { subst sta. cbn. now rewrite Hsends1. }
  unfold Client.ensure_socket. rewrite Ha.
  unfold Client.exchange. rewrite He2, Ha, Hsa, Hs2.
  cbn [Client.recv_loop].
  destruct (l2 +:+ String Client.LF EmptyString) as [|c2 r2] eqn:Hc2; [discriminate Hh2|].
  rewrite Hh2. change (EmptyString +:+ String c2 r2) with (String c2 r2).
  rewrite Hb2, Hd2.
  eexists. split; reflexivity.
Qed.

End ClientProperties.

(** A daemon that answers in two chunks, the second one holding the end
    of the line and the beginning of something else. *)
Lemma send_pre_and_recv_hash_line_witness :
  let net := {| Client.connect := fun _ =>
                  Some [Client.Chunk "0000ab";
                        Client.Chunk (" cd " +:+ String Client.LF "junk");
                        Client.Chunk "more"];
                Client.sendall_ok := fun _ => true |} in
  let st := {| Client.sock := None; Client.connects := 0; Client.sends := 0;
               Client.steps := [] |} in
  exists st' before,
    Client.send_pre_and_recv_hash net Some Some "rom|x" st = (Some "0000ab cd", st') /\
    Client.sock st' = Some [Client.Chunk "more"] /\
    Client.steps st'
      = before ++ [Client.Sent ("rom|x" +:+ String Client.LF EmptyString);
                   Client.Received; Client.Received].
Proof.
  intros net st.
  destruct (send_pre_and_recv_hash_line net Some Some "rom|x" st
              ("rom|x" +:+ String Client.LF EmptyString)
              ["0000ab"] (" cd " +:+ String Client.LF "junk") [Client.Chunk "more"]
              "0000ab cd ")
    as (st' & before & Hrun & Hsock & Hsteps & _).
  - reflexivity.
  - reflexivity.
  - reflexivity.
  - repeat constructor. discriminate.
  - reflexivity.
  - reflexivity.
  - exists st', before. split; [exact Hrun|]. split; [exact Hsock | exact Hsteps].
Defined.

Lemma send_pre_and_recv_hash_broken_witness :
  let net := {| Client.connect := fun _ => None; Client.sendall_ok := fun _ => true |} in
  let st := {| Client.sock := Some [Client.Chunk "0000abcd"; Client.Chunk EmptyString];
               Client.connects := 1; Client.sends := 0; Client.steps := [] |} in
  fst (Client.send_pre_and_recv_hash net Some Some "rom|x" st) = None /\
  Client.sock (snd (Client.send_pre_and_recv_hash net Some Some "rom|x" st)) = None.
Proof.
  intros net st.
  apply (send_pre_and_recv_hash_broken net Some Some "rom|x" st ["0000abcd"]
           [Client.Chunk EmptyString]).
  - intros incoming [= <-]. reflexivity.
  - repeat constructor. discriminate.
  - right. right. exists []. reflexivity.
Defined.

(** A line returned leaves the socket with what it had not given yet. *)
Lemma send_pre_and_recv_hash_socket_witness :
  let net := {| Client.connect := fun _ => None; Client.sendall_ok := fun _ => true |} in
  let st := {| Client.sock := Some [Client.Chunk ("aaaa" +:+ String Client.LF EmptyString);
                                    Client.Chunk ("bbbb" +:+ String Client.LF EmptyString)];
               Client.connects := 1; Client.sends := 0; Client.steps := [] |} in
  exists incoming read rest,
    stream_of net st = Some incoming /\ read <> [] /\ incoming = read ++ rest /\
    stream_of net (snd (Client.send_pre_and_recv_hash net Some Some "rom|x" st))
      = Some rest.
Proof.
  intros net st.
  exact (proj2 (proj2 (send_pre_and_recv_hash_socket net Some Some "rom|x" st))
           "aaaa" eq_refl).
Defined.

(** Two lines on the socket, one request each: the second request gets
    the second line. *)
Lemma surplus_line_answers_next_call_witness :
  let net := {| Client.connect := fun _ =>
                  Some [Client.Chunk ("aaaa" +:+ String Client.LF EmptyString);
                        Client.Chunk ("bbbb" +:+ String Client.LF EmptyString)];
                Client.sendall_ok := fun _ => true |} in
  let st := {| Client.sock := None; Client.connects := 0; Client.sends := 0;
               Client.steps := [] |} in
  exists st2,
    Client.calls net Some Some ["rom|nonce1"; "rom|nonce2"] st
      = ([Some "aaaa"; Some "bbbb"], st2) /\
    Client.sock st2 = Some [].
Proof.
  intros net st.
  apply (surplus_line_answers_next_call net Some Some "rom|nonce1" "rom|nonce2" st
           "aaaa" "bbbb" []
           ("rom|nonce1" +:+ String Client.LF EmptyString)
           ("rom|nonce2" +:+ String Client.LF EmptyString) "aaaa" "bbbb");
    reflexivity.
Defined.
